(** * Rate_stores: the rating ledger, the owner-request workflow and the
      access gate of the Express/SQLite backend

    The backend (the server file of the repository, together with
    [backend/db.js]) is a set of Express handlers; every handler is an
    [async] function whose body is one [try] block made of [await]ed SQLite
    statements, with a [catch] that answers [500 'Server error'].

    The embedding follows that shape:
    - the four tables of [initDb] are lists of rows in rowid order, together
      with the AUTOINCREMENT counters;
    - every SQL statement a modelled handler awaits is a constructor of
      [stmt], and [run_stmt] gives its effect on the database, including the
      constraints the schema declares (NOT NULL, CHECK, UNIQUE, and FOREIGN
      KEY under the pragma that [db.js] leaves off);
    - a handler is a [prog]: a tree of awaited statements ending in a
      response.  [exec] runs a handler alone; [run_sched] interleaves two
      handlers at their [await] points, which is where Node may switch from
      one request to the other;
    - numbers are rationals; where SQLite computes in floating point, in
      [AVG], the model rounds as the binary64 format does. *)

From Stdlib Require Import ZArith QArith Qabs Qround Qpower Lia Lqa List Sorted.
From stdpp Require Import base decidable option list strings.
Import ListNotations.

Local Open Scope string_scope.
Local Open Scope Z_scope.

(** ** JavaScript values of [req.body.rating] *)

Module Js.

(** The JSON values the model covers: a missing field, [null], a boolean
    and a number.  JSON numbers are decimal literals; they are kept as
    rationals.  Strings and objects are not modelled. *)
Inductive value : Type :=
| Undefined
| Null
| Bool (b : bool)
| Num (q : Q).

(** [ToNumber]; [None] is [NaN]. *)
Definition to_number (v : value) : option Q :=
  match v with
  | Undefined => None
  | Null => Some (0 # 1)%Q
  | Bool b => Some (if b then (1 # 1)%Q else (0 # 1)%Q)
  | Num q => Some q
  end.

Definition Qlt_bool (x y : Q) : bool := negb (Qle_bool y x).

(** [a < b]: false as soon as one side is [NaN]. *)
Definition lt (a b : value) : bool :=
  match to_number a, to_number b with
  | Some x, Some y => Qlt_bool x y
  | _, _ => false
  end.

(** [a > b] *)
Definition gt (a b : value) : bool := lt b a.

(** The value node-sqlite3 binds to a [?]: [undefined] leaves the
    parameter unbound, which SQLite reads as NULL; [None] is NULL. *)
Definition bind (v : value) : option Q :=
  match v with
  | Undefined => None
  | Null => None
  | Bool b => Some (if b then (1 # 1)%Q else (0 # 1)%Q)
  | Num q => Some q
  end.

End Js.

(** ** The schema of [initDb] *)

Inductive role : Type := Admin | Normal | Owner.
Inductive status : Type := Pending | Approved | Rejected.

#[global] Instance role_eq_dec : EqDecision role.
Proof. solve_decision. Defined.
#[global] Instance status_eq_dec : EqDecision status.
Proof. solve_decision. Defined.

(** A route parameter ([:storeId], [:requestId]) is text.  Bound to a [?]
    that is stored in, or compared with, an INTEGER column, SQLite's column
    affinity turns text that spells an integer into that integer and leaves
    other text as it is.  [PInt z] is a parameter that spells [z]; [PText s]
    is a parameter [s] that spells no number.  (Text that spells a number
    with a fractional part would be kept as that number; it is not
    modelled.) *)
Inductive param : Type :=
| PInt (z : Z)
| PText (s : string).

#[global] Instance param_eq_dec : EqDecision param.
Proof. solve_decision. Defined.

(** [users]; the password hash is left out, no modelled handler reads it. *)
Record user_row : Type := mkUser {
  u_id : Z;
  u_name : string;
  u_email : string;
  u_address : string;
  u_role : role
}.

(** [stores]; [s_owner = None] is a NULL [owner_id]. *)
Record store_row : Type := mkStore {
  s_id : Z;
  s_name : string;
  s_owner : option Z
}.

(** [ratings].  [store_id] has INTEGER affinity only, so it can hold text;
    [rating] is NOT NULL, and holds whatever number passed the CHECK. *)
Record rating_row : Type := mkRating {
  r_id : Z;
  r_user : Z;
  r_store : param;
  r_rating : Q;
  r_created : Z;
  r_updated : Z
}.

(** [owner_requests] *)
Record request_row : Type := mkRequest {
  q_id : Z;
  q_user : Z;
  q_status : status;
  q_reason : option string;
  q_created : Z;
  q_updated : Z
}.

(** The database file: the rows of each table in rowid order and, for the
    two tables the modelled handlers insert into, the [sqlite_sequence]
    counter of AUTOINCREMENT. *)
Record db : Type := mkDb {
  users : list user_row;
  stores : list store_row;
  ratings : list rating_row;
  ratings_seq : Z;
  owner_requests : list request_row;
  requests_seq : Z
}.

(** [db.js] opens the connection and never issues [PRAGMA foreign_keys = ON];
    SQLite then parses the FOREIGN KEY clauses and does not enforce them. *)
Definition foreign_keys : bool := false.

(** The state [initDb] leaves on a new file: empty tables and the seeded
    administrator. *)
Definition initDb : db :=
  {| users := [mkUser 1 "Default System Admin" "admin@example.com"
                 "Admin Address" Admin];
     stores := [];
     ratings := [];
     ratings_seq := 0;
     owner_requests := [];
     requests_seq := 0 |}.

(** ** Storage errors *)

Inductive sql_error : Type :=
| NotNullFailed (column : string)
| CheckFailed (table : string)
| UniqueFailed (columns : string)
| ForeignKeyFailed.

(** ** Column and row helpers *)

(** AUTOINCREMENT: one more than the largest rowid the table holds or ever
    held. *)
Definition next_rowid (seq : Z) (ids : list Z) : Z :=
  1 + fold_right Z.max seq ids.

(** [rating BETWEEN 1 AND 5] *)
Definition rating_check (q : Q) : bool :=
  Qle_bool (1 # 1) q && Qle_bool q (5 # 1).

Definition rating_key (uid : Z) (sid : param) (r : rating_row) : bool :=
  bool_decide (r_user r = uid) && bool_decide (r_store r = sid).

(** A value bound to [rating] must be non-NULL and pass the CHECK. *)
Definition rating_value (v : option Q) : sql_error + Q :=
  match v with
  | None => inl (NotNullFailed "ratings.rating")
  | Some q => if rating_check q then inr q else inl (CheckFailed "ratings")
  end.

Definition user_exists (uid : Z) (d : db) : bool :=
  existsb (fun u => bool_decide (u_id u = uid)) (users d).

Definition store_exists (sid : param) (d : db) : bool :=
  existsb (fun s => bool_decide (PInt (s_id s) = sid)) (stores d).

(** The columns the rating route selects back:
    [id, user_id, store_id, rating]. *)
Record rating_view : Type := mkRatingView {
  rv_id : Z;
  rv_user : Z;
  rv_store : param;
  rv_rating : Q
}.

Definition view_of (r : rating_row) : rating_view :=
  mkRatingView (r_id r) (r_user r) (r_store r) (r_rating r).

(** A row of the store-raters listing. *)
Record rater_view : Type := mkRater {
  rt_id : Z;
  rt_name : string;
  rt_email : string;
  rt_address : string;
  rt_rating : Q;
  rt_created : Z;
  rt_updated : Z
}.

(** [ORDER BY updated_at DESC], as an insertion sort that keeps rows of equal
    [updated_at] in the order of the scan (SQL leaves their order open). *)
Fixpoint insert_desc (x : rater_view) (l : list rater_view) : list rater_view :=
  match l with
  | [] => [x]
  | y :: l' =>
      if rt_updated y <=? rt_updated x then x :: l
      else y :: insert_desc x l'
  end.

Definition order_by_updated_desc (l : list rater_view) : list rater_view :=
  fold_right insert_desc [] l.

(** *** Floating point

    SQLite computes [AVG] in C [double]s, and the number it returns reaches
    the JSON response as a JavaScript number, which is the same IEEE 754
    binary64 format.  A binary64 number is kept as the rational it denotes;
    an operation is the exact operation on rationals followed by [double],
    the rounding of the format's default mode. *)

(** [2^e] *)
Definition pow2 (e : Z) : Q := ((2 # 1) ^ e)%Q.

(** The binary exponent of a positive rational: the [e] with
    [2^e <= q < 2^(e+1)]. *)
Definition ilog2 (q : Q) : Z :=
  let e := Z.log2 (Qnum q) - Z.log2 (Z.pos (Qden q)) in
  if Qle_bool (pow2 e) q then e else e - 1.

(** The nearest integer, the even one of the two at a tie. *)
Definition round_even (x : Q) : Z :=
  let f := Qfloor x in
  match (x - inject_Z f ?= 1 # 2)%Q with
  | Lt => f
  | Eq => if Z.even f then f else f + 1
  | Gt => f + 1
  end.

(** Round to nearest, ties to even, with a significand of 53 bits and the
    exponent of the smallest normal number, [-1022], as the lower bound of
    the exponent (below it the numbers are subnormal, spaced [2^-1074]
    apart).  The upper end of the format is not modelled: a magnitude from
    [2^1024] on, which the format rounds to an infinity, is out of reach of
    sums and quotients of numbers that passed
    [CHECK (rating BETWEEN 1 AND 5)]. *)
Definition double (x : Q) : Q :=
  let x := Qred x in
  let a := Qabs x in
  if Qeq_bool a (0 # 1) then (0 # 1)%Q
  else
    let e := Z.max (ilog2 a) (-1022) - 52 in
    let m := Qred (inject_Z (round_even (a / pow2 e)) * pow2 e) in
    if Qle_bool (0 # 1) x then m else (- m)%Q.

(** Equal rationals round to one and the same double. *)
#[global] Instance double_proper : Proper (Qeq ==> eq) double.
Proof. intros x y E. unfold double. rewrite (Qred_complete x y E). reflexivity. Defined.

#[global] Instance double_proper_Qeq : Proper (Qeq ==> Qeq) double.
Proof. intros x y E. rewrite (double_proper x y E). reflexivity. Defined.

(** [x + y], [x - y] and [x / y] on doubles *)
Definition fadd (x y : Q) : Q := double (x + y).
Definition fsub (x y : Q) : Q := double (x - y).
Definition fdiv (x y : Q) : Q := double (x / y).

(** *** [AVG]

    The storage class of a number held in a column of INTEGER affinity: a
    number that has no fractional part and fits 64 bits is stored as an
    INTEGER, any other number as a REAL. *)
Definition whole (q : Q) : bool := (Qden (Qred q) =? 1)%positive.

Definition is_integer (q : Q) : bool :=
  whole q && (- 2 ^ 63 <=? Qnum (Qred q)) && (Qnum (Qred q) <? 2 ^ 63).

(** The aggregate context of [sum()] and [avg()] in the SQLite that
    [sqlite3 ^5.1.7] bundles (3.44): integers are added exactly in [iSum]
    until the first REAL comes; from then on the sum is the double [rSum]
    with the error term [rErr] of the Kahan-Babuska-Neumaier summation. *)
Record SumCtx : Type := mkSum {
  rSum : Q;
  rErr : Q;
  iSum : Z;
  cnt : Z;
  approx : bool
}.

(** [t = s + r;
     if( fabs(s) > fabs(r) ) rErr += (s - t) + r; else rErr += (r - t) + s;
     rSum = t;] *)
Definition kahanBabuskaNeumaierStep (p : SumCtx) (r : Q) : SumCtx :=
  let s := rSum p in
  let t := fadd s r in
  mkSum t
    (fadd (rErr p)
       (if Js.Qlt_bool (Qabs r) (Qabs s) then fadd (fsub s t) r else fadd (fsub r t) s))
    (iSum p) (cnt p) (approx p).

(** [rSum = (double)iSum; rErr = 0.0;] *)
Definition kahanBabuskaNeumaierInit (p : SumCtx) : SumCtx :=
  mkSum (double (inject_Z (iSum p))) (0 # 1) (iSum p) (cnt p) true.

(** One row of the group.  An integer of magnitude [2^52] or more is split
    in two before it is added to a double, and an integer sum that leaves 64
    bits turns into a double; with ratings that passed the CHECK either takes
    more than [2^49] rows, and neither is modelled. *)
Definition sumStep (p : SumCtx) (v : Q) : SumCtx :=
  let p := mkSum (rSum p) (rErr p) (iSum p) (cnt p + 1) (approx p) in
  if approx p then kahanBabuskaNeumaierStep p (double v)
  else if is_integer v
  then mkSum (rSum p) (rErr p) (iSum p + Qnum (Qred v)) (cnt p) false
  else kahanBabuskaNeumaierStep (kahanBabuskaNeumaierInit p) (double v).

(** [r = approx ? rSum + rErr : (double)iSum; result r/(double)cnt], and
    NULL ([None]) when no row was summed. *)
Definition avgFinalize (p : SumCtx) : option Q :=
  if 0 <? cnt p
  then Some (fdiv (if approx p then fadd (rSum p) (rErr p)
                   else double (inject_Z (iSum p)))
               (double (inject_Z (cnt p))))
  else None.

(** [AVG] over the values of a group, in the order of the scan. *)
Definition sql_avg (l : list Q) : option Q :=
  avgFinalize (fold_left sumStep l (mkSum (0 # 1) (0 # 1) 0 0 false)).

(** [COALESCE(x, 0)] *)
Definition coalesce0 (x : option Q) : Q :=
  match x with
  | Some q => q
  | None => (0 # 1)%Q
  end.

(** [ORDER BY name ASC]: text compares bytewise under the BINARY collation;
    rows of equal name stay in the order of the scan. *)
Fixpoint insert_by {A : Type} (name : A -> string) (x : A) (l : list A) : list A :=
  match l with
  | [] => [x]
  | y :: l' =>
      if String.leb (name x) (name y) then x :: l
      else y :: insert_by name x l'
  end.

Definition order_by_name {A : Type} (name : A -> string) (l : list A) : list A :=
  fold_right (insert_by name) [] l.

(** [ON r.store_id = s.id] *)
Definition joins (s : store_row) (r : rating_row) : bool :=
  bool_decide (r_store r = PInt (s_id s)).

(** [stores s LEFT JOIN ratings r ON r.store_id = s.id]: every store with
    each of its ratings; a store without rating keeps one row, whose [r]
    columns are NULL. *)
Definition left_join (d : db) : list (store_row * option rating_row) :=
  flat_map (fun s =>
              match List.filter (joins s) (ratings d) with
              | [] => [(s, None)]
              | rs => map (fun r => (s, Some r)) rs
              end) (stores d).

(** [stores s JOIN ratings r ON r.store_id = s.id] *)
Definition inner_join (d : db) : list (store_row * rating_row) :=
  flat_map (fun s => map (fun r => (s, r)) (List.filter (joins s) (ratings d)))
    (stores d).

(** [WHERE s.owner_id = ?] on a joined row. *)
Definition owned_by {R : Type} (uid : Z) (row : store_row * R) : bool :=
  bool_decide (s_owner (fst row) = Some uid).

(** [GROUP BY s.id]: the rows of the group of store id [sid]. *)
Definition group_of (sid : Z) (rows : list (store_row * option rating_row))
  : list (store_row * option rating_row) :=
  List.filter (fun row => bool_decide (s_id (fst row) = sid)) rows.

(** The values of a column of [r] over a group; aggregate functions skip
    NULL. *)
Definition column {A : Type} (c : rating_row -> A)
    (g : list (store_row * option rating_row)) : list A :=
  omap (fun row => c <$> snd row) g.

(** [COALESCE(AVG(r.rating), 0) AS avg_rating] over a group. *)
Definition avg_rating (g : list (store_row * option rating_row)) : Q :=
  coalesce0 (sql_avg (column r_rating g)).

(** [COUNT(r.id) AS rating_count] over a group. *)
Definition count_ids (g : list (store_row * option rating_row)) : Z :=
  Z.of_nat (length (column r_id g)).

(** [CASE WHEN u.role = 'owner'
          THEN COALESCE((SELECT AVG(r.rating) FROM stores s
                         JOIN ratings r ON r.store_id = s.id
                         WHERE s.owner_id = u.id), 0)
     END AS owner_rating]; a CASE without ELSE is NULL off its branch. *)
Definition owner_rating (u : user_row) (d : db) : option Q :=
  if bool_decide (u_role u = Owner)
  then Some (coalesce0
               (sql_avg (map (fun row => r_rating (snd row))
                           (List.filter (owned_by (u_id u)) (inner_join d)))))
  else None.

(** Rows of the three listings that carry an average. *)
Record store_avg_view : Type := mkStoreAvg {
  sa_id : Z;
  sa_name : string;
  sa_avg_rating : Q
}.

Record owner_store_view : Type := mkOwnerStore {
  os_id : Z;
  os_name : string;
  os_avg_rating : Q;
  os_rating_count : Z
}.

Record user_view : Type := mkUserView {
  uv_id : Z;
  uv_name : string;
  uv_email : string;
  uv_address : string;
  uv_role : role;
  uv_owner_rating : option Q
}.

(** ** The statements the handlers await *)

(** [db.run] resolves with [{ id: this.lastID, changes: this.changes }].
    The handlers read [id] after an INSERT only, so an INSERT yields the new
    rowid and an UPDATE yields the number of rows it changed.  [db.get]
    resolves with the first row or [undefined], [db.all] with all rows. *)
Inductive stmt : Type -> Type :=
(* SELECT id FROM ratings WHERE user_id = ? AND store_id = ? *)
| SelectRatingId (uid : Z) (sid : param) : stmt (option Z)
(* UPDATE ratings SET rating = ?, updated_at = CURRENT_TIMESTAMP WHERE id = ? *)
| UpdateRating (v : option Q) (id : Z) : stmt Z
(* INSERT INTO ratings (user_id, store_id, rating) VALUES (?, ?, ?) *)
| InsertRating (uid : Z) (sid : param) (v : option Q) : stmt Z
(* SELECT id, user_id, store_id, rating FROM ratings WHERE id = ? *)
| SelectRating (id : Z) : stmt (option rating_view)
(* SELECT * FROM owner_requests WHERE id = ? *)
| SelectRequest (rid : param) : stmt (option request_row)
(* UPDATE users SET role = 'owner' WHERE id = ? *)
| SetRoleOwner (uid : Z) : stmt Z
(* UPDATE owner_requests SET status = 'approved',
     updated_at = CURRENT_TIMESTAMP WHERE id = ? *)
| SetApproved (rid : param) : stmt Z
(* UPDATE owner_requests SET status = 'rejected', reason = ?,
     updated_at = CURRENT_TIMESTAMP WHERE id = ? *)
| SetRejected (reason : string) (rid : param) : stmt Z
(* SELECT * FROM owner_requests
     WHERE user_id = ? AND status IN ('pending', 'approved') *)
| SelectOpenRequest (uid : Z) : stmt (option request_row)
(* SELECT * FROM owner_requests WHERE user_id = ? *)
| SelectRequestOfUser (uid : Z) : stmt (option request_row)
(* INSERT INTO owner_requests (user_id, status) VALUES (?, 'pending') *)
| InsertRequest (uid : Z) : stmt Z
(* SELECT id FROM stores WHERE id = ? AND owner_id = ? *)
| SelectOwnedStore (sid : param) (uid : Z) : stmt (option Z)
(* SELECT u.id, u.name, u.email, u.address, r.rating, r.created_at, r.updated_at
     FROM ratings r JOIN users u ON u.id = r.user_id
     WHERE r.store_id = ? ORDER BY r.updated_at DESC *)
| SelectRaters (sid : param) : stmt (list rater_view)
(* SELECT s.id, s.name, ..., COALESCE(AVG(r.rating), 0) AS avg_rating
     FROM stores s LEFT JOIN ratings r ON r.store_id = s.id
     GROUP BY s.id ORDER BY s.name ASC *)
| SelectStoresAvg : stmt (list store_avg_view)
(* SELECT s.id, s.name, COALESCE(AVG(r.rating), 0) AS avg_rating,
          COUNT(r.id) AS rating_count
     FROM stores s LEFT JOIN ratings r ON r.store_id = s.id
     WHERE s.owner_id = ? GROUP BY s.id *)
| SelectOwnerSummary (uid : Z) : stmt (list owner_store_view)
(* SELECT u.id, u.name, u.email, u.address, u.role, CASE ... END AS owner_rating
     FROM users u ORDER BY u.name ASC *)
| SelectUsers : stmt (list user_view).

Definition set_ratings (d : db) (rs : list rating_row) (seq : Z) : db :=
  {| users := users d; stores := stores d;
     ratings := rs; ratings_seq := seq;
     owner_requests := owner_requests d; requests_seq := requests_seq d |}.

Definition set_requests (d : db) (qs : list request_row) (seq : Z) : db :=
  {| users := users d; stores := stores d;
     ratings := ratings d; ratings_seq := ratings_seq d;
     owner_requests := qs; requests_seq := seq |}.

Definition set_users (d : db) (us : list user_row) : db :=
  {| users := us; stores := stores d;
     ratings := ratings d; ratings_seq := ratings_seq d;
     owner_requests := owner_requests d; requests_seq := requests_seq d |}.

Definition has_id (rid : param) (q : request_row) : bool :=
  bool_decide (PInt (q_id q) = rid).

Definition changed {A : Type} (p : A -> bool) (l : list A) : Z :=
  Z.of_nat (length (List.filter p l)).

(** One statement at clock reading [now] (the value of CURRENT_TIMESTAMP).
    A statement that fails leaves the database as it was. *)
Definition run_stmt {B : Type} (now : Z) (s : stmt B) (d : db)
  : sql_error + (B * db) :=
  match s in stmt T return sql_error + (T * db) with
  | SelectRatingId uid sid =>
      inr (r_id <$> List.find (rating_key uid sid) (ratings d), d)
  | UpdateRating v id =>
      let hit := fun r => bool_decide (r_id r = id) in
      if existsb hit (ratings d) then
        match rating_value v with
        | inl e => inl e
        | inr q =>
            inr (changed hit (ratings d),
                 set_ratings d
                   (map (fun r =>
                           if hit r
                           then mkRating (r_id r) (r_user r) (r_store r) q
                                  (r_created r) now
                           else r) (ratings d))
                   (ratings_seq d))
        end
      else inr (0, d)
  | InsertRating uid sid v =>
      match rating_value v with
      | inl e => inl e
      | inr q =>
          if existsb (rating_key uid sid) (ratings d)
          then inl (UniqueFailed "ratings.user_id, ratings.store_id")
          else if foreign_keys && negb (user_exists uid d && store_exists sid d)
          then inl ForeignKeyFailed
          else
            let id := next_rowid (ratings_seq d) (map r_id (ratings d)) in
            inr (id, set_ratings d
                       (ratings d ++ [mkRating id uid sid q now now]) id)
      end
  | SelectRating id =>
      inr (view_of <$> List.find (fun r => bool_decide (r_id r = id)) (ratings d), d)
  | SelectRequest rid =>
      inr (List.find (has_id rid) (owner_requests d), d)
  | SetRoleOwner uid =>
      let hit := fun u => bool_decide (u_id u = uid) in
      inr (changed hit (users d),
           set_users d
             (map (fun u =>
                     if hit u
                     then mkUser (u_id u) (u_name u) (u_email u) (u_address u) Owner
                     else u) (users d)))
  | SetApproved rid =>
      inr (changed (has_id rid) (owner_requests d),
           set_requests d
             (map (fun q =>
                     if has_id rid q
                     then mkRequest (q_id q) (q_user q) Approved (q_reason q)
                            (q_created q) now
                     else q) (owner_requests d))
             (requests_seq d))
  | SetRejected reason rid =>
      inr (changed (has_id rid) (owner_requests d),
           set_requests d
             (map (fun q =>
                     if has_id rid q
                     then mkRequest (q_id q) (q_user q) Rejected (Some reason)
                            (q_created q) now
                     else q) (owner_requests d))
             (requests_seq d))
  | SelectOpenRequest uid =>
      inr (List.find (fun q => bool_decide (q_user q = uid)
                               && (bool_decide (q_status q = Pending)
                                   || bool_decide (q_status q = Approved)))
             (owner_requests d), d)
  | SelectRequestOfUser uid =>
      inr (List.find (fun q => bool_decide (q_user q = uid)) (owner_requests d), d)
  | InsertRequest uid =>
      if existsb (fun q => bool_decide (q_user q = uid)) (owner_requests d)
      then inl (UniqueFailed "owner_requests.user_id")
      else if foreign_keys && negb (user_exists uid d)
      then inl ForeignKeyFailed
      else
        let id := next_rowid (requests_seq d) (map q_id (owner_requests d)) in
        inr (id, set_requests d
                   (owner_requests d ++ [mkRequest id uid Pending None now now]) id)
  | SelectOwnedStore sid uid =>
      inr (s_id <$> List.find (fun s => bool_decide (PInt (s_id s) = sid)
                                        && bool_decide (s_owner s = Some uid))
                      (stores d), d)
  | SelectRaters sid =>
      inr (order_by_updated_desc
             (flat_map (fun r =>
                          map (fun u => mkRater (u_id u) (u_name u) (u_email u)
                                          (u_address u) (r_rating r)
                                          (r_created r) (r_updated r))
                            (List.filter (fun u => bool_decide (u_id u = r_user r))
                               (users d)))
                (List.filter (fun r => bool_decide (r_store r = sid)) (ratings d))),
           d)
  | SelectStoresAvg =>
      (* one group per store: the ids are the primary key *)
      inr (order_by_name sa_name
             (map (fun s => mkStoreAvg (s_id s) (s_name s)
                              (avg_rating (group_of (s_id s) (left_join d))))
                (stores d)), d)
  | SelectOwnerSummary uid =>
      let rows := List.filter (owned_by uid) (left_join d) in
      inr (map (fun s => mkOwnerStore (s_id s) (s_name s)
                           (avg_rating (group_of (s_id s) rows))
                           (count_ids (group_of (s_id s) rows)))
             (List.filter (fun s => bool_decide (s_owner s = Some uid)) (stores d)),
           d)
  | SelectUsers =>
      inr (order_by_name uv_name
             (map (fun u => mkUserView (u_id u) (u_name u) (u_email u)
                              (u_address u) (u_role u) (owner_rating u d))
                (users d)), d)
  end.

(** ** Responses *)

Inductive body : Type :=
| Message (m : string)
| RatingJson (r : option rating_view)
| RequestJson (m : string) (r : option request_row)
| StatusJson (r : option request_row)
| RatersJson (l : list rater_view)
| StoresJson (l : list store_avg_view)
| OwnerStoresJson (l : list owner_store_view)
| UsersJson (l : list user_view).

(** [res.status(code).json(body)] *)
Record response : Type := mkResponse {
  code : Z;
  json : body
}.

Definition server_error : response := mkResponse 500 (Message "Server error").

(** ** Handlers as trees of awaited statements *)

Inductive prog : Type :=
| Respond (r : response)
| Await {B : Type} (s : stmt B) (k : B -> prog).

Notation "'let!' x ':=' s 'in' k" := (Await s (fun x => k))
  (at level 10, x name, s at level 100, k at level 200).
Notation "'do!' s 'in' k" := (Await s (fun _ => k))
  (at level 10, s at level 100, k at level 200).

(** One [await]: the statement runs, and either its result is passed on or
    the rejection lands in the handler's [catch]. *)
Definition step (now : Z) (p : prog) (d : db) : prog * db :=
  match p with
  | Respond r => (Respond r, d)
  | Await s k =>
      match run_stmt now s d with
      | inl _ => (Respond server_error, d)
      | inr (b, d') => (k b, d')
      end
  end.

(** A handler running alone, from its first statement to its response. *)
Fixpoint exec (now : Z) (p : prog) (d : db) : response * db :=
  match p with
  | Respond r => (r, d)
  | Await s k =>
      match run_stmt now s d with
      | inl _ => (server_error, d)
      | inr (b, d') => exec now (k b) d'
      end
  end.

(** ** Middleware *)

(** What [jwt.sign] put in the token at login: [{ id, role, name }]. *)
Record payload : Type := mkPayload {
  p_id : Z;
  p_role : role
}.

(** The [Authorization] header: absent or not a Bearer header, a token
    [jwt.verify] rejects, or a token it accepts with its payload. *)
Inductive credential : Type :=
| NoBearer
| BadToken
| Token (p : payload).

Definition authenticate (c : credential) (next : payload -> prog) : prog :=
  match c with
  | NoBearer => Respond (mkResponse 401 (Message "Missing token"))
  | BadToken => Respond (mkResponse 401 (Message "Invalid token"))
  | Token p => next p
  end.

Definition requireRole (roles : list role) (user : payload) (next : prog) : prog :=
  if negb (bool_decide (p_role user ∈ roles))
  then Respond (mkResponse 403 (Message "Forbidden"))
  else next.

(** ** Routes *)

(** [POST /api/stores/:storeId/rating] *)
Definition rating_handler (user : payload) (storeId : param) (rating : Js.value)
  : prog :=
  if Js.lt rating (Js.Num (1 # 1)) || Js.gt rating (Js.Num (5 # 1)) then
    Respond (mkResponse 400 (Message "Rating must be between 1 and 5"))
  else
    let! existing := SelectRatingId (p_id user) storeId in
    match existing with
    | Some id =>
        do! UpdateRating (Js.bind rating) id in
        let! updated := SelectRating id in
        Respond (mkResponse 200 (RatingJson updated))
    | None =>
        let! id := InsertRating (p_id user) storeId (Js.bind rating) in
        let! created := SelectRating id in
        Respond (mkResponse 201 (RatingJson created))
    end.

Definition submitRating (c : credential) (storeId : param) (rating : Js.value)
  : prog :=
  authenticate c (fun user => rating_handler user storeId rating).

(** [POST /api/admin/owner-requests/:requestId/approve] *)
Definition approve_handler (requestId : param) : prog :=
  let! request := SelectRequest requestId in
  match request with
  | None => Respond (mkResponse 404 (Message "Request not found"))
  | Some request =>
      if negb (bool_decide (q_status request = Pending)) then
        Respond (mkResponse 400 (Message "Request is not pending"))
      else
        do! SetRoleOwner (q_user request) in
        do! SetApproved requestId in
        let! updatedRequest := SelectRequest requestId in
        Respond (mkResponse 200 (RequestJson "Owner request approved" updatedRequest))
  end.

Definition approveOwnerRequest (c : credential) (requestId : param) : prog :=
  authenticate c (fun user => requireRole [Admin] user (approve_handler requestId)).

(** [reason || 'Request rejected by admin']: a missing or empty reason is
    falsy. *)
Definition reason_or_default (reason : option string) : string :=
  match reason with
  | None => "Request rejected by admin"
  | Some r => if bool_decide (r = EmptyString) then "Request rejected by admin" else r
  end.

(** [POST /api/admin/owner-requests/:requestId/reject] *)
Definition reject_handler (requestId : param) (reason : option string) : prog :=
  let! request := SelectRequest requestId in
  match request with
  | None => Respond (mkResponse 404 (Message "Request not found"))
  | Some request =>
      if negb (bool_decide (q_status request = Pending)) then
        Respond (mkResponse 400 (Message "Request is not pending"))
      else
        do! SetRejected (reason_or_default reason) requestId in
        let! updatedRequest := SelectRequest requestId in
        Respond (mkResponse 200 (RequestJson "Owner request rejected" updatedRequest))
  end.

Definition rejectOwnerRequest (c : credential) (requestId : param)
    (reason : option string) : prog :=
  authenticate c (fun user => requireRole [Admin] user (reject_handler requestId reason)).

(** [POST /api/user/request-owner] *)
Definition request_owner_handler (user : payload) : prog :=
  let! existingRequest := SelectOpenRequest (p_id user) in
  match existingRequest with
  | Some _ =>
      Respond (mkResponse 400
                 (Message "You already have a pending or approved owner request"))
  | None =>
      let! id := InsertRequest (p_id user) in
      let! request := SelectRequest (PInt id) in
      Respond (mkResponse 201 (RequestJson "Owner request submitted" request))
  end.

Definition requestOwnerUpgrade (c : credential) : prog :=
  authenticate c (fun user => requireRole [Normal] user (request_owner_handler user)).

(** [GET /api/user/owner-request-status] *)
Definition ownerRequestStatus (c : credential) : prog :=
  authenticate c (fun user => requireRole [Normal] user
    (let! request := SelectRequestOfUser (p_id user) in
     Respond (mkResponse 200 (StatusJson request)))).

(** [GET /api/owner/store-raters/:storeId] *)
Definition store_raters_handler (user : payload) (storeId : param) : prog :=
  let! ownerCheck := SelectOwnedStore storeId (p_id user) in
  match ownerCheck with
  | None => Respond (mkResponse 403 (Message "Not your store"))
  | Some _ =>
      let! raters := SelectRaters storeId in
      Respond (mkResponse 200 (RatersJson raters))
  end.

Definition storeRaters (c : credential) (storeId : param) : prog :=
  authenticate c (fun user => requireRole [Owner] user (store_raters_handler user storeId)).

(** [GET /api/admin/stores], [GET /api/owner/summary] and
    [GET /api/admin/users], called without query filters. *)
Definition adminStores (c : credential) : prog :=
  authenticate c (fun user => requireRole [Admin] user
    (let! stores := SelectStoresAvg in
     Respond (mkResponse 200 (StoresJson stores)))).

Definition ownerSummary (c : credential) : prog :=
  authenticate c (fun user => requireRole [Owner] user
    (let! storeRows := SelectOwnerSummary (p_id user) in
     Respond (mkResponse 200 (OwnerStoresJson storeRows)))).

Definition adminUsers (c : credential) : prog :=
  authenticate c (fun user => requireRole [Admin] user
    (let! users := SelectUsers in
     Respond (mkResponse 200 (UsersJson users)))).

(** ** Requests and runs *)

Inductive request : Type :=
| PostRating (c : credential) (storeId : param) (rating : Js.value)
| PostApprove (c : credential) (requestId : param)
| PostReject (c : credential) (requestId : param) (reason : option string)
| PostRequestOwner (c : credential)
| GetRequestStatus (c : credential)
| GetStoreRaters (c : credential) (storeId : param)
| GetAdminStores (c : credential)
| GetOwnerSummary (c : credential)
| GetAdminUsers (c : credential).

Definition route (r : request) : prog :=
  match r with
  | PostRating c storeId rating => submitRating c storeId rating
  | PostApprove c requestId => approveOwnerRequest c requestId
  | PostReject c requestId reason => rejectOwnerRequest c requestId reason
  | PostRequestOwner c => requestOwnerUpgrade c
  | GetRequestStatus c => ownerRequestStatus c
  | GetStoreRaters c storeId => storeRaters c storeId
  | GetAdminStores c => adminStores c
  | GetOwnerSummary c => ownerSummary c
  | GetAdminUsers c => adminUsers c
  end.

(** Requests served one after the other; each comes with the clock reading
    at which it is served. *)
Fixpoint serve (calls : list (request * Z)) (d : db) : db :=
  match calls with
  | [] => d
  | (r, now) :: calls' => serve calls' (snd (exec now (route r) d))
  end.

(** Two requests in flight.  Node runs one handler until its next [await]
    and may then resume either of them; a schedule lists whose turn it is
    and the clock reading of that turn. *)
Inductive turn : Type := First | Second.

Record flight : Type := mkFlight {
  first : prog;
  second : prog;
  store : db
}.

Definition turn_step (t : turn) (now : Z) (f : flight) : flight :=
  match t with
  | First =>
      let (p, d) := step now (first f) (store f) in mkFlight p (second f) d
  | Second =>
      let (p, d) := step now (second f) (store f) in mkFlight (first f) p d
  end.

Fixpoint run_sched (sched : list (turn * Z)) (f : flight) : flight :=
  match sched with
  | [] => f
  | (t, now) :: sched' => run_sched sched' (turn_step t now f)
  end.

(** The response of a handler that has finished. *)
Definition answered (p : prog) : option response :=
  match p with
  | Respond r => Some r
  | Await _ _ => None
  end.

(** ** The vocabulary of the specification *)

(** A rating value in range: [1 <= value <= 5]. *)
Definition in_range (q : Q) : Prop := (1 # 1 <= q)%Q /\ (q <= 5 # 1)%Q.

(** The Rating of a (user, store) pair, and how many there are. *)
Definition lookup_rating (uid : Z) (sid : param) (d : db) : option rating_row :=
  List.find (rating_key uid sid) (ratings d).

Definition rating_count (uid : Z) (sid : param) (d : db) : nat :=
  length (List.filter (rating_key uid sid) (ratings d)).

Definition ratings_unique (d : db) : Prop :=
  forall uid sid, (rating_count uid sid d <= 1)%nat.

(** The OwnerRequest a [:requestId] designates. *)
Definition lookup_request (rid : param) (d : db) : option request_row :=
  List.find (has_id rid) (owner_requests d).

(** The typed results of the specification, as the responses that carry
    them. *)
Definition ValidationError : response :=
  mkResponse 400 (Message "Rating must be between 1 and 5").
Definition NotPendingError : response :=
  mkResponse 400 (Message "Request is not pending").
Definition ConflictError : response :=
  mkResponse 400 (Message "You already have a pending or approved owner request").
Definition created (r : response) : Prop := code r = 201.
Definition updated (r : response) : Prop := code r = 200.
Definition Forbidden (r : response) : Prop := code r = 403.
Definition NotFoundError (r : response) : Prop := code r = 404.

(** The mean of the specification: the sum over the count. *)
Definition mean (l : list Q) : Q :=
  (fold_right Qplus (0 # 1) l / inject_Z (Z.of_nat (length l)))%Q.

(** [Rating.value over storeId]: the values of the Ratings of a store. *)
Definition store_values (sid : Z) (d : db) : list Q :=
  map r_rating (List.filter (fun r => bool_decide (r_store r = PInt sid)) (ratings d)).

(** [Rating.value over all stores owned by that user]: the values of the
    Ratings whose store has the user as owner. *)
Definition rates_store_of (uid : Z) (d : db) (r : rating_row) : bool :=
  existsb (fun s => bool_decide (s_owner s = Some uid)
                    && bool_decide (r_store r = PInt (s_id s))) (stores d).

Definition owner_values (uid : Z) (d : db) : list Q :=
  map r_rating (List.filter (rates_store_of uid d) (ratings d)).

(** [id INTEGER PRIMARY KEY] of [stores]: no two stores share an id. *)
Definition stores_pk (d : db) : Prop := List.NoDup (map s_id (stores d)).

(** The mean as a response can carry it: the number 0 over no value, and
    otherwise the mean rounded to the nearest double. *)
Definition rounded_mean (vs : list Q) : Q :=
  match vs with
  | [] => (0 # 1)%Q
  | _ => double (mean vs)
  end.

Definition sum_of (l : list Q) : Q := fold_right Qplus (0 # 1)%Q l.

(** A multiple of [2^-k], and [2^52] of these units. *)
Definition gridpt (k : Z) (x : Q) : Prop :=
  exists u, (x == inject_Z u * pow2 (- k))%Q.

Definition grid_bound (k : Z) : Q := (inject_Z (2 ^ 52) * pow2 (- k))%Q.

(** Values whose sums are doubles in whatever order they are added: all of
    them are multiples of [2^-k], there are fewer than [2^52] of them, and
    their magnitudes add up to less than [2^52] of these units.  Whole
    ratings, as the documentation asks for, are on the grid of [k = 0];
    halves such as 3.5 are on the grid of [k = 1]. *)
Definition on_grid (k : Z) (vs : list Q) : bool :=
  (0 <=? k) && (k <=? 1074) && (Z.of_nat (length vs) <? 2 ^ 52)
  && forallb (fun v => whole (v * pow2 k)) vs
  && Js.Qlt_bool (sum_of (map Qabs vs)) (grid_bound k).

(** A request that has left [pending]. *)
Definition decided (rid : param) (d : db) : Prop :=
  exists q, lookup_request rid d = Some q /\ q_status q <> Pending.

(** ** Two rating calls in flight *)

(** The rowid the lookup of the rating route finds for the pair. *)
Definition lookup_id (uid : Z) (sid : param) (d : db) : option Z :=
  r_id <$> lookup_rating uid sid d.

(** The value a statement writes into [ratings.rating] in database [d], when
    it writes one: the bound value of an INSERT, and of an UPDATE that has a
    row to change. *)
Definition written {B : Type} (s : stmt B) (d : db) : option Q :=
  match s with
  | UpdateRating v id =>
      if existsb (fun r => bool_decide (r_id r = id)) (ratings d) then v else None
  | InsertRating _ _ v => v
  | _ => None
  end.

(** The rating write the next step of a handler commits, if it commits. *)
Definition commits (now : Z) (p : prog) (d : db) : option Q :=
  match p with
  | Respond _ => None
  | Await s _ =>
      match run_stmt now s d with
      | inl _ => None
      | inr _ => written s d
      end
  end.

Definition bump (c last : option Q) : option Q :=
  match c with
  | Some q => Some q
  | None => last
  end.

Definition pick (t : turn) (f : flight) : prog :=
  match t with
  | First => first f
  | Second => second f
  end.

(** The value of the rating write committed last along a schedule; [last] is
    the one committed before the schedule starts, if any. *)
Fixpoint last_commit (sched : list (turn * Z)) (f : flight) (last : option Q)
  : option Q :=
  match sched with
  | [] => last
  | (t, now) :: sched' =>
      last_commit sched' (turn_step t now f)
        (bump (commits now (pick t f) (store f)) last)
  end.

(** How many turns of a schedule go to one of the two handlers. *)
Definition turns (t : turn) (sched : list (turn * Z)) : nat :=
  length (List.filter (fun x => match fst x, t with
                                | First, First | Second, Second => true
                                | _, _ => false
                                end) sched).

(** Two handlers one after the other: the responses and the database left. *)
Definition serial (pA pB : prog) (tA tB : Z) (d : db) : response * response * db :=
  let (rA, d1) := exec tA pA d in
  let (rB, d2) := exec tB pB d1 in
  (rA, rB, d2).

(** Atomicity of two handlers: under every interleaving that lets both
    answer, the two responses and the database are those of running the
    handlers one after the other, in one of the two orders. *)
Definition atomic (pA pB : prog) (d : db) : Prop :=
  forall sched rA rB,
    let f := run_sched sched (mkFlight pA pB d) in
    answered (first f) = Some rA ->
    answered (second f) = Some rB ->
    exists tA tB,
      (rA, rB, store f) = serial pA pB tA tB d \/
      (rB, rA, store f) = serial pB pA tB tA d.

(** The points a rating call can be at, between two awaits: what the rating
    route still has to run after the lookup found a row, after it found
    none, and after the write. *)
Definition after_found (id : Z) (v : option Q) : prog :=
  do! UpdateRating v id in
  let! updated := SelectRating id in
  Respond (mkResponse 200 (RatingJson updated)).

Definition after_missing (uid : Z) (sid : param) (v : option Q) : prog :=
  let! id := InsertRating uid sid v in
  let! created := SelectRating id in
  Respond (mkResponse 201 (RatingJson created)).

Definition reread (id : Z) (c : Z) : prog :=
  let! row := SelectRating id in
  Respond (mkResponse c (RatingJson row)).

(** A rating call of [user] for [sid] with value [q], with at most [n]
    awaits left, in a database [d] whose last committed rating write along
    the schedule so far is [last]. *)
Inductive stage (user : payload) (sid : param) (q : Q) (d : db) (last : option Q)
  : nat -> prog -> Prop :=
| at_start :
    stage user sid q d last 3 (rating_handler user sid (Js.Num q))
| at_update id :
    lookup_id (p_id user) sid d = Some id ->
    stage user sid q d last 2 (after_found id (Some q))
| at_insert :
    (lookup_id (p_id user) sid d <> None -> last <> None) ->
    stage user sid q d last 2 (after_missing (p_id user) sid (Some q))
| at_reread id c :
    lookup_id (p_id user) sid d <> None -> last <> None ->
    stage user sid q d last 1 (reread id c)
| at_done r :
    lookup_id (p_id user) sid d <> None -> last <> None ->
    stage user sid q d last 0 (Respond r).

(** The Rating of the pair carries the value written last. *)
Definition agrees (uid : Z) (sid : param) (d : db) (last : option Q) : Prop :=
  match last with
  | Some q => exists row, lookup_rating uid sid d = Some row /\ r_rating row = q
  | None => True
  end.

(** What one step of either call may do to the database and to the last
    write, as the other call sees it. *)
Definition advance (uid : Z) (sid : param) (d : db) (last : option Q)
    (d' : db) (last' : option Q) : Prop :=
  (forall id, lookup_id uid sid d = Some id -> lookup_id uid sid d' = Some id) /\
  ((d' = d /\ last' = last) \/ last' <> None).

(** Two rating calls of [user] for [sid], with values [qA] and [qB], at
    their stages in the database of the flight. *)
Definition in_flight (user : payload) (sid : param) (qA qB : Q) (f : flight)
    (last : option Q) (nA nB : nat) : Prop :=
  stage user sid qA (store f) last nA (first f) /\
  stage user sid qB (store f) last nB (second f) /\
  agrees (p_id user) sid (store f) last.

(** ** Regular expressions of the validators *)

(** JavaScript strings are sequences of UTF-16 code units; a regular
    expression without the [u] flag reads them unit by unit.  The constructs
    are those the validators use: a class of code units, sequence, the
    quantifiers [*], [+], [{m,n}], and a lookahead at the start of the input.
    [test] and [lookahead] decide a match by derivatives; [lang] says what a
    match is. *)
Module Re.

Inductive re : Type :=
| Void
| Eps
| Cls (p : N -> bool)
| Seq (a b : re)
| Alt (a b : re)
| Star (a : re).

(** [a+] *)
Definition Plus (a : re) : re := Seq a (Star a).

(** [a{n}] *)
Fixpoint Rep (n : nat) (a : re) : re :=
  match n with
  | O => Eps
  | S n' => Seq a (Rep n' a)
  end.

(** [a{0,n}] *)
Fixpoint UpTo (n : nat) (a : re) : re :=
  match n with
  | O => Eps
  | S n' => Alt Eps (Seq a (UpTo n' a))
  end.

(** [a{m,n}] *)
Definition Range (m n : nat) (a : re) : re := Seq (Rep m a) (UpTo (n - m) a).

(** The strings an expression matches, from its first unit to its last. *)
Inductive lang : re -> list N -> Prop :=
| lang_eps : lang Eps []
| lang_cls p c : p c = true -> lang (Cls p) [c]
| lang_seq a b s t : lang a s -> lang b t -> lang (Seq a b) (s ++ t)
| lang_alt_l a b s : lang a s -> lang (Alt a b) s
| lang_alt_r a b s : lang b s -> lang (Alt a b) s
| lang_star_nil a : lang (Star a) []
| lang_star_cons a s t : lang a s -> lang (Star a) t -> lang (Star a) (s ++ t).

Fixpoint nullable (r : re) : bool :=
  match r with
  | Void => false
  | Eps => true
  | Cls _ => false
  | Seq a b => nullable a && nullable b
  | Alt a b => nullable a || nullable b
  | Star _ => true
  end.

(** What is left of [r] to match after reading the unit [c]. *)
Fixpoint deriv (c : N) (r : re) : re :=
  match r with
  | Void => Void
  | Eps => Void
  | Cls p => if p c then Eps else Void
  | Seq a b =>
      if nullable a
      then Alt (Seq (deriv c a) b) (deriv c b)
      else Seq (deriv c a) b
  | Alt a b => Alt (deriv c a) (deriv c b)
  | Star a => Seq (deriv c a) (Star a)
  end.

(** [/^r$/.test(s)] *)
Fixpoint test (r : re) (s : list N) : bool :=
  match s with
  | [] => nullable r
  | c :: s' => test (deriv c r) s'
  end.

(** [(?=r)] at the start of [s]: some prefix of [s] matches [r]. *)
Fixpoint lookahead (r : re) (s : list N) : bool :=
  nullable r ||
  match s with
  | [] => false
  | c :: s' => lookahead (deriv c r) s'
  end.

End Re.

(** The code units of a string of the model: one unit per character. *)
Definition codes (s : string) : list N :=
  map Ascii.N_of_ascii (String.list_ascii_of_string s).

(** ** Validation functions *)

(** [\s]: white space and line terminators. *)
Definition is_space (c : N) : bool :=
  ((9 <=? c) && (c <=? 13) || (c =? 32) || (c =? 160) || (c =? 5760)
   || (8192 <=? c) && (c <=? 8202) || (c =? 8232) || (c =? 8233)
   || (c =? 8239) || (c =? 8287) || (c =? 12288) || (c =? 65279))%N.

(** [[^\s@]] *)
Definition email_atom (c : N) : bool := negb (is_space c) && negb (c =? 64)%N.

(** [.]: any unit but a line terminator. *)
Definition dot (c : N) : bool :=
  negb ((c =? 10) || (c =? 13) || (c =? 8232) || (c =? 8233))%N.

(** [[A-Z]] *)
Definition upper (c : N) : bool := ((65 <=? c) && (c <=? 90))%N.

(** The units of the class of special characters of the password rule:
    ! @ # $ % ^ & * ( ) _ + - = [ ] { } ; ' : the double quote, \ | , . < > /
    and ?. *)
Definition specials : list N :=
  [33; 64; 35; 36; 37; 94; 38; 42; 40; 41; 95; 43; 45; 61; 91; 93; 123; 125;
   59; 39; 58; 34; 92; 124; 44; 46; 60; 62; 47; 63]%N.

Definition special (c : N) : bool := existsb (N.eqb c) specials.

(** [/^[^\s@]+@[^\s@]+\.[^\s@]+$/] *)
Definition emailRegex : Re.re :=
  Re.Seq (Re.Plus (Re.Cls email_atom))
    (Re.Seq (Re.Cls (N.eqb 64))
       (Re.Seq (Re.Plus (Re.Cls email_atom))
          (Re.Seq (Re.Cls (N.eqb 46)) (Re.Plus (Re.Cls email_atom))))).

Definition validateEmail (email : string) : bool :=
  Re.test emailRegex (codes email).

(** [name && name.length >= 20 && name.length <= 60] *)
Definition validateName (name : string) : bool :=
  negb (bool_decide (name = EmptyString))
  && (20 <=? String.length name)%nat && (String.length name <=? 60)%nat.

(** [!address || address.length <= 400] *)
Definition validateAddress (address : string) : bool :=
  bool_decide (address = EmptyString) || (String.length address <=? 400)%nat.

(** [/^(?=.*[A-Z])(?=.*[!@#$...]).{8,16}$/]: the two lookaheads are tried
    at the start of the input, then the body has to match all of it. *)
Definition passwordRegex_upper : Re.re :=
  Re.Seq (Re.Star (Re.Cls dot)) (Re.Cls upper).

Definition passwordRegex_special : Re.re :=
  Re.Seq (Re.Star (Re.Cls dot)) (Re.Cls special).

Definition passwordRegex_body : Re.re := Re.Range 8 16 (Re.Cls dot).

Definition validatePassword (password : string) : bool :=
  Re.lookahead passwordRegex_upper (codes password)
  && Re.lookahead passwordRegex_special (codes password)
  && Re.test passwordRegex_body (codes password).

(** A field of [req.body] that holds text: [None] when the field is absent.
    Absent and empty are the falsy cases. *)
Definition truthy (x : option string) : bool :=
  match x with
  | Some s => negb (bool_decide (s = EmptyString))
  | None => false
  end.

Definition text (x : option string) : string :=
  match x with
  | Some s => s
  | None => EmptyString
  end.

Definition validateFormData (name email password address : option string)
  : list string :=
  (if negb (truthy name) then ["Name is required"]
   else if negb (validateName (text name))
        then ["Name must be between 20 and 60 characters"] else [])
  ++ (if negb (truthy email) then ["Email is required"]
      else if negb (validateEmail (text email)) then ["Email must be valid"] else [])
  ++ (if negb (truthy password) then ["Password is required"]
      else if negb (validatePassword (text password))
           then ["Password must be 8-16 characters, include at least one uppercase letter and one special character"]
           else [])
  ++ (if truthy address && negb (validateAddress (text address))
      then ["Address must not exceed 400 characters"] else []).

(** ** Routes that write at most once *)

(** The routes below are studied one request at a time, so they are written
    as functions of the database: a statement is a [Sql], the statements of
    a handler are chained with [let*], and the handler's [catch] turns a
    rejected statement into a response.  Each of these routes writes at
    most once, so a rejected statement leaves the database as the route
    found it. *)
Definition Sql (A : Type) : Type := db -> sql_error + (A * db).

Definition sql_ret {A : Type} (a : A) : Sql A := fun d => inr (a, d).

Definition sql_bind {A B : Type} (m : Sql A) (k : A -> Sql B) : Sql B :=
  fun d =>
    match m d with
    | inl e => inl e
    | inr (a, d') => k a d'
    end.

Notation "'let*' x ':=' m 'in' k" := (sql_bind m (fun x => k))
  (at level 10, x name, m at level 100, k at level 200).

(** A row of the two owner-request listings: the request joined with its
    user. *)
Record request_view : Type := mkRequestView {
  qv_id : Z;
  qv_user : Z;
  qv_name : string;
  qv_email : string;
  qv_address : string;
  qv_status : status;
  qv_reason : option string;
  qv_created : Z;
  qv_updated : Z
}.

(** A row of [GET /api/stores]: the store, its average and the caller's own
    rating, NULL ([None]) when the caller has not rated it. *)
Record store_view : Type := mkStoreView {
  sv_id : Z;
  sv_name : string;
  sv_avg_rating : Q;
  sv_user_rating : option Q
}.

Inductive reply_body : Type :=
| Info (message : string)
| Failed (message : string) (errors : list string)
| UserJson (u : option user_row)
| StoreJson (s : option store_row)
| CountsJson (user_count store_count rating_count : Z)
| RequestsJson (l : list request_view)
| StoreListJson (l : list store_view).

Record reply : Type := mkReply {
  reply_code : Z;
  reply_json : reply_body
}.

(** [authenticate] and [requireRole], for a route that answers a [reply]. *)
Definition authenticated (c : credential) : reply + payload :=
  match c with
  | NoBearer => inl (mkReply 401 (Info "Missing token"))
  | BadToken => inl (mkReply 401 (Info "Invalid token"))
  | Token p => inr p
  end.

Definition gated (roles : list role) (c : credential)
    (next : payload -> db -> reply * db) (d : db) : reply * db :=
  match authenticated c with
  | inl r => (r, d)
  | inr user =>
      if negb (bool_decide (p_role user ∈ roles))
      then (mkReply 403 (Info "Forbidden"), d)
      else next user d
  end.

(** The [catch] of most routes: whatever the error, 500. *)
Definition catching (m : Sql reply) (d : db) : reply * db :=
  match m d with
  | inl _ => (mkReply 500 (Info "Server error"), d)
  | inr (r, d') => (r, d')
  end.

(** The [catch] of the two routes that insert a user:
    [err.message.includes('UNIQUE constraint failed')] answers 400. *)
Definition catching_unique (m : Sql reply) (d : db) : reply * db :=
  match m d with
  | inl (UniqueFailed _) => (mkReply 400 (Info "Email already registered"), d)
  | inl _ => (mkReply 500 (Info "Server error"), d)
  | inr (r, d') => (r, d')
  end.

(** [INSERT INTO users (name, email, address, password_hash, role)
     VALUES (?, ?, ?, ?, ?)], with [email] UNIQUE.  No statement of the
    server deletes a row, so the AUTOINCREMENT counter of [users] and of
    [stores] is the largest id of the table. *)
Definition insert_user (name email address : string) (r : role) : Sql Z :=
  fun d =>
    if existsb (fun u => bool_decide (u_email u = email)) (users d)
    then inl (UniqueFailed "users.email")
    else
      let id := next_rowid 0 (map u_id (users d)) in
      inr (id, set_users d (users d ++ [mkUser id name email address r])).

(** [SELECT id, name, email, address, role FROM users WHERE id = ?] *)
Definition select_user (id : Z) : Sql (option user_row) :=
  fun d => inr (List.find (fun u => bool_decide (u_id u = id)) (users d), d).

Definition set_stores (d : db) (ss : list store_row) : db :=
  {| users := users d; stores := ss;
     ratings := ratings d; ratings_seq := ratings_seq d;
     owner_requests := owner_requests d; requests_seq := requests_seq d |}.

(** [INSERT INTO stores (name, email, address, owner_id) VALUES (?, ?, ?, ?)];
    [name] is NOT NULL, and the FOREIGN KEY on [owner_id] is checked only
    under the pragma. *)
Definition insert_store (name : option string) (owner : option Z) : Sql Z :=
  fun d =>
    match name with
    | None => inl (NotNullFailed "stores.name")
    | Some name =>
        if foreign_keys
           && match owner with Some o => negb (user_exists o d) | None => false end
        then inl ForeignKeyFailed
        else
          let id := next_rowid 0 (map s_id (stores d)) in
          inr (id, set_stores d (stores d ++ [mkStore id name owner]))
    end.

(** [SELECT id, name, email, address, owner_id FROM stores WHERE id = ?] *)
Definition select_store (id : Z) : Sql (option store_row) :=
  fun d => inr (List.find (fun s => bool_decide (s_id s = id)) (stores d), d).

(** [SELECT COUNT( * ) AS count FROM ...] *)
Definition count_rows {A : Type} (table : db -> list A) : Sql Z :=
  fun d => inr (Z.of_nat (length (table d)), d).

(** [ORDER BY created_at], ascending or descending; rows of equal
    [created_at] stay in the order of the scan. *)
Fixpoint insert_created (desc : bool) (x : request_view) (l : list request_view)
  : list request_view :=
  match l with
  | [] => [x]
  | y :: l' =>
      if (if desc then qv_created y <=? qv_created x
          else qv_created x <=? qv_created y)
      then x :: l
      else y :: insert_created desc x l'
  end.

Definition order_by_created (desc : bool) (l : list request_view)
  : list request_view :=
  fold_right (insert_created desc) [] l.

(** [owner_requests r JOIN users u ON u.id = r.user_id] *)
Definition requests_with_users (d : db) : list request_view :=
  flat_map (fun q =>
              map (fun u => mkRequestView (q_id q) (q_user q) (u_name u) (u_email u)
                              (u_address u) (q_status q) (q_reason q)
                              (q_created q) (q_updated q))
                (List.filter (fun u => bool_decide (u_id u = q_user q)) (users d)))
    (owner_requests d).

(** [... WHERE r.status = 'pending' ORDER BY r.created_at ASC] *)
Definition select_pending_requests : Sql (list request_view) :=
  fun d =>
    inr (order_by_created false
           (List.filter (fun v => bool_decide (qv_status v = Pending))
              (requests_with_users d)), d).

Definition status_text (s : status) : string :=
  match s with
  | Pending => "pending"
  | Approved => "approved"
  | Rejected => "rejected"
  end.

(** [... WHERE r.status = ? ORDER BY r.created_at DESC]; the WHERE clause
    is there when [req.query.status] is truthy. *)
Definition select_requests (filter : option string) : Sql (list request_view) :=
  fun d =>
    inr (order_by_created true
           (if truthy filter
            then List.filter (fun v => bool_decide (status_text (qv_status v) = text filter))
                   (requests_with_users d)
            else requests_with_users d), d).

(** [SELECT s.id, s.name, s.address, COALESCE(AVG(r.rating), 0) AS avg_rating,
            (SELECT rating FROM ratings ur
             WHERE ur.store_id = s.id AND ur.user_id = ?) AS user_rating
     FROM stores s LEFT JOIN ratings r ON r.store_id = s.id
     GROUP BY s.id ORDER BY s.name ASC] *)
Definition select_stores_for (uid : Z) : Sql (list store_view) :=
  fun d =>
    inr (order_by_name sv_name
           (map (fun s => mkStoreView (s_id s) (s_name s)
                            (avg_rating (group_of (s_id s) (left_join d)))
                            (r_rating <$> lookup_rating uid (PInt (s_id s)) d))
              (stores d)), d).

(** [req.body] of the routes that insert a user. *)
Record user_form : Type := mkUserForm {
  f_name : option string;
  f_email : option string;
  f_address : option string;
  f_password : option string;
  f_role : option string
}.

(** [POST /api/auth/signup].  The bcrypt hash goes into [password_hash],
    which the model leaves out. *)
Definition signup (body : user_form) (d : db) : reply * db :=
  let validationErrors :=
    validateFormData (f_name body) (f_email body) (f_password body) (f_address body) in
  if (0 <? length validationErrors)%nat
  then (mkReply 400 (Failed "Validation failed" validationErrors), d)
  else
    catching_unique
      (let* id := insert_user (text (f_name body)) (text (f_email body))
                    (text (f_address body)) Normal in
       let* created := select_user id in
       sql_ret (mkReply 201 (UserJson created))) d.

(** [['admin', 'normal', 'owner'].includes(role)] *)
Definition role_of_text (r : option string) : option role :=
  match r with
  | Some r =>
      if bool_decide (r = "admin") then Some Admin
      else if bool_decide (r = "normal") then Some Normal
      else if bool_decide (r = "owner") then Some Owner
      else None
  | None => None
  end.

(** [POST /api/admin/users] *)
Definition createUser (c : credential) (body : user_form) : db -> reply * db :=
  gated [Admin] c (fun _ d =>
    match role_of_text (f_role body) with
    | None => (mkReply 400 (Info "Invalid role"), d)
    | Some role =>
        let validationErrors :=
          validateFormData (f_name body) (f_email body) (f_password body)
            (f_address body) in
        if (0 <? length validationErrors)%nat
        then (mkReply 400 (Failed "Validation failed" validationErrors), d)
        else
          catching_unique
            (let* id := insert_user (text (f_name body)) (text (f_email body))
                          (text (f_address body)) role in
             let* created := select_user id in
             sql_ret (mkReply 201 (UserJson created))) d
    end).

(** [owner_id || null]: 0 is falsy. *)
Definition owner_or_null (owner_id : option Z) : option Z :=
  match owner_id with
  | Some o => if o =? 0 then None else Some o
  | None => None
  end.

(** [POST /api/admin/stores]; [name] is bound as it comes. *)
Definition createStore (c : credential) (name : option string) (owner_id : option Z)
  : db -> reply * db :=
  gated [Admin] c (fun _ =>
    catching
      (let* id := insert_store name (owner_or_null owner_id) in
       let* created := select_store id in
       sql_ret (mkReply 201 (StoreJson created)))).

(** [GET /api/admin/summary] *)
Definition adminSummary (c : credential) : db -> reply * db :=
  gated [Admin] c (fun _ =>
    catching
      (let* user_count := count_rows users in
       let* store_count := count_rows stores in
       let* rating_count := count_rows ratings in
       sql_ret (mkReply 200 (CountsJson user_count store_count rating_count)))).

(** [GET /api/admin/owner-requests] *)
Definition pendingOwnerRequests (c : credential) : db -> reply * db :=
  gated [Admin] c (fun _ =>
    catching
      (let* requests := select_pending_requests in
       sql_ret (mkReply 200 (RequestsJson requests)))).

(** [GET /api/admin/owner-requests/all] *)
Definition allOwnerRequests (c : credential) (status : option string)
  : db -> reply * db :=
  gated [Admin] c (fun _ =>
    catching
      (let* requests := select_requests status in
       sql_ret (mkReply 200 (RequestsJson requests)))).

(** [GET /api/stores], called without query filters; any role. *)
Definition listStores (c : credential) (d : db) : reply * db :=
  match authenticated c with
  | inl r => (r, d)
  | inr user =>
      catching
        (let* stores := select_stores_for (p_id user) in
         sql_ret (mkReply 200 (StoreListJson stores))) d
  end.

(** The seeding step of [initDb], once the tables exist:
    [SELECT id FROM users WHERE role = 'admin' LIMIT 1], and the INSERT of
    the default administrator when there is none.  [None] is the INSERT
    rejected, which makes the server exit. *)
Definition seedAdmin (d : db) : option db :=
  match List.find (fun u => bool_decide (u_role u = Admin)) (users d) with
  | Some _ => Some d
  | None =>
      match insert_user "Default System Admin" "admin@example.com"
              "Admin Address" Admin d with
      | inl _ => None
      | inr (_, d') => Some d'
      end
  end.

(** ** Vocabulary of the further properties *)

(** The GET routes among the requests. *)
Definition reads_only (r : request) : bool :=
  match r with
  | GetRequestStatus _ | GetStoreRaters _ _ | GetAdminStores _
  | GetOwnerSummary _ | GetAdminUsers _ => true
  | PostRating _ _ _ | PostApprove _ _ | PostReject _ _ _ | PostRequestOwner _ => false
  end.

(** An approve that carries a token whose role is admin. *)
Definition admin_approve (r : request) : bool :=
  match r with
  | PostApprove (Token p) _ => bool_decide (p_role p = Admin)
  | _ => false
  end.

(** A request to any route of the model: one of the nine routes of
    [route], with the clock reading at which it is served, or one of the
    routes that write at most once.  The routes of the server that are left
    out write no column the model holds: login and the health check write
    nothing, and change-password writes [password_hash]. *)
Inductive call : Type :=
| Routed (r : request) (now : Z)
| PostSignup (body : user_form)
| PostAdminUser (c : credential) (body : user_form)
| PostAdminStore (c : credential) (name : option string) (owner_id : option Z)
| GetAdminSummary (c : credential)
| GetPendingRequests (c : credential)
| GetAllRequests (c : credential) (status : option string)
| GetStores (c : credential).

(** The database a call leaves. *)
Definition after_call (x : call) (d : db) : db :=
  match x with
  | Routed r now => snd (exec now (route r) d)
  | PostSignup body => snd (signup body d)
  | PostAdminUser c body => snd (createUser c body d)
  | PostAdminStore c name owner_id => snd (createStore c name owner_id d)
  | GetAdminSummary c => snd (adminSummary c d)
  | GetPendingRequests c => snd (pendingOwnerRequests c d)
  | GetAllRequests c status => snd (allOwnerRequests c status d)
  | GetStores c => snd (listStores c d)
  end.

(** Calls served one after the other. *)
Definition after_calls (calls : list call) (d : db) : db :=
  fold_left (fun d x => after_call x d) calls d.

(** The calls that can write the users table: an approve with an
    administrator's token, a signup, and a user creation with an
    administrator's token, which makes an administrator when it names that
    role. *)
Definition approves (x : call) : bool :=
  match x with
  | Routed r _ => admin_approve r
  | _ => false
  end.

Definition adds_user (x : call) : bool :=
  match x with
  | PostSignup _ => true
  | PostAdminUser (Token p) _ => bool_decide (p_role p = Admin)
  | _ => false
  end.

Definition adds_admin (x : call) : bool :=
  match x with
  | PostAdminUser (Token p) body =>
      bool_decide (p_role p = Admin)
      && bool_decide (role_of_text (f_role body) = Some Admin)
  | _ => false
  end.

(** One user row before and after: the same but for a role that may have
    become owner. *)
Definition same_user_or_owner (u u' : user_row) : Prop :=
  u_id u' = u_id u /\ u_name u' = u_name u /\ u_email u' = u_email u /\
  u_address u' = u_address u /\ (u_role u' = u_role u \/ u_role u' = Owner).

(** The keys of the schema: the rowids of [ratings] and [owner_requests],
    and UNIQUE (user_id) of [owner_requests]. *)
Definition keys_ok (d : db) : Prop :=
  List.NoDup (map r_id (ratings d)) /\
  List.NoDup (map q_id (owner_requests d)) /\
  List.NoDup (map q_user (owner_requests d)).

(** UNIQUE of [users.email]. *)
Definition emails_unique (d : db) : Prop := List.NoDup (map u_email (users d)).

(** Most recent first, and oldest first. *)
Definition newest_first (l : list rater_view) : Prop :=
  StronglySorted (fun a b => rt_updated b <= rt_updated a) l.

Definition oldest_first (l : list request_view) : Prop :=
  StronglySorted (fun a b => qv_created a <= qv_created b) l.

Definition latest_first (l : list request_view) : Prop :=
  StronglySorted (fun a b => qv_created b <= qv_created a) l.

(** The credential a request carries, and the roles its route names in
    [requireRole]; the rating route names none and lets every role in. *)
Definition credential_of (r : request) : credential :=
  match r with
  | PostRating c _ _ | PostApprove c _ | PostReject c _ _ | PostRequestOwner c
  | GetRequestStatus c | GetStoreRaters c _ | GetAdminStores c
  | GetOwnerSummary c | GetAdminUsers c => c
  end.

Definition allowed_roles (r : request) : list role :=
  match r with
  | PostRating _ _ _ => [Admin; Normal; Owner]
  | PostApprove _ _ | PostReject _ _ _ | GetAdminStores _ | GetAdminUsers _ => [Admin]
  | PostRequestOwner _ | GetRequestStatus _ => [Normal]
  | GetStoreRaters _ _ | GetOwnerSummary _ => [Owner]
  end.

(** * Properties *)

(** ** Numbers and lists *)

Lemma in_range_check q : in_range q -> rating_check q = true.
Proof.
  intros [H1 H5]. unfold rating_check.
  apply andb_true_iff; split; apply Qle_bool_iff; assumption.
Qed.

Lemma in_range_guard q :
  in_range q ->
  Js.lt (Js.Num q) (Js.Num (1 # 1)) || Js.gt (Js.Num q) (Js.Num (5 # 1)) = false.
Proof.
  intros [H1 H5]. unfold Js.gt, Js.lt, Js.Qlt_bool; simpl.
  apply (proj2 (Qle_bool_iff _ _)) in H1, H5. rewrite H1, H5. reflexivity.
Qed.

Lemma fold_max_in seq ids i : In i ids -> i <= fold_right Z.max seq ids.
Proof.
  induction ids as [|j ids IH]; simpl; [tauto|].
  intros [->|H]; [lia|]. specialize (IH H). lia.
Qed.

(** A new rowid is larger than every rowid of the table. *)
Lemma next_rowid_fresh seq ids i : In i ids -> i < next_rowid seq ids.
Proof. intros H. unfold next_rowid. pose proof (fold_max_in seq ids i H). lia. Qed.

Lemma find_app_none {A} (p : A -> bool) l x :
  List.find p l = None -> List.find p (l ++ [x]) = if p x then Some x else None.
Proof.
  induction l as [|a l IH]; simpl; [reflexivity|].
  destruct (p a); [discriminate|]. exact IH.
Qed.

Lemma find_app_some {A} (p : A -> bool) l x y :
  List.find p l = Some y -> List.find p (l ++ [x]) = Some y.
Proof.
  induction l as [|a l IH]; simpl; [discriminate|].
  destruct (p a); [tauto|]. exact IH.
Qed.

Lemma find_none_existsb {A} (p : A -> bool) l :
  List.find p l = None <-> existsb p l = false.
Proof.
  induction l as [|a l IH]; simpl; [tauto|].
  destruct (p a); simpl; [split; discriminate|]. exact IH.
Qed.

(** A [find] through an UPDATE that keeps what the search looks at. *)
Lemma find_map_stable {A} (p : A -> bool) (f : A -> A) l :
  (forall a, p (f a) = p a) ->
  List.find p (map f l) = f <$> List.find p l.
Proof.
  intros Hp. induction l as [|a l IH]; simpl; [reflexivity|].
  rewrite Hp. destruct (p a); [reflexivity|]. exact IH.
Qed.

Lemma filter_map_stable {A} (p : A -> bool) (f : A -> A) l :
  (forall a, p (f a) = p a) ->
  List.filter p (map f l) = map f (List.filter p l).
Proof.
  intros Hp. induction l as [|a l IH]; simpl; [reflexivity|].
  rewrite Hp. destruct (p a); simpl; rewrite IH; reflexivity.
Qed.

Lemma filter_none {A} (p : A -> bool) l :
  existsb p l = false -> List.filter p l = [].
Proof.
  induction l as [|a l IH]; simpl; [reflexivity|].
  destruct (p a); simpl; [discriminate|]. exact IH.
Qed.

Lemma rating_key_inv uid sid r :
  rating_key uid sid r = true <-> r_user r = uid /\ r_store r = sid.
Proof.
  unfold rating_key. rewrite andb_true_iff, !bool_decide_eq_true. tauto.
Qed.


(** ** The uniqueness constraint of [ratings] through statements *)

Lemma ratings_unique_ext d d' :
  ratings d' = ratings d -> ratings_unique d -> ratings_unique d'.
Proof. intros E H uid sid. unfold rating_count. rewrite E. apply H. Qed.

Lemma rating_count_update uid sid (hit : rating_row -> bool) q now d seq :
  rating_count uid sid
    (set_ratings d
       (map (fun r => if hit r
                      then mkRating (r_id r) (r_user r) (r_store r) q (r_created r) now
                      else r) (ratings d)) seq)
  = rating_count uid sid d.
Proof.
  unfold rating_count; simpl.
  rewrite filter_map_stable, length_map; [reflexivity|].
  intros a. destruct (hit a); reflexivity.
Qed.

Lemma rating_count_insert uid sid d row seq :
  rating_count uid sid (set_ratings d (ratings d ++ [row]) seq)
  = (rating_count uid sid d + (if rating_key uid sid row then 1 else 0))%nat.
Proof.
  unfold rating_count; simpl. rewrite List.filter_app, length_app; simpl.
  destruct (rating_key uid sid row); reflexivity.
Qed.

Lemma run_stmt_unique {B} now (s : stmt B) d b d' :
  run_stmt now s d = inr (b, d') -> ratings_unique d -> ratings_unique d'.
Proof.
  intros H U.
  destruct s; simpl in H;
    try (injection H as _ <-; first [exact U | eapply ratings_unique_ext; [|exact U]; reflexivity]).
  - (* UPDATE ratings *)
    destruct (existsb _ (ratings d)); [|injection H as _ <-; exact U].
    destruct (rating_value v) as [e|q]; [discriminate|].
    injection H as _ <-. intros u s. rewrite rating_count_update. apply U.
  - (* INSERT INTO ratings *)
    destruct (rating_value v) as [e|q]; [discriminate|].
    destruct (existsb (rating_key uid sid) (ratings d)) eqn:E; [discriminate|].
    injection H as _ <-. intros u s. rewrite rating_count_insert.
    destruct (rating_key u s _) eqn:K; [|specialize (U u s); lia].
    apply rating_key_inv in K; simpl in K. destruct K as [-> ->].
    unfold rating_count. rewrite (filter_none _ _ E). simpl. lia.
  - (* INSERT INTO owner_requests *)
    destruct (existsb _ (owner_requests d)); [discriminate|].
    injection H as _ <-. eapply ratings_unique_ext; [|exact U]. reflexivity.
Qed.

Lemma step_unique now p d :
  ratings_unique d -> ratings_unique (snd (step now p d)).
Proof.
  intros U. destruct p as [r|B s k]; simpl; [exact U|].
  destruct (run_stmt now s d) as [e|[b d']] eqn:E; simpl; [exact U|].
  eapply run_stmt_unique; eassumption.
Qed.

Lemma exec_unique now p : forall d,
  ratings_unique d -> ratings_unique (snd (exec now p d)).
Proof.
  induction p as [r|B s k IH]; intros d U; simpl; [exact U|].
  destruct (run_stmt now s d) as [e|[b d']] eqn:E; simpl; [exact U|].
  apply IH. eapply run_stmt_unique; eassumption.
Qed.

(** C1: for every user and store, after any sequence of requests served
    from a database that honours UNIQUE (user_id, store_id), and so after
    any sequence of [submitRating] calls, at most one Rating exists for
    the pair. *)
Theorem submitRating_at_most_one_rating (calls : list (request * Z)) (d : db) :
  ratings_unique d ->
  forall uid sid, (rating_count uid sid (serve calls d) <= 1)%nat.
Proof.
  revert d. induction calls as [|[r now] calls IH]; intros d U; simpl.
  - exact U.
  - apply IH. apply exec_unique. exact U.
Qed.

(** ** The rating upsert *)

Lemma find_id_exists (id : Z) (l : list rating_row) old :
  In old l -> r_id old = id ->
  exists x, List.find (fun r => bool_decide (r_id r = id)) l = Some x /\ r_id x = id.
Proof.
  intros Hin Hid.
  destruct (List.find (fun r => bool_decide (r_id r = id)) l) as [x|] eqn:E.
  - exists x. split; [reflexivity|].
    apply List.find_some in E as [_ E]. apply bool_decide_eq_true in E. exact E.
  - exfalso. pose proof (List.find_none _ _ E old Hin) as N; simpl in N.
    apply bool_decide_eq_false in N. contradiction.
Qed.

(** C2: a call with a value in range inserts a Rating with
    [createdAt = updatedAt = now] and answers created when the pair has no
    Rating; when it has one, the call overwrites the value, sets [updatedAt]
    to now, keeps [createdAt] and answers updated, whatever the value
    stored before (the same value included). *)
Theorem submitRating_creates_or_updates
    (user : payload) (storeId : param) (q : Q) (now : Z) (d : db) :
  in_range q ->
  let out := exec now (submitRating (Token user) storeId (Js.Num q)) d in
  users (snd out) = users d /\ stores (snd out) = stores d /\
  owner_requests (snd out) = owner_requests d /\
  match lookup_rating (p_id user) storeId d with
  | None =>
      created (fst out) /\
      exists id,
        fst out = mkResponse 201
                    (RatingJson (Some (mkRatingView id (p_id user) storeId q))) /\
        ratings (snd out) =
          (ratings d ++ [mkRating id (p_id user) storeId q now now])%list
  | Some old =>
      updated (fst out) /\
      (exists v, fst out = mkResponse 200 (RatingJson (Some v)) /\
                 rv_id v = r_id old /\ rv_rating v = q) /\
      lookup_rating (p_id user) storeId (snd out) =
        Some (mkRating (r_id old) (r_user old) (r_store old) q (r_created old) now) /\
      ratings (snd out) =
        map (fun r => if bool_decide (r_id r = r_id old)
                      then mkRating (r_id r) (r_user r) (r_store r) q (r_created r) now
                      else r) (ratings d)
  end.
Proof.
  intros R out. subst out.
  unfold submitRating, authenticate, rating_handler, lookup_rating.
  rewrite (in_range_guard _ R). simpl.
  destruct (List.find (rating_key (p_id user) storeId) (ratings d)) as [old|] eqn:F;
    simpl.
  - pose proof (List.find_some _ _ F) as [Hin Hkey].
    assert (Hhit : existsb (fun r => bool_decide (r_id r = r_id old)) (ratings d) = true).
    { apply existsb_exists. exists old. split; [exact Hin|].
      apply bool_decide_eq_true. reflexivity. }
    rewrite Hhit. unfold rating_value. rewrite (in_range_check _ R). simpl.
    set (f := fun r : rating_row => if bool_decide (r_id r = r_id old)
                then mkRating (r_id r) (r_user r) (r_store r) q (r_created r) now
                else r).
    assert (Hid : forall a, bool_decide (r_id (f a) = r_id old)
                            = bool_decide (r_id a = r_id old)).
    { intros a. unfold f.
      destruct (bool_decide (r_id a = r_id old)) eqn:E; simpl; rewrite ?E; reflexivity. }
    assert (Hk : forall a, rating_key (p_id user) storeId (f a)
                           = rating_key (p_id user) storeId a).
    { intros a. unfold f. destruct (bool_decide (r_id a = r_id old)); reflexivity. }
    rewrite (find_map_stable _ f _ Hid), (find_map_stable _ f _ Hk), F.
    destruct (find_id_exists (r_id old) (ratings d) old Hin eq_refl) as [x [Fx Ex]].
    rewrite Fx. simpl.
    repeat split; try reflexivity.
    + exists (view_of (f x)). split; [reflexivity|].
      unfold f. rewrite Ex, bool_decide_eq_true_2 by reflexivity.
      split; reflexivity.
    + unfold f. rewrite bool_decide_eq_true_2 by reflexivity. reflexivity.
  - apply find_none_existsb in F.
    unfold rating_value. rewrite (in_range_check _ R), F. simpl.
    set (id := next_rowid (ratings_seq d) (map r_id (ratings d))).
    assert (Fid : List.find (fun r => bool_decide (r_id r = id)) (ratings d) = None).
    { apply find_none_existsb. apply not_true_is_false. intros E.
      apply existsb_exists in E as [x [Hin E]]. apply bool_decide_eq_true in E.
      pose proof (next_rowid_fresh (ratings_seq d) (map r_id (ratings d)) (r_id x)
                    (in_map r_id _ _ Hin)) as Hlt.
      fold id in Hlt. lia. }
    rewrite (find_app_none _ _ _ Fid). simpl.
    rewrite bool_decide_eq_true_2 by reflexivity. simpl.
    repeat split; try reflexivity.
    exists id. split; reflexivity.
Qed.

(** A number below 1 or above 5 is answered with [ValidationError], and the
    database is left as it was. *)
Lemma submitRating_rejects_out_of_range
    (user : payload) (storeId : param) (q : Q) (now : Z) (d : db) :
  (q < 1 # 1)%Q \/ (5 # 1 < q)%Q ->
  exec now (submitRating (Token user) storeId (Js.Num q)) d = (ValidationError, d).
Proof.
  intros H. unfold submitRating, authenticate, rating_handler.
  assert (G : Js.lt (Js.Num q) (Js.Num (1 # 1)) || Js.gt (Js.Num q) (Js.Num (5 # 1)) = true).
  { unfold Js.gt, Js.lt, Js.Qlt_bool; simpl. apply orb_true_iff.
    destruct H as [H|H]; [left|right]; apply negb_true_iff, not_true_is_false;
      intros L; apply Qle_bool_iff in L; apply (Qlt_not_le _ _ H L). }
  rewrite G. reflexivity.
Qed.

(** C3, at the failing input: the value 3.5 is not an integer in [1,5], and
    the call is not answered with ValidationError; it passes the range guard,
    a Rating of value 3.5 is inserted and the call answers created. *)
Theorem submitRating_accepts_three_and_a_half :
  let out := exec 10 (submitRating (Token (mkPayload 2 Normal)) (PInt 7)
                        (Js.Num (7 # 2))) initDb in
  out = (mkResponse 201 (RatingJson (Some (mkRatingView 1 2 (PInt 7) (7 # 2)))),
         set_ratings initDb [mkRating 1 2 (PInt 7) (7 # 2) 10 10] 1) /\
  fst out <> ValidationError /\
  snd out <> initDb.
Proof.
  split; [reflexivity|]. split.
  - intros H. discriminate H.
  - intros H. discriminate H.
Qed.

(** The values 0 and 6 of the claim are rejected. *)
Example submitRating_rejects_zero_and_six :
  exec 10 (submitRating (Token (mkPayload 2 Normal)) (PInt 7) (Js.Num (0 # 1))) initDb
  = (ValidationError, initDb) /\
  exec 10 (submitRating (Token (mkPayload 2 Normal)) (PInt 7) (Js.Num (6 # 1))) initDb
  = (ValidationError, initDb).
Proof. split; reflexivity. Qed.

(** The database after a rating call with a value in range. *)
Lemma rating_route_state (user : payload) (sid : param) (q : Q) (now : Z) (d : db) :
  in_range q ->
  snd (exec now (submitRating (Token user) sid (Js.Num q)) d) =
  match lookup_rating (p_id user) sid d with
  | Some old =>
      set_ratings d
        (map (fun r => if bool_decide (r_id r = r_id old)
                       then mkRating (r_id r) (r_user r) (r_store r) q (r_created r) now
                       else r) (ratings d)) (ratings_seq d)
  | None =>
      set_ratings d
        (ratings d ++ [mkRating (next_rowid (ratings_seq d) (map r_id (ratings d)))
                         (p_id user) sid q now now])
        (next_rowid (ratings_seq d) (map r_id (ratings d)))
  end.
Proof.
  intros R. unfold submitRating, authenticate, rating_handler, lookup_rating.
  rewrite (in_range_guard _ R). simpl.
  destruct (List.find (rating_key (p_id user) sid) (ratings d)) as [old|] eqn:F;
    simpl; unfold rating_value; rewrite (in_range_check _ R).
  - assert (Hhit : existsb (fun r => bool_decide (r_id r = r_id old)) (ratings d) = true).
    { apply existsb_exists. exists old. split; [apply (List.find_some _ _ F)|].
      apply bool_decide_eq_true. reflexivity. }
    rewrite Hhit. reflexivity.
  - apply find_none_existsb in F. rewrite F. reflexivity.
Qed.

(** After the call, the lookup of the pair finds a row with the value and
    the time of the call. *)
Lemma rating_route_lookup (user : payload) (sid : param) (q : Q) (now : Z) (d : db) :
  in_range q ->
  exists row,
    lookup_rating (p_id user) sid
      (snd (exec now (submitRating (Token user) sid (Js.Num q)) d)) = Some row /\
    r_user row = p_id user /\ r_store row = sid /\
    r_rating row = q /\ r_updated row = now.
Proof.
  intros R. rewrite (rating_route_state user sid q now d R).
  destruct (lookup_rating (p_id user) sid d) as [old|] eqn:F.
  - unfold lookup_rating in *. simpl.
    rewrite (find_map_stable (rating_key (p_id user) sid)), F.
    + simpl. rewrite bool_decide_eq_true_2 by reflexivity.
      apply List.find_some in F as [_ K]. apply rating_key_inv in K as [K1 K2].
      eexists. split; [reflexivity|]. simpl. tauto.
    + intros a. destruct (bool_decide (r_id a = r_id old)); reflexivity.
  - unfold lookup_rating in *. simpl. rewrite (find_app_none _ _ _ F).
    unfold rating_key at 1. simpl. rewrite !bool_decide_eq_true_2 by reflexivity.
    eexists. split; [reflexivity|]. simpl. tauto.
Qed.



(** ** The ownership predicate of the store-raters lookup *)

(** C8: an owner-role caller asking for the raters of a store id that no
    store of theirs carries (another owner's store, an unowned store, or no
    store at all) is answered Forbidden, and the database is untouched. *)
Theorem storeRaters_foreign_store_forbidden
    (owner : payload) (storeId : param) (now : Z) (d : db) :
  p_role owner = Owner ->
  (forall s, In s (stores d) -> PInt (s_id s) = storeId ->
             s_owner s <> Some (p_id owner)) ->
  let out := exec now (storeRaters (Token owner) storeId) d in
  out = (mkResponse 403 (Message "Not your store"), d) /\
  Forbidden (fst out) /\ ~ NotFoundError (fst out).
Proof.
  intros Hrole Hnot out. subst out.
  unfold storeRaters, authenticate, requireRole, store_raters_handler.
  rewrite Hrole. simpl.
  destruct (List.find _ (stores d)) as [s|] eqn:F; simpl.
  - exfalso. apply List.find_some in F as [Hin F].
    apply andb_true_iff in F as [F1 F2].
    apply bool_decide_eq_true in F1, F2. exact (Hnot s Hin F1 F2).
  - repeat split. discriminate.
Qed.

(** ** The owner-request workflow *)

Lemma has_id_fresh seq (l : list request_row) :
  List.find (has_id (PInt (next_rowid seq (map q_id l)))) l = None.
Proof.
  apply find_none_existsb, not_true_is_false. intros E.
  apply existsb_exists in E as [x [Hin E]]. apply bool_decide_eq_true in E.
  injection E as E.
  pose proof (next_rowid_fresh seq (map q_id l) (q_id x) (in_map q_id _ _ Hin)). lia.
Qed.

(** C5: a normal-role user with no OwnerRequest obtains one, in state
    pending, from the first [requestOwnerUpgrade]; the second call is
    answered with ConflictError and leaves the database, the pending request
    included, as the first call left it. *)
Theorem requestOwnerUpgrade_succeeds_once
    (user : payload) (now now' : Z) (d : db) :
  p_role user = Normal ->
  (forall q, In q (owner_requests d) -> q_user q <> p_id user) ->
  let out := exec now (requestOwnerUpgrade (Token user)) d in
  exists id,
    let q := mkRequest id (p_id user) Pending None now now in
    fst out = mkResponse 201 (RequestJson "Owner request submitted" (Some q)) /\
    owner_requests (snd out) = (owner_requests d ++ [q])%list /\
    users (snd out) = users d /\ stores (snd out) = stores d /\
    ratings (snd out) = ratings d /\
    exec now' (requestOwnerUpgrade (Token user)) (snd out) = (ConflictError, snd out).
Proof.
  intros Hrole Hnone out. subst out.
  unfold requestOwnerUpgrade, authenticate, requireRole, request_owner_handler.
  rewrite Hrole. simpl.
  assert (E : existsb (fun q => bool_decide (q_user q = p_id user)) (owner_requests d)
              = false).
  { apply not_true_is_false. intros E. apply existsb_exists in E as [x [Hin E]].
    apply bool_decide_eq_true in E. exact (Hnone x Hin E). }
  assert (F : List.find
                (fun q => bool_decide (q_user q = p_id user)
                          && (bool_decide (q_status q = Pending)
                              || bool_decide (q_status q = Approved)))
                (owner_requests d) = None).
  { apply find_none_existsb, not_true_is_false. intros X.
    apply existsb_exists in X as [x [Hin X]]. apply andb_true_iff in X as [X _].
    apply bool_decide_eq_true in X. exact (Hnone x Hin X). }
  rewrite F. simpl. rewrite E. simpl.
  set (id := next_rowid (requests_seq d) (map q_id (owner_requests d))).
  exists id.
  rewrite (find_app_none _ _ _ (has_id_fresh (requests_seq d) (owner_requests d))).
  fold id. unfold has_id at 1. simpl.
  rewrite bool_decide_eq_true_2 by reflexivity. simpl.
  rewrite (find_app_none _ _ _ F). simpl.
  rewrite bool_decide_eq_true_2 by reflexivity. simpl.
  repeat split; reflexivity.
Qed.

(** A user all of whose requests are rejected, and who has one: the lookup
    of a pending or approved request finds nothing, the INSERT breaks
    UNIQUE (user_id), and the [catch] answers 500. *)
Lemma requestOwnerUpgrade_rejected_server_error (user : payload) (now : Z) (d : db) :
  p_role user = Normal ->
  (exists q, In q (owner_requests d) /\ q_user q = p_id user) ->
  (forall q, In q (owner_requests d) -> q_user q = p_id user -> q_status q = Rejected) ->
  exec now (requestOwnerUpgrade (Token user)) d = (server_error, d).
Proof.
  intros Hrole [q [Hin Hq]] Hrej.
  unfold requestOwnerUpgrade, authenticate, requireRole, request_owner_handler.
  rewrite Hrole. simpl.
  assert (F : List.find
                (fun q => bool_decide (q_user q = p_id user)
                          && (bool_decide (q_status q = Pending)
                              || bool_decide (q_status q = Approved)))
                (owner_requests d) = None).
  { apply find_none_existsb, not_true_is_false. intros X.
    apply existsb_exists in X as [x [Hx X]]. apply andb_true_iff in X as [X1 X2].
    apply bool_decide_eq_true in X1. specialize (Hrej x Hx X1).
    rewrite Hrej in X2. discriminate. }
  rewrite F. simpl.
  assert (E : existsb (fun q => bool_decide (q_user q = p_id user)) (owner_requests d)
              = true).
  { apply existsb_exists. exists q. split; [exact Hin|].
    apply bool_decide_eq_true. exact Hq. }
  rewrite E. reflexivity.
Qed.

(** C6, at the failing input: user 2 asked for the upgrade and the
    administrator rejected the request.  A further [requestOwnerUpgrade]
    creates no second record, and it is answered with the generic
    500 'Server error' of the [catch], not with ConflictError. *)
Theorem requestOwnerUpgrade_after_rejection_is_server_error :
  let user := mkPayload 2 Normal in
  let d := serve [(PostRequestOwner (Token user), 12);
                  (PostReject (Token (mkPayload 1 Admin)) (PInt 1)
                     (Some "Does not meet criteria"), 13)] initDb in
  owner_requests d = [mkRequest 1 2 Rejected (Some "Does not meet criteria") 12 13] /\
  exec 14 (requestOwnerUpgrade (Token user)) d = (server_error, d) /\
  server_error <> ConflictError.
Proof. repeat split. discriminate. Qed.

Lemma decided_ext rid d d' :
  owner_requests d' = owner_requests d -> decided rid d -> decided rid d'.
Proof. intros E [q H]. exists q. unfold lookup_request in *. rewrite E. exact H. Qed.

Lemma find_set_status rid rid' (st : status) (reason : request_row -> option string)
    now (l : list request_row) :
  List.find (has_id rid)
    (map (fun q => if has_id rid' q
                   then mkRequest (q_id q) (q_user q) st (reason q) (q_created q) now
                   else q) l)
  = (fun q => if has_id rid' q
              then mkRequest (q_id q) (q_user q) st (reason q) (q_created q) now
              else q) <$> List.find (has_id rid) l.
Proof.
  apply find_map_stable. intros a. destruct (has_id rid' a); reflexivity.
Qed.

(** No statement takes a request back to [pending]. *)
Lemma run_stmt_decided {B} rid now (s : stmt B) d b d' :
  run_stmt now s d = inr (b, d') -> decided rid d -> decided rid d'.
Proof.
  intros H D.
  destruct s; simpl in H;
    try (injection H as _ <-; first [exact D | eapply decided_ext; [|exact D]; reflexivity]).
  - destruct (existsb _ (ratings d)); [|injection H as _ <-; exact D].
    destruct (rating_value v); [discriminate|].
    injection H as _ <-. eapply decided_ext; [|exact D]. reflexivity.
  - destruct (rating_value v); [discriminate|].
    destruct (existsb _ (ratings d)); [discriminate|].
    injection H as _ <-. eapply decided_ext; [|exact D]. reflexivity.
  - injection H as _ <-. destruct D as [q [F N]].
    unfold decided, lookup_request in *; simpl.
    rewrite (find_set_status rid rid0 Approved q_reason), F; simpl.
    eexists; split; [reflexivity|]. destruct (has_id rid0 q); simpl; congruence.
  - injection H as _ <-. destruct D as [q [F N]].
    unfold decided, lookup_request in *; simpl.
    rewrite (find_set_status rid rid0 Rejected (fun _ => Some reason)), F; simpl.
    eexists; split; [reflexivity|]. destruct (has_id rid0 q); simpl; congruence.
  - destruct (existsb _ (owner_requests d)); [discriminate|].
    injection H as _ <-. destruct D as [q [F N]]. exists q. split; [|exact N].
    unfold lookup_request in *; simpl. apply find_app_some. exact F.
Qed.

Lemma exec_decided rid now p : forall d,
  decided rid d -> decided rid (snd (exec now p d)).
Proof.
  induction p as [r|B s k IH]; intros d D; simpl; [exact D|].
  destruct (run_stmt now s d) as [e|[b d']] eqn:E; simpl; [exact D|].
  apply IH. eapply run_stmt_decided; eassumption.
Qed.

Lemma serve_decided rid calls : forall d,
  decided rid d -> decided rid (serve calls d).
Proof.
  induction calls as [|[r now] calls IH]; intros d D; simpl; [exact D|].
  apply IH, exec_decided, D.
Qed.

Lemma decide_on_decided (admin : payload) rid now d :
  p_role admin = Admin ->
  decided rid d ->
  exec now (approveOwnerRequest (Token admin) rid) d = (NotPendingError, d) /\
  forall reason,
    exec now (rejectOwnerRequest (Token admin) rid reason) d = (NotPendingError, d).
Proof.
  intros Hrole [q [F N]]. unfold lookup_request in F.
  unfold approveOwnerRequest, rejectOwnerRequest, authenticate, requireRole,
    approve_handler, reject_handler.
  rewrite Hrole. simpl. rewrite F.
  rewrite (bool_decide_eq_false_2 _ N). simpl. split; reflexivity.
Qed.

(** C4: approving a pending request as an administrator answers with the
    request in state approved, stores it so, and sets the role of the
    requesting user to owner; after that, and after whatever further requests
    the server handles, approving or rejecting the same request is answered
    with NotPendingError and changes nothing. *)
Theorem approve_pending_then_not_pending
    (admin : payload) (rid : param) (q : request_row) (now : Z) (d : db) :
  p_role admin = Admin ->
  lookup_request rid d = Some q ->
  q_status q = Pending ->
  let out := exec now (approveOwnerRequest (Token admin) rid) d in
  let q' := mkRequest (q_id q) (q_user q) Approved (q_reason q) (q_created q) now in
  fst out = mkResponse 200 (RequestJson "Owner request approved" (Some q')) /\
  lookup_request rid (snd out) = Some q' /\
  users (snd out) =
    map (fun u => if bool_decide (u_id u = q_user q)
                  then mkUser (u_id u) (u_name u) (u_email u) (u_address u) Owner
                  else u) (users d) /\
  (forall u, In u (users (snd out)) -> u_id u = q_user q -> u_role u = Owner) /\
  (forall calls admin' now' reason,
     p_role admin' = Admin ->
     let d2 := serve calls (snd out) in
     exec now' (approveOwnerRequest (Token admin') rid) d2 = (NotPendingError, d2) /\
     exec now' (rejectOwnerRequest (Token admin') rid reason) d2
       = (NotPendingError, d2)).
Proof.
  intros Hrole F P out q'.
  assert (Hout : out =
            (mkResponse 200 (RequestJson "Owner request approved" (Some q')),
             set_requests
               (set_users d
                  (map (fun u => if bool_decide (u_id u = q_user q)
                                 then mkUser (u_id u) (u_name u) (u_email u)
                                        (u_address u) Owner
                                 else u) (users d)))
               (map (fun x => if has_id rid x
                              then mkRequest (q_id x) (q_user x) Approved (q_reason x)
                                     (q_created x) now
                              else x) (owner_requests d))
               (requests_seq d))).
  { subst out. unfold lookup_request in F.
    unfold approveOwnerRequest, authenticate, requireRole, approve_handler.
    rewrite Hrole. simpl. rewrite F, P. simpl.
    rewrite (find_set_status rid rid Approved q_reason), F. simpl.
    apply List.find_some in F as [_ F]. rewrite F. reflexivity. }
  assert (L : lookup_request rid (snd out) = Some q').
  { rewrite Hout. unfold lookup_request in *. simpl.
    rewrite (find_set_status rid rid Approved q_reason), F. simpl.
    apply List.find_some in F as [_ F]. rewrite F. reflexivity. }
  split; [rewrite Hout; reflexivity|].
  split; [exact L|].
  split; [rewrite Hout; reflexivity|].
  split.
  - rewrite Hout. simpl. intros u Hin Hu.
    apply in_map_iff in Hin as [x [<- Hx]].
    destruct (bool_decide (u_id x = q_user q)) eqn:E; [reflexivity|].
    apply bool_decide_eq_false in E. contradiction.
  - intros calls admin' now' reason Hrole' d2.
    assert (D : decided rid d2).
    { apply serve_decided. exists q'. split; [exact L|]. discriminate. }
    destruct (decide_on_decided admin' rid now' d2 Hrole' D) as [A R].
    split; [exact A|apply R].
Qed.

(** ** Aggregates *)



Lemma filter_all {A} (p : A -> bool) l :
  (forall x, In x l -> p x = true) -> List.filter p l = l.
Proof.
  induction l as [|a l IH]; simpl; intros H; [reflexivity|].
  rewrite (H a) by (left; reflexivity). f_equal. apply IH. intros x Hx. apply H. right. exact Hx.
Qed.

Lemma filter_nothing {A} (p : A -> bool) l :
  (forall x, In x l -> p x = false) -> List.filter p l = [].
Proof.
  induction l as [|a l IH]; simpl; intros H; [reflexivity|].
  rewrite (H a) by (left; reflexivity). apply IH. intros x Hx. apply H. right. exact Hx.
Qed.

(** Under the primary key, selecting on a store's id selects that store. *)
Lemma filter_by_id s (S : list store_row) :
  List.NoDup (map s_id S) -> In s S ->
  List.filter (fun x => bool_decide (s_id x = s_id s)) S = [s].
Proof.
  induction S as [|a S IH]; simpl; intros N Hin; [tauto|].
  apply List.NoDup_cons_iff in N as [Na N].
  destruct Hin as [->|Hin].
  - rewrite bool_decide_eq_true_2 by reflexivity. f_equal.
    apply filter_nothing. intros x Hx. apply bool_decide_eq_false. intros E.
    apply Na. rewrite <- E. apply in_map. exact Hx.
  - rewrite bool_decide_eq_false_2; [apply IH; assumption|].
    intros E. apply Na. rewrite E. apply in_map. exact Hin.
Qed.

(** Grouping a join by store id: the joined rows of the stores of that id. *)
Lemma group_of_flat_map sid (rows : store_row -> list (store_row * option rating_row))
    (S : list store_row) :
  (forall s row, In row (rows s) -> fst row = s) ->
  group_of sid (flat_map rows S)
  = flat_map rows (List.filter (fun s => bool_decide (s_id s = sid)) S).
Proof.
  intros Hfst. unfold group_of.
  induction S as [|a S IH]; simpl; [reflexivity|].
  rewrite List.filter_app, IH.
  destruct (bool_decide (s_id a = sid)) eqn:E; simpl; f_equal.
  - apply filter_all. intros row Hrow. rewrite (Hfst a row Hrow). exact E.
  - rewrite filter_nothing; [reflexivity|].
    intros row Hrow. rewrite (Hfst a row Hrow). exact E.
Qed.

Lemma column_some {A} (c : rating_row -> A) s (rs : list rating_row) :
  column c (map (fun r => (s, Some r)) rs) = map c rs.
Proof. induction rs as [|r rs IH]; simpl; [reflexivity|]. f_equal. exact IH. Qed.

(** The group of a store in the LEFT JOIN carries the values of its Ratings. *)
Lemma column_group_of_left_join {A} (c : rating_row -> A) s d :
  stores_pk d -> In s (stores d) ->
  column c (group_of (s_id s) (left_join d))
  = map c (List.filter (fun r => bool_decide (r_store r = PInt (s_id s))) (ratings d)).
Proof.
  intros PK Hs. unfold left_join.
  rewrite group_of_flat_map.
  - rewrite (filter_by_id s (stores d) PK Hs). simpl. rewrite app_nil_r.
    unfold joins.
    destruct (List.filter _ (ratings d)) as [|r rs]; [reflexivity|].
    apply (column_some c s (r :: rs)).
  - intros s' row. destruct (List.filter (joins s') (ratings d)) as [|r rs].
    + intros [<-|[]]. reflexivity.
    + intros Hrow. apply in_map_iff in Hrow as [x [<- _]]. reflexivity.
Qed.

Lemma flat_map_map {A B C} (f : B -> C) (g : A -> list B) l :
  flat_map (fun a => map f (g a)) l = map f (flat_map g l).
Proof.
  induction l as [|a l IH]; simpl; [reflexivity|]. rewrite map_app, IH. reflexivity.
Qed.

(** [WHERE s.owner_id = ?] over the JOIN keeps the ratings of the owner's
    stores, store by store. *)
Lemma owned_inner_join uid (R : list rating_row) (S : list store_row) :
  map (fun row => r_rating (snd row))
    (List.filter (owned_by uid)
       (flat_map (fun s => map (fun r => (s, r)) (List.filter (joins s) R)) S))
  = map r_rating
      (flat_map (fun s => List.filter (joins s) R)
         (List.filter (fun s => bool_decide (s_owner s = Some uid)) S)).
Proof.
  induction S as [|a S IH]; simpl; [reflexivity|].
  rewrite List.filter_app, map_app, IH.
  unfold owned_by at 1.
  destruct (bool_decide (s_owner a = Some uid)) eqn:E; simpl.
  - rewrite map_app. f_equal.
    rewrite filter_all.
    + rewrite map_map. reflexivity.
    + intros row Hrow. apply in_map_iff in Hrow as [r [<- _]]. exact E.
  - rewrite filter_nothing; [reflexivity|].
    intros row Hrow. apply in_map_iff in Hrow as [r [<- _]]. exact E.
Qed.

Lemma Permutation_filter_or {A} (p q : A -> bool) l :
  (forall x, p x = true -> q x = false) ->
  Permutation (List.filter p l ++ List.filter q l)
    (List.filter (fun x => p x || q x) l).
Proof.
  intros D. induction l as [|a l IH]; simpl; [constructor|].
  destruct (p a) eqn:P; simpl.
  - rewrite (D a P). apply perm_skip. exact IH.
  - destruct (q a); simpl.
    + apply Permutation_sym, Permutation_cons_app, Permutation_sym. exact IH.
    + exact IH.
Qed.

(** Store by store or rating by rating: the same ratings, each once, when no
    two stores share an id. *)
Lemma Permutation_join (R : list rating_row) (S : list store_row) :
  List.NoDup (map s_id S) ->
  Permutation (flat_map (fun s => List.filter (joins s) R) S)
    (List.filter (fun r => existsb (fun s => joins s r) S) R).
Proof.
  induction S as [|a S IH]; simpl; intros N.
  - rewrite filter_nothing; [constructor|reflexivity].
  - apply List.NoDup_cons_iff in N as [Na N].
    eapply Permutation_trans; [apply Permutation_app_head, IH, N|].
    apply Permutation_filter_or.
    intros r J. apply not_true_is_false. intros X.
    apply existsb_exists in X as [s [Hs Js]].
    unfold joins in J, Js. apply bool_decide_eq_true in J, Js.
    apply Na. assert (E : s_id a = s_id s) by congruence.
    rewrite E. apply in_map. exact Hs.
Qed.

Lemma NoDup_map_filter {A B} (f : A -> B) (p : A -> bool) l :
  List.NoDup (map f l) -> List.NoDup (map f (List.filter p l)).
Proof.
  induction l as [|a l IH]; simpl; intros N; [constructor|].
  apply List.NoDup_cons_iff in N as [Na N].
  destruct (p a); simpl; [|apply IH, N].
  constructor; [|apply IH, N].
  intros Hin. apply Na. apply in_map_iff in Hin as [x [E Hx]].
  apply List.filter_In in Hx as [Hx _]. rewrite <- E. apply in_map. exact Hx.
Qed.

Lemma existsb_filter {A} (p q : A -> bool) l :
  existsb p (List.filter q l) = existsb (fun x => q x && p x) l.
Proof.
  induction l as [|a l IH]; simpl; [reflexivity|].
  destruct (q a); simpl; rewrite IH; reflexivity.
Qed.

(** The values the owner subquery averages are, up to their order, the
    values of the Ratings of the stores the user owns. *)
Lemma owner_join_values uid d :
  stores_pk d ->
  Permutation
    (map (fun row => r_rating (snd row))
       (List.filter (owned_by uid) (inner_join d)))
    (owner_values uid d).
Proof.
  intros PK. unfold inner_join, owner_values. rewrite owned_inner_join.
  apply Permutation_map.
  eapply Permutation_trans.
  - apply Permutation_join, NoDup_map_filter, PK.
  - erewrite List.filter_ext; [reflexivity|].
    intros r. unfold rates_store_of. rewrite existsb_filter. reflexivity.
Qed.

Lemma sum_Permutation (l l' : list Q) :
  Permutation l l' ->
  (fold_right Qplus (0 # 1) l == fold_right Qplus (0 # 1) l')%Q.
Proof.
  induction 1 as [|x l l' _ IH|x y l|l l' l'' _ IH1 _ IH2]; simpl.
  - reflexivity.
  - rewrite IH. reflexivity.
  - ring.
  - rewrite IH1. exact IH2.
Qed.

Lemma mean_Permutation (l l' : list Q) :
  Permutation l l' -> (mean l == mean l')%Q.
Proof.
  intros P. unfold mean.
  rewrite (sum_Permutation _ _ P), (Permutation_length P). reflexivity.
Qed.

(** *** Rounding *)

Lemma pow2_pos e : (0 < pow2 e)%Q.
Proof. apply Qpower_0_lt. reflexivity. Qed.

Lemma pow2_add a b : (pow2 (a + b) == pow2 a * pow2 b)%Q.
Proof. apply Qpower_plus. discriminate. Qed.

Lemma pow2_Z n : 0 <= n -> (pow2 n == inject_Z (2 ^ n))%Q.
Proof. intros H. unfold pow2. rewrite (Zpower_Qpower 2 n H). reflexivity. Qed.

Lemma pow2_le a b : a <= b -> (pow2 a <= pow2 b)%Q.
Proof. intros H. apply Qpower_le_compat_l; [exact H|discriminate]. Qed.

Lemma pow2_lt a b : a < b -> (pow2 a < pow2 b)%Q.
Proof. intros H. apply Qpower_lt_compat_l; [exact H|reflexivity]. Qed.

Lemma pow2_lt_inv a b : (pow2 a < pow2 b)%Q -> a < b.
Proof. intros H. apply (Qpower_lt_compat_l_inv _ _ _ H). reflexivity. Qed.

Lemma pow2_opp a : (pow2 a * pow2 (- a) == 1)%Q.
Proof. rewrite <- pow2_add, Z.add_opp_diag_r. reflexivity. Qed.

Lemma Qmake_scaled (n : Z) (d : positive) : ((n # d) * inject_Z (Z.pos d) == inject_Z n)%Q.
Proof. unfold Qeq, Qmult, inject_Z. simpl. lia. Qed.

Lemma ilog2_spec q :
  (0 < q)%Q -> (pow2 (ilog2 q) <= q)%Q /\ (q < pow2 (ilog2 q + 1))%Q.
Proof.
  intros Hq. destruct q as [n d].
  assert (Hn : 0 < n). { unfold Qlt in Hq. simpl in Hq. lia. }
  unfold ilog2. simpl Qnum. simpl Qden.
  set (a := Z.log2 n). set (b := Z.log2 (Z.pos d)).
  destruct (Z.log2_spec n Hn) as [A1 A2]. fold a in A1, A2.
  destruct (Z.log2_spec (Z.pos d) eq_refl) as [B1 B2]. fold b in B1, B2.
  assert (Ha : 0 <= a) by apply Z.log2_nonneg.
  assert (Hb : 0 <= b) by apply Z.log2_nonneg.
  pose proof (Qmake_scaled n d) as E.
  assert (Dpos : (0 < inject_Z (Z.pos d))%Q) by reflexivity.
  (* bounds on the denominator and numerator as rationals *)
  assert (D1 : (pow2 b <= inject_Z (Z.pos d))%Q).
  { rewrite (pow2_Z b Hb). rewrite <- Zle_Qle. exact B1. }
  assert (D2 : (inject_Z (Z.pos d) < pow2 (b + 1))%Q).
  { rewrite (pow2_Z (b + 1)) by lia. rewrite <- Zlt_Qlt. replace (b + 1) with (Z.succ b) by lia. exact B2. }
  assert (N1 : (pow2 a <= inject_Z n)%Q).
  { rewrite (pow2_Z a Ha). rewrite <- Zle_Qle. exact A1. }
  assert (N2 : (inject_Z n < pow2 (a + 1))%Q).
  { rewrite (pow2_Z (a + 1)) by lia. rewrite <- Zlt_Qlt. replace (a + 1) with (Z.succ a) by lia. exact A2. }
  assert (Up : (n # d < pow2 (a - b + 1))%Q).
  { apply (Qmult_lt_r _ _ (pow2 b) (pow2_pos b)).
    rewrite <- pow2_add. replace (a - b + 1 + b) with (a + 1) by lia.
    eapply Qle_lt_trans; [|exact N2]. rewrite <- E.
    apply Qmult_le_l; [exact Hq|exact D1]. }
  assert (Lo : (pow2 (a - b - 1) <= n # d)%Q).
  { apply (Qmult_le_r _ _ (pow2 (b + 1)) (pow2_pos (b + 1))).
    rewrite <- pow2_add. replace (a - b - 1 + (b + 1)) with a by lia.
    eapply Qle_trans; [exact N1|]. rewrite <- E.
    apply Qmult_le_l; [exact Hq|]. apply Qlt_le_weak, D2. }
  destruct (Qle_bool (pow2 (a - b)) (n # d)) eqn:T.
  - apply Qle_bool_iff in T. split; [exact T|exact Up].
  - split; [exact Lo|]. replace (a - b - 1 + 1) with (a - b) by lia.
    apply Qnot_le_lt. intros L. apply Qle_bool_iff in L. congruence.
Qed.

Lemma ilog2_unique q e :
  (pow2 e <= q)%Q -> (q < pow2 (e + 1))%Q -> ilog2 q = e.
Proof.
  intros L U.
  assert (Hq : (0 < q)%Q) by (eapply Qlt_le_trans; [apply (pow2_pos e)|exact L]).
  destruct (ilog2_spec q Hq) as [L' U'].
  pose proof (pow2_lt_inv _ _ (Qle_lt_trans _ _ _ L U')).
  pose proof (pow2_lt_inv _ _ (Qle_lt_trans _ _ _ L' U)).
  lia.
Qed.

Lemma round_even_Z x z : (x == inject_Z z)%Q -> round_even x = z.
Proof.
  intros E. unfold round_even.
  assert (F : Qfloor x = z) by (rewrite E; apply Qfloor_Z).
  rewrite F.
  assert (C : (x - inject_Z z ?= 1 # 2)%Q = Lt).
  { assert (Z0 : (x - inject_Z z == 0)%Q) by (rewrite E; ring).
    rewrite Z0. reflexivity. }
  rewrite C. reflexivity.
Qed.


Lemma Qabs_inject_Z m : Qabs (inject_Z m) = inject_Z (Z.abs m).
Proof. reflexivity. Qed.

Lemma double_grid k m x :
  0 <= k <= 1074 -> Z.abs m < 2 ^ 53 ->
  (x == inject_Z m * pow2 (- k))%Q -> (double x == x)%Q.
Proof.
  intros Hk Hm E. unfold double.
  set (x' := Qred x).
  assert (Ex : (x' == x)%Q) by apply Qred_correct.
  assert (Ea : (Qabs x' == inject_Z (Z.abs m) * pow2 (- k))%Q).
  { rewrite Ex, E, Qabs_Qmult, Qabs_inject_Z.
    rewrite (Qabs_pos (pow2 (- k))) by apply Qlt_le_weak, pow2_pos. reflexivity. }
  destruct (Z.eq_dec m 0) as [->|Nm].
  - assert (Z0 : (Qabs x' == 0)%Q) by (rewrite Ea; apply Qmult_0_l).
    apply Qeq_bool_iff in Z0. rewrite Z0.
    rewrite E. symmetry. apply Qmult_0_l.
  - assert (Am : 0 < Z.abs m) by lia.
    set (L := Z.log2 (Z.abs m)).
    destruct (Z.log2_spec _ Am) as [L1 L2]. fold L in L1, L2.
    assert (HL0 : 0 <= L) by apply Z.log2_nonneg.
    assert (HL : L <= 52).
    { destruct (Z_le_gt_dec L 52) as [?|G]; [assumption|exfalso].
      assert (2 ^ 53 <= 2 ^ L) by (apply Z.pow_le_mono_r; lia). lia. }
    assert (Apos : (0 < Qabs x')%Q).
    { rewrite Ea. apply Qmult_lt_0_compat; [|apply pow2_pos].
      rewrite <- (Zlt_Qlt 0). exact Am. }
    assert (NZ : Qeq_bool (Qabs x') (0 # 1) = false).
    { apply not_true_is_false. intros T. apply Qeq_bool_iff in T.
      rewrite T in Apos. discriminate Apos. }
    rewrite NZ.
    assert (IL : ilog2 (Qabs x') = L - k).
    { apply ilog2_unique; rewrite Ea.
      - replace (L - k) with (L + - k) by lia. rewrite pow2_add.
        apply Qmult_le_compat_r; [|apply Qlt_le_weak, pow2_pos].
        rewrite (pow2_Z L HL0), <- Zle_Qle. exact L1.
      - replace (L - k + 1) with (L + 1 + - k) by lia. rewrite pow2_add.
        apply Qmult_lt_compat_r; [apply pow2_pos|].
        rewrite (pow2_Z (L + 1)) by lia. rewrite <- Zlt_Qlt.
        replace (L + 1) with (Z.succ L) by lia. exact L2. }
    rewrite IL.
    set (e := Z.max (L - k) (-1022) - 52).
    set (j := - k - e).
    assert (Hj : 0 <= j) by (unfold j, e; lia).
    assert (Pk : (pow2 (- k) == pow2 j * pow2 e)%Q).
    { rewrite <- pow2_add. replace (j + e) with (- k) by (unfold j; lia). reflexivity. }
    assert (Q1 : (Qabs x' / pow2 e == inject_Z (Z.abs m * 2 ^ j))%Q).
    { rewrite Ea, Pk, inject_Z_mult, <- (pow2_Z j Hj).
      field. intros Z0. pose proof (pow2_pos e) as P. rewrite Z0 in P. discriminate P. }
    rewrite (round_even_Z _ _ Q1).
    assert (M : (Qred (inject_Z (Z.abs m * 2 ^ j) * pow2 e) == Qabs x')%Q).
    { rewrite Qred_correct, Ea, Pk, inject_Z_mult, <- (pow2_Z j Hj). ring. }
    destruct (Qle_bool (0 # 1) x') eqn:S.
    + apply Qle_bool_iff in S. rewrite M, (Qabs_pos _ S). exact Ex.
    + assert (N : (x' <= 0)%Q).
      { apply Qlt_le_weak, Qnot_le_lt. intros T. apply Qle_bool_iff in T. congruence. }
      rewrite M, (Qabs_neg _ N), Qopp_involutive. exact Ex.
Qed.

Lemma whole_inject q : whole q = true -> (q == inject_Z (Qnum (Qred q)))%Q.
Proof.
  unfold whole. intros H. apply Pos.eqb_eq in H.
  rewrite <- (Qred_correct q) at 1. destruct (Qred q) as [n d]. simpl in *. subst d.
  reflexivity.
Qed.

Lemma whole_gridpt k v : whole (v * pow2 k) = true -> gridpt k v.
Proof.
  intros H. exists (Qnum (Qred (v * pow2 k))).
  rewrite <- (whole_inject _ H), <- Qmult_assoc, pow2_opp. ring.
Qed.

Lemma gridpt_plus k x y : gridpt k x -> gridpt k y -> gridpt k (x + y).
Proof.
  intros [u Hu] [w Hw]. exists (u + w). rewrite Hu, Hw, inject_Z_plus. ring.
Qed.

Lemma gridpt_opp k x : gridpt k x -> gridpt k (- x).
Proof.
  intros [u Hu]. exists (- u). rewrite Hu, inject_Z_opp. ring.
Qed.

Lemma gridpt_Z k z : 0 <= k -> gridpt k (inject_Z z).
Proof.
  intros Hk. exists (z * 2 ^ k). rewrite inject_Z_mult, <- (pow2_Z k Hk), <- Qmult_assoc, pow2_opp.
  ring.
Qed.

Lemma double_fits k x :
  0 <= k <= 1074 -> gridpt k x ->
  (Qabs x < grid_bound k)%Q -> (double x == x)%Q.
Proof.
  intros Hk [u Hu] B. apply (double_grid k u x Hk); [|exact Hu].
  rewrite Hu, Qabs_Qmult, Qabs_inject_Z in B.
  rewrite (Qabs_pos (pow2 (- k))) in B by apply Qlt_le_weak, pow2_pos.
  apply Qmult_lt_r in B; [|apply pow2_pos].
  rewrite <- Zlt_Qlt in B. lia.
Qed.

Lemma double_zero x : (x == 0)%Q -> double x = (0 # 1)%Q.
Proof. intros E. rewrite (double_proper _ _ E). reflexivity. Qed.

Lemma Qabs_sum_of_le l : (Qabs (sum_of l) <= sum_of (map Qabs l))%Q.
Proof.
  induction l as [|v l IH]; simpl; [discriminate|].
  eapply Qle_trans; [apply Qabs_triangle|]. apply Qplus_le_r. exact IH.
Qed.

Lemma sum_of_abs_nonneg l : (0 <= sum_of (map Qabs l))%Q.
Proof.
  induction l as [|v l IH]; simpl; [discriminate|].
  apply (Qplus_le_compat 0 _ 0); [apply Qabs_nonneg|exact IH].
Qed.

Lemma is_integer_inject v : is_integer v = true -> (v == inject_Z (Qnum (Qred v)))%Q.
Proof.
  unfold is_integer. intros H. apply andb_true_iff in H as [H _].
  apply andb_true_iff in H as [H _]. apply whole_inject, H.
Qed.

Section ExactSums.

Variable k : Z.
Hypothesis Hk : 0 <= k <= 1074.

Lemma step_exact p S v :
  gridpt k S -> gridpt k v ->
  (Qabs S + Qabs v < grid_bound k)%Q ->
  (rSum p == S)%Q -> (rErr p == 0)%Q ->
  let p' := kahanBabuskaNeumaierStep p (double v) in
  (rSum p' == S + v)%Q /\ (rErr p' == 0)%Q /\ cnt p' = cnt p /\ approx p' = approx p.
Proof.
  intros GS Gv B Es Ee p'.
  assert (BS : (Qabs S < grid_bound k)%Q).
  { eapply Qle_lt_trans; [|exact B].
    rewrite <- (Qplus_0_r (Qabs S)) at 1. apply Qplus_le_r, Qabs_nonneg. }
  assert (Bv : (Qabs v < grid_bound k)%Q).
  { eapply Qle_lt_trans; [|exact B].
    rewrite <- (Qplus_0_l (Qabs v)) at 1. apply Qplus_le_l, Qabs_nonneg. }
  assert (Dv : (double v == v)%Q) by (apply (double_fits k); assumption).
  assert (Dt : (fadd (rSum p) (double v) == S + v)%Q).
  { unfold fadd. rewrite Es, Dv. apply (double_fits k); [exact Hk|apply gridpt_plus; assumption|].
    eapply Qle_lt_trans; [apply Qabs_triangle|exact B]. }
  assert (E1 : fadd (fsub (rSum p) (fadd (rSum p) (double v))) (double v) = (0 # 1)%Q).
  { unfold fadd at 1. apply double_zero. unfold fsub. rewrite Dt, Es, Dv.
    assert (X : (S - (S + v) == - v)%Q) by ring. rewrite X.
    rewrite (double_fits k (- v) Hk (gridpt_opp _ _ Gv)); [ring|].
    rewrite Qabs_opp. exact Bv. }
  assert (E2 : fadd (fsub (double v) (fadd (rSum p) (double v))) (rSum p) = (0 # 1)%Q).
  { unfold fadd at 1. apply double_zero. unfold fsub. rewrite Dt, Es, Dv.
    assert (X : (v - (S + v) == - S)%Q) by ring. rewrite X.
    rewrite (double_fits k (- S) Hk (gridpt_opp _ _ GS)); [ring|].
    rewrite Qabs_opp. exact BS. }
  subst p'. unfold kahanBabuskaNeumaierStep. simpl.
  split; [exact Dt|]. split; [|split; reflexivity].
  destruct (Js.Qlt_bool _ _); [rewrite E1|rewrite E2];
    unfold fadd; rewrite (double_zero (rErr p + 0)); try reflexivity; rewrite Ee; reflexivity.
Qed.

Lemma fold_sumStep_exact l : forall p S,
  Forall (gridpt k) l -> gridpt k S ->
  (Qabs S + sum_of (map Qabs l) < grid_bound k)%Q ->
  (approx p = false -> (inject_Z (iSum p) == S)%Q) ->
  (approx p = true -> (rSum p == S)%Q /\ (rErr p == 0)%Q) ->
  let p' := fold_left sumStep l p in
  cnt p' = cnt p + Z.of_nat (length l) /\
  (approx p' = false -> (inject_Z (iSum p') == S + sum_of l)%Q) /\
  (approx p' = true -> (rSum p' == S + sum_of l)%Q /\ (rErr p' == 0)%Q).
Proof.
  induction l as [|v l IH]; intros p S Gl GS B I R p'.
  - subst p'. simpl. split; [lia|]. split.
    + intros A. rewrite (I A). ring.
    + intros A. destruct (R A) as [R1 R2]. split; [rewrite R1; ring|exact R2].
  - apply Forall_cons_1 in Gl as [Gv Gl].
    simpl in B.
    assert (B1 : (Qabs S + Qabs v < grid_bound k)%Q).
    { eapply Qle_lt_trans; [|exact B]. apply Qplus_le_r.
      rewrite <- (Qplus_0_r (Qabs v)) at 1. apply Qplus_le_r, sum_of_abs_nonneg. }
    assert (B2 : (Qabs (S + v) + sum_of (map Qabs l) < grid_bound k)%Q).
    { eapply Qle_lt_trans; [|exact B]. rewrite Qplus_assoc.
      apply Qplus_le_l, Qabs_triangle. }
    assert (GSv : gridpt k (S + v)) by (apply gridpt_plus; assumption).
    assert (Next : forall q,
              cnt q = cnt p + 1 ->
              (approx q = false -> (inject_Z (iSum q) == S + v)%Q) ->
              (approx q = true -> (rSum q == S + v)%Q /\ (rErr q == 0)%Q) ->
              let q' := fold_left sumStep l q in
              cnt q' = cnt p + Z.of_nat (length (v :: l)) /\
              (approx q' = false -> (inject_Z (iSum q') == S + sum_of (v :: l))%Q) /\
              (approx q' = true -> (rSum q' == S + sum_of (v :: l))%Q /\ (rErr q' == 0)%Q)).
    { intros q Cq Iq Rq q'.
      destruct (IH q (S + v)%Q Gl GSv B2 Iq Rq) as (C & I' & R'). fold q' in C, I', R'.
      split; [rewrite C, Cq; simpl length; lia|]. simpl sum_of. split.
      - intros A. rewrite (I' A). ring.
      - intros A. destruct (R' A) as [R1 R2]. split; [rewrite R1; ring|exact R2]. }
    subst p'. simpl fold_left.
    destruct (approx p) eqn:A.
    + destruct (R eq_refl) as [R1 R2].
      pose proof (step_exact (mkSum (rSum p) (rErr p) (iSum p) (cnt p + 1) true) S v
                    GS Gv B1 R1 R2) as (X1 & X2 & X3 & X4).
      replace (sumStep p v)
        with (kahanBabuskaNeumaierStep
                (mkSum (rSum p) (rErr p) (iSum p) (cnt p + 1) true) (double v))
        by (unfold sumStep; simpl; rewrite A; reflexivity).
      apply Next.
      * exact X3.
      * intros F. rewrite X4 in F. discriminate F.
      * intros _. split; assumption.
    + destruct (is_integer v) eqn:V.
      * replace (sumStep p v)
          with (mkSum (rSum p) (rErr p) (iSum p + Qnum (Qred v)) (cnt p + 1) false)
          by (unfold sumStep; simpl; rewrite A, V; reflexivity).
        apply Next; simpl.
        -- reflexivity.
        -- intros _. rewrite inject_Z_plus, (I eq_refl), <- (is_integer_inject v V). reflexivity.
        -- discriminate.
      * assert (BS : (Qabs S < grid_bound k)%Q).
        { eapply Qle_lt_trans; [|exact B1].
          rewrite <- (Qplus_0_r (Qabs S)) at 1. apply Qplus_le_r, Qabs_nonneg. }
        assert (R1 : (rSum (kahanBabuskaNeumaierInit
                              (mkSum (rSum p) (rErr p) (iSum p) (cnt p + 1) false)) == S)%Q).
        { simpl. rewrite (I eq_refl). apply (double_fits k); assumption. }
        pose proof (step_exact _ S v GS Gv B1 R1 (Qeq_refl _)) as (X1 & X2 & X3 & X4).
        replace (sumStep p v)
          with (kahanBabuskaNeumaierStep
                  (kahanBabuskaNeumaierInit
                     (mkSum (rSum p) (rErr p) (iSum p) (cnt p + 1) false)) (double v))
          by (unfold sumStep; simpl; rewrite A, V; reflexivity).
        apply Next.
        -- exact X3.
        -- intros F. rewrite X4 in F. discriminate F.
        -- intros _. split; assumption.
Qed.

End ExactSums.

Lemma on_grid_spec k l :
  on_grid k l = true ->
  0 <= k <= 1074 /\ Z.of_nat (length l) < 2 ^ 52 /\ Forall (gridpt k) l /\
  (sum_of (map Qabs l) < grid_bound k)%Q.
Proof.
  unfold on_grid. intros H.
  apply andb_true_iff in H as [H H5]. apply andb_true_iff in H as [H H4].
  apply andb_true_iff in H as [H H3]. apply andb_true_iff in H as [H1 H2].
  split; [lia|]. split; [lia|]. split.
  - apply List.Forall_forall. intros v Hv. apply whole_gridpt.
    rewrite forallb_forall in H4. apply H4. exact Hv.
  - unfold Js.Qlt_bool in H5. apply negb_true_iff in H5. apply Qnot_le_lt. intros L.
    apply Qle_bool_iff in L. rewrite L in H5. discriminate H5.
Qed.

Lemma sql_avg_on_grid k l :
  on_grid k l = true -> l <> [] -> sql_avg l = Some (double (mean l)).
Proof.
  intros G N. destruct (on_grid_spec k l G) as (Hk & Hn & Gl & B).
  assert (G0 : gridpt k 0) by (apply (gridpt_Z k 0); lia).
  destruct (fold_sumStep_exact k Hk l (mkSum (0 # 1) (0 # 1) 0 0 false) 0%Q Gl G0)
    as (C & I & R).
  - rewrite Qplus_0_l. exact B.
  - intros _. reflexivity.
  - discriminate.
  - unfold sql_avg, avgFinalize. rewrite Z.add_0_l in C. rewrite C.
    assert (P : 0 < Z.of_nat (length l)) by (destruct l; [congruence|simpl; lia]).
    apply Z.ltb_lt in P as P'. rewrite P'. f_equal. unfold fdiv. apply double_proper.
    unfold mean.
    assert (Gt : gridpt k (sum_of l)).
    { clear - Gl G0. induction Gl; simpl; [exact G0|apply gridpt_plus; assumption]. }
    assert (Bt : (Qabs (sum_of l) < grid_bound k)%Q).
    { eapply Qle_lt_trans; [apply Qabs_sum_of_le|exact B]. }
    assert (Dn : (double (inject_Z (Z.of_nat (length l))) == inject_Z (Z.of_nat (length l)))%Q).
    { apply (double_grid 0 (Z.of_nat (length l))); [lia|lia|]. simpl. ring. }
    rewrite Dn.
    assert (Dr : ((if approx (fold_left sumStep l (mkSum (0 # 1) (0 # 1) 0 0 false))
                   then fadd (rSum (fold_left sumStep l (mkSum (0 # 1) (0 # 1) 0 0 false)))
                          (rErr (fold_left sumStep l (mkSum (0 # 1) (0 # 1) 0 0 false)))
                   else double (inject_Z (iSum (fold_left sumStep l (mkSum (0 # 1) (0 # 1) 0 0 false)))))
                  == sum_of l)%Q).
    { destruct (approx _) eqn:A.
      - destruct (R eq_refl) as [R1 R2]. unfold fadd. rewrite R1, R2.
        assert (X : (0 + sum_of l + 0 == sum_of l)%Q) by ring. rewrite X.
        apply (double_fits k); assumption.
      - rewrite (I eq_refl). assert (X : (0 + sum_of l == sum_of l)%Q) by ring. rewrite X.
        apply (double_fits k); assumption. }
    rewrite Dr. reflexivity.
Qed.

Lemma round_even_near y : (Qabs (inject_Z (round_even y) - y) <= 1 # 2)%Q.
Proof.
  unfold round_even.
  pose proof (Qfloor_le y) as F1. pose proof (Qlt_floor y) as F2.
  set (f := Qfloor y) in *. rewrite inject_Z_plus in F2.
  change (inject_Z 1) with 1%Q in F2.
  assert (Lo : (y - inject_Z f <= 1 # 2)%Q -> (Qabs (inject_Z f - y) <= 1 # 2)%Q).
  { intros H. rewrite Qabs_neg; lra. }
  assert (Hi : (1 # 2 <= y - inject_Z f)%Q -> (Qabs (inject_Z (f + 1) - y) <= 1 # 2)%Q).
  { intros H. rewrite inject_Z_plus. change (inject_Z 1) with 1%Q. rewrite Qabs_pos; lra. }
  destruct (y - inject_Z f ?= 1 # 2)%Q eqn:C.
  - apply Qeq_alt in C. destruct (Z.even f); [apply Lo|apply Hi]; lra.
  - apply Qlt_alt in C. apply Lo. lra.
  - apply Qgt_alt in C. apply Hi. lra.
Qed.

Lemma double_error q :
  (Qabs (double q - q) <= Qabs q * pow2 (- 53) + pow2 (- 1075))%Q.
Proof.
  unfold double. set (x := Qred q).
  assert (Ex : (q == x)%Q) by (symmetry; apply Qred_correct).
  rewrite Ex. clearbody x. clear q Ex.
  pose proof (pow2_pos (- 53)) as P53. pose proof (pow2_pos (- 1075)) as P1075.
  pose proof (Qabs_nonneg x) as Ax.
  destruct (Qeq_bool (Qabs x) (0 # 1)) eqn:Z0.
  - apply Qeq_bool_iff in Z0.
    assert (X0 : (x == 0)%Q).
    { destruct (Qlt_le_dec x 0) as [N|P];
        [rewrite Qabs_neg in Z0 by lra|rewrite Qabs_pos in Z0 by lra]; lra. }
    rewrite X0. change (Qabs (0 - 0)) with 0%Q. change (Qabs 0) with 0%Q.
    rewrite Qmult_0_l, Qplus_0_l. apply Qlt_le_weak, P1075.
  - assert (Apos : (0 < Qabs x)%Q).
    { destruct (Qlt_le_dec 0 (Qabs x)) as [?|L]; [assumption|exfalso].
      assert (E : (Qabs x == 0)%Q) by lra. apply Qeq_bool_iff in E. congruence. }
    destruct (ilog2_spec _ Apos) as [L1 _].
    set (e := Z.max (ilog2 (Qabs x)) (-1022) - 52).
    pose proof (pow2_pos e) as Pe.
    set (n := round_even (Qabs x / pow2 e)).
    pose proof (round_even_near (Qabs x / pow2 e)) as N. fold n in N.
    assert (M : (Qabs (inject_Z n * pow2 e - Qabs x) <= pow2 (e - 1))%Q).
    { assert (X : (inject_Z n * pow2 e - Qabs x
                   == (inject_Z n - Qabs x / pow2 e) * pow2 e)%Q) by (field; lra).
      rewrite X, Qabs_Qmult, (Qabs_pos (pow2 e)) by lra.
      assert (Y : (pow2 (e - 1) == (1 # 2) * pow2 e)%Q).
      { replace (e - 1) with (- 1 + e) by lia. rewrite pow2_add. reflexivity. }
      rewrite Y. apply Qmult_le_compat_r; [exact N|lra]. }
    assert (Bd : (pow2 (e - 1) <= Qabs x * pow2 (- 53) + pow2 (- 1075))%Q).
    { destruct (Z_le_gt_dec (-1022) (ilog2 (Qabs x))) as [G|G].
      - replace (e - 1) with (ilog2 (Qabs x) + - 53) by (unfold e; lia).
        rewrite pow2_add.
        assert ((pow2 (ilog2 (Qabs x)) * pow2 (-53) <= Qabs x * pow2 (-53))%Q).
        { apply Qmult_le_compat_r; lra. }
        lra.
      - replace (e - 1) with (- 1075) by (unfold e; lia).
        assert (0 <= Qabs x * pow2 (-53))%Q by (apply Qmult_le_0_compat; lra). lra. }
    destruct (Qle_bool (0 # 1) x) eqn:S; rewrite Qred_correct; fold n.
    + apply Qle_bool_iff in S. rewrite (Qabs_pos x S) in *. lra.
    + assert (Nx : (x <= 0)%Q).
      { apply Qlt_le_weak, Qnot_le_lt. intros T. apply Qle_bool_iff in T. congruence. }
      rewrite (Qabs_neg x Nx) in *.
      assert (X : (- (inject_Z n * pow2 e) - x == - (inject_Z n * pow2 e - - x))%Q) by ring.
      rewrite X, Qabs_opp. lra.
Qed.

Lemma on_grid_Permutation k l l' :
  Permutation l l' -> on_grid k l = true -> on_grid k l' = true.
Proof.
  intros P. unfold on_grid. intros H.
  apply andb_true_iff in H as [H H5]. apply andb_true_iff in H as [H H4].
  apply andb_true_iff in H as [H H3].
  rewrite <- (Permutation_length P), H3.
  apply andb_true_iff in H as [H1 H2]. rewrite H1, H2. simpl.
  apply andb_true_iff. split.
  - rewrite forallb_forall in *. intros v Hv. apply H4.
    apply (Permutation_in _ (Permutation_sym P)), Hv.
  - unfold Js.Qlt_bool in *. apply negb_true_iff in H5. apply negb_true_iff.
    apply not_true_is_false. intros L. apply Qle_bool_iff in L.
    assert (L' : Qle_bool (grid_bound k) (sum_of (map Qabs l)) = true).
    { apply Qle_bool_iff. unfold sum_of in *.
      rewrite (sum_Permutation _ _ (Permutation_map Qabs P)). exact L. }
    congruence.
Qed.

Lemma rounded_mean_double vs : rounded_mean vs = double (mean vs).
Proof. destruct vs; reflexivity. Qed.

Lemma rounded_mean_Permutation l l' :
  Permutation l l' -> rounded_mean l = rounded_mean l'.
Proof.
  intros P. rewrite !rounded_mean_double. apply double_proper, mean_Permutation, P.
Qed.

(** On a grid, [COALESCE(AVG(x), 0)] is the rounded mean. *)
Lemma coalesce_avg_on_grid k vs :
  on_grid k vs = true -> coalesce0 (sql_avg vs) = rounded_mean vs.
Proof.
  intros G. destruct vs as [|v vs]; [reflexivity|].
  rewrite (sql_avg_on_grid k (v :: vs) G) by discriminate. reflexivity.
Qed.

(** C7, as stated, fails: the store aggregate is not the exact mean.  A store
    with the ratings 1, 1 and 2 is listed with the double next to 4/3,
    1.3333333333333333, which is not 4/3. *)
Lemma store_aggregate_rounds_four_thirds :
  let d := mkDb [mkUser 1 "Default System Admin" "admin@example.com" "Admin Address" Admin]
                [mkStore 7 "Corner shop" (Some 3)]
                [mkRating 1 2 (PInt 7) (1 # 1) 10 10;
                 mkRating 2 4 (PInt 7) (1 # 1) 11 11;
                 mkRating 3 5 (PInt 7) (2 # 1) 12 12] 3 [] 0 in
  exec 20 (adminStores (Token (mkPayload 1 Admin))) d
  = (mkResponse 200
       (StoresJson [mkStoreAvg 7 "Corner shop" (6004799503160661 # 4503599627370496)]),
     d) /\
  store_values 7 d = [(1 # 1)%Q; (1 # 1)%Q; (2 # 1)%Q] /\
  (mean (store_values 7 d) == 4 # 3)%Q /\
  ~ (6004799503160661 # 4503599627370496 == mean (store_values 7 d))%Q.
Proof.
  intros d. split; [vm_compute; reflexivity|]. split; [reflexivity|].
  split; [reflexivity|]. intros H. vm_compute in H. discriminate H.
Qed.

(** C7, amended: with store ids a primary key, the listing of stores has one
    row per store, which carries SQLite's AVG over the values of the store's
    Ratings, and the listing of users has one row per user, which carries
    the owner aggregate for an owner-role user and NULL for any other.  An
    aggregate is the number 0, not NULL, over no Rating.  Over values on a
    binary grid (whole ratings, and halves, among them) it is the mean rounded
    to the nearest double, whatever the order of the scan: within half a
    unit in the last place of the mean, and the mean itself where that is a
    double, as 4.5 for the values 4 and 5. *)
Theorem aggregates_are_rounded_means (admin : payload) (now : Z) (d : db) :
  p_role admin = Admin ->
  stores_pk d ->
  exec now (adminStores (Token admin)) d
  = (mkResponse 200
       (StoresJson
          (order_by_name sa_name
             (map (fun s => mkStoreAvg (s_id s) (s_name s)
                              (coalesce0 (sql_avg (store_values (s_id s) d))))
                (stores d)))), d) /\
  exec now (adminUsers (Token admin)) d
  = (mkResponse 200
       (UsersJson
          (order_by_name uv_name
             (map (fun u => mkUserView (u_id u) (u_name u) (u_email u) (u_address u)
                              (u_role u) (owner_rating u d))
                (users d)))), d) /\
  (forall u,
     (u_role u <> Owner -> owner_rating u d = None) /\
     (u_role u = Owner ->
        (exists avg, owner_rating u d = Some avg) /\
        (owner_values (u_id u) d = [] -> owner_rating u d = Some (0 # 1)%Q) /\
        (forall k, on_grid k (owner_values (u_id u) d) = true ->
           owner_rating u d = Some (rounded_mean (owner_values (u_id u) d))))) /\
  (forall vs,
     (vs = [] -> coalesce0 (sql_avg vs) = (0 # 1)%Q) /\
     (forall k, on_grid k vs = true -> coalesce0 (sql_avg vs) = rounded_mean vs) /\
     (vs <> [] -> rounded_mean vs = double (mean vs)) /\
     (Qabs (rounded_mean vs - mean vs)
      <= Qabs (mean vs) * pow2 (- 53) + pow2 (- 1075))%Q /\
     ((double (mean vs) == mean vs)%Q -> (rounded_mean vs == mean vs)%Q)) /\
  rounded_mean [(4 # 1)%Q; (5 # 1)%Q] = (9 # 2)%Q.
Proof.
  intros Hrole PK. split; [|split; [|split; [|split]]].
  - unfold adminStores, authenticate, requireRole. rewrite Hrole.
    simpl. f_equal. f_equal. f_equal. f_equal.
    apply map_ext_in. intros s Hs. unfold avg_rating, store_values.
    rewrite (column_group_of_left_join r_rating s d PK Hs). reflexivity.
  - unfold adminUsers, authenticate, requireRole. rewrite Hrole. reflexivity.
  - intros u.
    pose proof (owner_join_values (u_id u) d PK) as P.
    unfold owner_rating. split.
    + intros N. rewrite bool_decide_eq_false_2 by exact N. reflexivity.
    + intros Ho. rewrite bool_decide_eq_true_2 by exact Ho.
      split; [eexists; reflexivity|]. split.
      * intros E. rewrite E in P. apply Permutation_sym, Permutation_nil in P.
        rewrite P. reflexivity.
      * intros k G. f_equal.
        rewrite (coalesce_avg_on_grid k _ (on_grid_Permutation k _ _ (Permutation_sym P) G)).
        apply rounded_mean_Permutation, P.
  - intros vs. split; [intros ->; reflexivity|]. split; [intros k; apply coalesce_avg_on_grid|].
    split; [intros _; apply rounded_mean_double|].
    rewrite rounded_mean_double. split; [apply double_error|tauto].
  - reflexivity.
Qed.

(** ** Two rating calls for one pair, interleaved *)

(** Both lookups run before either insert: the first insert commits, the
    second breaks UNIQUE (user_id, store_id) and its call answers 500. *)
Example interleaved_lookups_refuse_second_insert :
  let user := Token (mkPayload 2 Normal) in
  let f := run_sched [(First, 1); (Second, 2); (First, 3); (Second, 4); (First, 5)]
             (mkFlight (submitRating user (PInt 7) (Js.Num (4 # 1)))
                       (submitRating user (PInt 7) (Js.Num (5 # 1))) initDb) in
  answered (first f)
    = Some (mkResponse 201 (RatingJson (Some (mkRatingView 1 2 (PInt 7) (4 # 1))))) /\
  answered (second f) = Some server_error /\
  ratings (store f) = [mkRating 1 2 (PInt 7) (4 # 1) 3 3].
Proof. repeat split. Qed.

(** C9, as stated, fails: the upsert of the rating route is not one atomic
    write.  With both lookups ahead of both inserts, the call that inserts
    second is answered 500 'Server error', which neither order of running the
    two calls one after the other can produce. *)
Lemma submitRating_upsert_not_atomic :
  ~ atomic (submitRating (Token (mkPayload 2 Normal)) (PInt 7) (Js.Num (4 # 1)))
           (submitRating (Token (mkPayload 2 Normal)) (PInt 7) (Js.Num (5 # 1)))
           initDb.
Proof.
  intros A.
  destruct (A [(First, 1); (Second, 2); (First, 3); (Second, 4); (First, 5)]
              _ _ eq_refl eq_refl) as [tA [tB [H|H]]];
    vm_compute in H; discriminate H.
Qed.

Section InFlight.

Variables (user : payload) (sid : param).

Lemma lookup_id_row d id :
  lookup_id (p_id user) sid d = Some id ->
  exists row, lookup_rating (p_id user) sid d = Some row /\ r_id row = id.
Proof.
  unfold lookup_id. destruct (lookup_rating (p_id user) sid d) as [row|]; simpl;
    [|discriminate].
  intros [= <-]. exists row. split; reflexivity.
Qed.

Lemma lookup_rating_update (hit : rating_row -> bool) q now d seq :
  lookup_rating (p_id user) sid
    (set_ratings d
       (map (fun r => if hit r
                      then mkRating (r_id r) (r_user r) (r_store r) q (r_created r) now
                      else r) (ratings d)) seq)
  = (fun r => if hit r
              then mkRating (r_id r) (r_user r) (r_store r) q (r_created r) now
              else r) <$> lookup_rating (p_id user) sid d.
Proof.
  unfold lookup_rating; simpl. apply find_map_stable.
  intros a. destruct (hit a); reflexivity.
Qed.

Lemma stage_step q now d last n p :
  in_range q ->
  stage user sid q d last n p ->
  agrees (p_id user) sid d last ->
  exists n',
    (n' <= pred n)%nat /\
    stage user sid q (snd (step now p d)) (bump (commits now p d) last) n'
      (fst (step now p d)) /\
    agrees (p_id user) sid (snd (step now p d)) (bump (commits now p d) last) /\
    advance (p_id user) sid d last (snd (step now p d)) (bump (commits now p d) last).
Proof.
  intros R S G. destruct S as [|id L|N|id c L N|r L N].
  - (* the lookup *)
    unfold rating_handler. rewrite (in_range_guard _ R). simpl.
    exists 2%nat. split; [lia|]. split; [|split; [exact G|]].
    + destruct (List.find (rating_key (p_id user) sid) (ratings d)) as [row|] eqn:F;
        simpl.
      * apply at_update. unfold lookup_id, lookup_rating. rewrite F. reflexivity.
      * apply at_insert. unfold lookup_id, lookup_rating. rewrite F. simpl. congruence.
    + split; [tauto|]. left. split; reflexivity.
  - (* the UPDATE *)
    destruct (lookup_id_row d id L) as [row [F I]].
    assert (Hhit : existsb (fun r => bool_decide (r_id r = id)) (ratings d) = true).
    { apply existsb_exists. exists row. split.
      - apply (List.find_some _ _ F).
      - apply bool_decide_eq_true. exact I. }
    assert (E : run_stmt now (UpdateRating (Some q) id) d =
                inr (changed (fun r => bool_decide (r_id r = id)) (ratings d),
                     set_ratings d
                       (map (fun r => if bool_decide (r_id r = id)
                                      then mkRating (r_id r) (r_user r) (r_store r) q
                                             (r_created r) now
                                      else r) (ratings d)) (ratings_seq d))).
    { simpl. rewrite Hhit. unfold rating_value. rewrite (in_range_check _ R).
      reflexivity. }
    unfold after_found, step, commits. rewrite E. simpl. rewrite Hhit.
    assert (L' : lookup_rating (p_id user) sid
                   (set_ratings d
                      (map (fun r => if bool_decide (r_id r = id)
                                     then mkRating (r_id r) (r_user r) (r_store r) q
                                            (r_created r) now
                                     else r) (ratings d)) (ratings_seq d))
                 = Some (mkRating (r_id row) (r_user row) (r_store row) q
                           (r_created row) now)).
    { rewrite (lookup_rating_update (fun r => bool_decide (r_id r = id))), F. simpl.
      rewrite (bool_decide_eq_true_2 _ I). reflexivity. }
    exists 1%nat. split; [lia|]. split; [|split].
    + apply (at_reread user sid q _ _ id 200).
      * unfold lookup_id. rewrite L'. discriminate.
      * discriminate.
    + eexists. split; [exact L'|reflexivity].
    + split; [|right; discriminate].
      intros id' L0. unfold lookup_id. rewrite L'. simpl. congruence.
  - (* the INSERT *)
    unfold after_missing, step, commits. simpl.
    unfold rating_value. rewrite (in_range_check _ R).
    destruct (existsb (rating_key (p_id user) sid) (ratings d)) eqn:E; simpl.
    + assert (L : lookup_id (p_id user) sid d <> None).
      { unfold lookup_id, lookup_rating.
        destruct (List.find (rating_key (p_id user) sid) (ratings d)) eqn:F;
          [discriminate|].
        apply find_none_existsb in F. congruence. }
      exists 0%nat. split; [lia|]. split; [|split; [exact G|]].
      * apply at_done; [exact L|exact (N L)].
      * split; [tauto|]. left. split; reflexivity.
    + apply find_none_existsb in E.
      assert (L' : lookup_rating (p_id user) sid
                     (set_ratings d
                        (ratings d ++
                         [mkRating (next_rowid (ratings_seq d) (map r_id (ratings d)))
                            (p_id user) sid q now now])
                        (next_rowid (ratings_seq d) (map r_id (ratings d))))
                   = Some (mkRating (next_rowid (ratings_seq d) (map r_id (ratings d)))
                             (p_id user) sid q now now)).
      { unfold lookup_rating; simpl. rewrite (find_app_none _ _ _ E).
        unfold rating_key; simpl. rewrite !bool_decide_eq_true_2 by reflexivity.
        reflexivity. }
      exists 1%nat. split; [lia|]. split; [|split].
      * apply (at_reread user sid q _ _ _ 201).
        -- unfold lookup_id. rewrite L'. discriminate.
        -- discriminate.
      * eexists. split; [exact L'|reflexivity].
      * split; [|right; discriminate].
        intros id' L0. unfold lookup_id, lookup_rating in L0. rewrite E in L0.
        discriminate.
  - (* reading the row back *)
    unfold reread, step, commits. simpl.
    exists 0%nat. split; [lia|]. split; [|split; [exact G|]].
    + apply at_done; assumption.
    + split; [tauto|]. left. split; reflexivity.
  - (* answered *)
    simpl. exists 0%nat. split; [lia|]. split; [|split; [exact G|]].
    + apply at_done; assumption.
    + split; [tauto|]. left. split; reflexivity.
Qed.

(** The other call stays where it is while this one steps. *)
Lemma stage_mono q d last d' last' n p :
  stage user sid q d last n p ->
  advance (p_id user) sid d last d' last' ->
  stage user sid q d' last' n p.
Proof.
  intros S [M C].
  assert (Hrow : lookup_id (p_id user) sid d <> None ->
                 lookup_id (p_id user) sid d' <> None).
  { intros L. destruct (lookup_id (p_id user) sid d) as [id|] eqn:E; [|congruence].
    rewrite (M id eq_refl). discriminate. }
  assert (Hlast : last <> None -> last' <> None).
  { intros N. destruct C as [[_ ->]|C]; assumption. }
  destruct S as [|id L|N|id c L N|r L N].
  - apply at_start.
  - apply at_update, M, L.
  - apply at_insert. intros L'.
    destruct C as [[-> ->]|C]; [exact (N L')|exact C].
  - apply at_reread; auto.
  - apply at_done; auto.
Qed.

Lemma in_flight_turn qA qB t now f last nA nB :
  in_range qA -> in_range qB ->
  in_flight user sid qA qB f last nA nB ->
  exists nA' nB',
    in_flight user sid qA qB (turn_step t now f)
      (bump (commits now (pick t f) (store f)) last) nA' nB' /\
    (nA' <= nA - turns First [(t, now)])%nat /\
    (nB' <= nB - turns Second [(t, now)])%nat.
Proof.
  intros RA RB (SA & SB & G). destruct t; unfold turn_step, pick.
  - destruct (stage_step qA now _ last nA _ RA SA G) as (n' & Hn & S' & G' & Adv).
    destruct (step now (first f) (store f)) as [p d'] eqn:E. simpl in *.
    exists n', nB. split; [|split; [unfold turns; simpl; lia|unfold turns; simpl; lia]].
    split; [exact S'|]. split; [|exact G'].
    simpl. eapply stage_mono; eassumption.
  - destruct (stage_step qB now _ last nB _ RB SB G) as (n' & Hn & S' & G' & Adv).
    destruct (step now (second f) (store f)) as [p d'] eqn:E. simpl in *.
    exists nA, n'. split; [|split; [unfold turns; simpl; lia|unfold turns; simpl; lia]].
    split; [|split; [exact S'|exact G']].
    simpl. eapply stage_mono; eassumption.
Qed.

Lemma turns_cons t x sched :
  turns t (x :: sched) = (turns t [x] + turns t sched)%nat.
Proof.
  unfold turns; simpl.
  destruct (match fst x, t with
            | First, First | Second, Second => true
            | _, _ => false
            end); reflexivity.
Qed.

Lemma in_flight_run qA qB sched :
  in_range qA -> in_range qB ->
  forall f last nA nB,
    in_flight user sid qA qB f last nA nB ->
    exists nA' nB',
      in_flight user sid qA qB (run_sched sched f) (last_commit sched f last) nA' nB' /\
      (nA' <= nA - turns First sched)%nat /\
      (nB' <= nB - turns Second sched)%nat.
Proof.
  intros RA RB. induction sched as [|[t now] sched IH]; intros f last nA nB I.
  - exists nA, nB. simpl. split; [exact I|]. unfold turns; simpl. lia.
  - destruct (in_flight_turn qA qB t now f last nA nB RA RB I)
      as (n1 & n2 & I1 & H1 & H2).
    destruct (IH _ _ _ _ I1) as (nA' & nB' & I2 & H3 & H4).
    exists nA', nB'. simpl. split; [exact I2|].
    rewrite (turns_cons First), (turns_cons Second). lia.
Qed.

Lemma run_sched_unique sched : forall f,
  ratings_unique (store f) -> ratings_unique (store (run_sched sched f)).
Proof.
  induction sched as [|[t now] sched IH]; intros f U; simpl; [exact U|].
  apply IH. destruct t; unfold turn_step.
  - pose proof (step_unique now (first f) (store f) U) as H.
    destruct (step now (first f) (store f)); exact H.
  - pose proof (step_unique now (second f) (store f) U) as H.
    destruct (step now (second f) (store f)); exact H.
Qed.

Lemma stage_answered q d last n p r :
  in_range q ->
  stage user sid q d last n p ->
  answered p = Some r ->
  lookup_id (p_id user) sid d <> None /\ last <> None.
Proof.
  intros R S A. destruct S as [|id L|N|id c L N|r' L N]; try discriminate A.
  - unfold rating_handler in A. rewrite (in_range_guard _ R) in A. discriminate A.
  - split; assumption.
Qed.

Lemma stage_zero q d last p :
  stage user sid q d last 0 p -> exists r, answered p = Some r.
Proof. intros S. inversion S; subst. eexists. reflexivity. Qed.

Lemma lookup_counted d row :
  lookup_rating (p_id user) sid d = Some row ->
  (1 <= rating_count (p_id user) sid d)%nat.
Proof.
  unfold lookup_rating, rating_count. intros F.
  apply List.find_some in F as [Hin K].
  assert (H : In row (List.filter (rating_key (p_id user) sid) (ratings d))).
  { apply List.filter_In. split; assumption. }
  destruct (List.filter (rating_key (p_id user) sid) (ratings d)); simpl in *; [tauto|lia].
Qed.

(** C9, amended: two rating calls of one user for one store, with values
    in range, interleaved at their awaits in any way.  The pair never has
    more than one Rating; three turns each let both calls answer; and once
    both have answered the pair has exactly one Rating, whose value is that
    of the rating write committed last.  (The call whose insert the
    constraint refuses commits nothing and answers 500.) *)
Theorem concurrent_submitRating_one_row
    (qA qB : Q) (sched : list (turn * Z)) (d : db) :
  in_range qA -> in_range qB ->
  ratings_unique d ->
  let f0 := mkFlight (submitRating (Token user) sid (Js.Num qA))
                     (submitRating (Token user) sid (Js.Num qB)) d in
  let f := run_sched sched f0 in
  ratings_unique (store f) /\
  ((3 <= turns First sched)%nat -> (3 <= turns Second sched)%nat ->
   exists rA rB, answered (first f) = Some rA /\ answered (second f) = Some rB) /\
  (forall rA rB,
     answered (first f) = Some rA -> answered (second f) = Some rB ->
     rating_count (p_id user) sid (store f) = 1%nat /\
     exists row,
       lookup_rating (p_id user) sid (store f) = Some row /\
       last_commit sched f0 None = Some (r_rating row)).
Proof.
  intros RA RB U f0 f.
  assert (I0 : in_flight user sid qA qB f0 None 3 3).
  { repeat split; apply at_start. }
  destruct (in_flight_run qA qB sched RA RB f0 None 3 3 I0)
    as (nA & nB & (SA & SB & G) & HA & HB).
  fold f in SA, SB, G.
  assert (Uf : ratings_unique (store f)) by (apply run_sched_unique; exact U).
  split; [exact Uf|]. split.
  - intros TA TB.
    assert (nA = 0%nat) by lia. assert (nB = 0%nat) by lia. subst nA nB.
    destruct (stage_zero _ _ _ _ SA) as [rA HrA].
    destruct (stage_zero _ _ _ _ SB) as [rB HrB].
    exists rA, rB. split; assumption.
  - intros rA rB HrA HrB.
    destruct (stage_answered _ _ _ _ _ _ RA SA HrA) as [L N].
    destruct (last_commit sched f0 None) as [q|] eqn:E; [|congruence].
    destruct G as [row [F Q]].
    split.
    + pose proof (lookup_counted _ _ F). pose proof (Uf (p_id user) sid). lia.
    + exists row. split; [exact F|]. rewrite Q. reflexivity.
Qed.

End InFlight.

(** * The theorems at concrete inputs *)

Lemma in_range_4 : in_range (4 # 1).
Proof. split; unfold Qle; simpl; lia. Defined.

Lemma in_range_5 : in_range (5 # 1).
Proof. split; unfold Qle; simpl; lia. Defined.

Lemma initDb_unique : ratings_unique initDb.
Proof. intros uid sid. unfold rating_count. simpl. lia. Defined.

(** Three rating calls, two of them for the same pair, on the new database. *)
Lemma submitRating_at_most_one_rating_witness :
  let calls :=
    [(PostRating (Token (mkPayload 2 Normal)) (PInt 7) (Js.Num (4 # 1)), 10);
     (PostRating (Token (mkPayload 3 Normal)) (PInt 7) (Js.Num (2 # 1)), 11);
     (PostRating (Token (mkPayload 2 Normal)) (PInt 7) (Js.Num (5 # 1)), 12)] in
  ratings_unique initDb /\
  (rating_count 2 (PInt 7) (serve calls initDb) <= 1)%nat.
Proof.
  intros calls. split; [exact initDb_unique|].
  apply (submitRating_at_most_one_rating _ initDb initDb_unique).
Defined.

(** Resubmitting the stored value 4 at time 20: the row keeps its id and
    [createdAt = 10], and [updatedAt] becomes 20. *)
Lemma submitRating_creates_or_updates_witness :
  in_range (4 # 1) /\
  lookup_rating 2 (PInt 7)
    (snd (exec 20 (submitRating (Token (mkPayload 2 Normal)) (PInt 7) (Js.Num (4 # 1)))
            (set_ratings initDb [mkRating 1 2 (PInt 7) (4 # 1) 10 10] 1)))
  = Some (mkRating 1 2 (PInt 7) (4 # 1) 10 20).
Proof.
  split; [exact in_range_4|].
  pose proof (submitRating_creates_or_updates (mkPayload 2 Normal) (PInt 7) (4 # 1) 20
                (set_ratings initDb [mkRating 1 2 (PInt 7) (4 # 1) 10 10] 1)
                in_range_4) as H.
  simpl in H. apply H.
Defined.


(** An owner asking for the raters of store 99, which does not exist. *)
Lemma storeRaters_foreign_store_forbidden_witness :
  p_role (mkPayload 3 Owner) = Owner /\
  exec 10 (storeRaters (Token (mkPayload 3 Owner)) (PInt 99)) initDb
  = (mkResponse 403 (Message "Not your store"), initDb).
Proof.
  split; [reflexivity|].
  apply (storeRaters_foreign_store_forbidden (mkPayload 3 Owner) (PInt 99) 10 initDb
           eq_refl).
  intros s [].
Defined.

(** User 2 asks twice on the new database. *)
Lemma requestOwnerUpgrade_succeeds_once_witness :
  p_role (mkPayload 2 Normal) = Normal /\
  exists id,
    fst (exec 12 (requestOwnerUpgrade (Token (mkPayload 2 Normal))) initDb)
    = mkResponse 201 (RequestJson "Owner request submitted"
                        (Some (mkRequest id 2 Pending None 12 12))) /\
    exec 13 (requestOwnerUpgrade (Token (mkPayload 2 Normal)))
      (snd (exec 12 (requestOwnerUpgrade (Token (mkPayload 2 Normal))) initDb))
    = (ConflictError,
       snd (exec 12 (requestOwnerUpgrade (Token (mkPayload 2 Normal))) initDb)).
Proof.
  split; [reflexivity|].
  destruct (requestOwnerUpgrade_succeeds_once (mkPayload 2 Normal) 12 13 initDb eq_refl)
    as (id & H1 & _ & _ & _ & _ & H2).
  - intros q [].
  - exists id. split; [exact H1|exact H2].
Defined.

(** The administrator approves the request of user 2, who is in the users
    table as a normal user. *)
Lemma approve_pending_then_not_pending_witness :
  let d := set_requests
             (set_users initDb
                (users initDb ++ [mkUser 2 "A user with a long enough name" "u@example.com"
                                    "1 Main Street" Normal]))
             [mkRequest 1 2 Pending None 12 12] 1 in
  let out := exec 13 (approveOwnerRequest (Token (mkPayload 1 Admin)) (PInt 1)) d in
  lookup_request (PInt 1) d = Some (mkRequest 1 2 Pending None 12 12) /\
  lookup_request (PInt 1) (snd out) = Some (mkRequest 1 2 Approved None 12 13) /\
  map u_role (users (snd out)) = [Admin; Owner] /\
  exec 14 (rejectOwnerRequest (Token (mkPayload 1 Admin)) (PInt 1) None) (snd out)
  = (NotPendingError, snd out).
Proof.
  intros d out.
  destruct (approve_pending_then_not_pending (mkPayload 1 Admin) (PInt 1)
              (mkRequest 1 2 Pending None 12 12) 13 d eq_refl eq_refl eq_refl)
    as (_ & H1 & H2 & _ & H3).
  split; [reflexivity|]. split; [exact H1|]. split.
  - fold out in H2. rewrite H2. reflexivity.
  - apply (H3 [] (mkPayload 1 Admin) 14 None eq_refl).
Defined.

(** Store 7 of owner 3 with the ratings 4 and 5, and store 8 of the same
    owner with the ratings 1, 1 and 2. *)
Lemma aggregates_are_rounded_means_witness :
  let d := mkDb [mkUser 1 "Default System Admin" "admin@example.com" "Admin Address" Admin;
                 mkUser 3 "An owner with a long enough name" "o@example.com"
                   "2 Main Street" Owner]
                [mkStore 7 "Corner shop" (Some 3); mkStore 8 "Bakery" (Some 3)]
                [mkRating 1 2 (PInt 7) (4 # 1) 10 10;
                 mkRating 2 4 (PInt 7) (5 # 1) 11 11;
                 mkRating 3 2 (PInt 8) (1 # 1) 12 12;
                 mkRating 4 4 (PInt 8) (1 # 1) 13 13;
                 mkRating 5 5 (PInt 8) (2 # 1) 14 14] 5 [] 0 in
  p_role (mkPayload 1 Admin) = Admin /\
  stores_pk d /\
  on_grid 0 (owner_values 3 d) = true /\
  exec 20 (adminStores (Token (mkPayload 1 Admin))) d
  = (mkResponse 200
       (StoresJson [mkStoreAvg 8 "Bakery" (6004799503160661 # 4503599627370496);
                    mkStoreAvg 7 "Corner shop" (9 # 2)]), d) /\
  owner_rating (mkUser 3 "An owner with a long enough name" "o@example.com"
                  "2 Main Street" Owner) d
  = Some (rounded_mean [(4 # 1)%Q; (5 # 1)%Q; (1 # 1)%Q; (1 # 1)%Q; (2 # 1)%Q]).
Proof.
  intros d.
  assert (PK : stores_pk d).
  { unfold stores_pk. simpl. repeat constructor; simpl; intuition discriminate. }
  split; [reflexivity|]. split; [exact PK|]. split; [vm_compute; reflexivity|].
  destruct (aggregates_are_rounded_means (mkPayload 1 Admin) 20 d eq_refl PK)
    as (H1 & _ & H3 & _).
  split.
  - rewrite H1. vm_compute. reflexivity.
  - destruct (H3 (mkUser 3 "An owner with a long enough name" "o@example.com"
                    "2 Main Street" Owner)) as [_ H].
    destruct (H eq_refl) as (_ & _ & G).
    apply (G 0). vm_compute. reflexivity.
Defined.

(** The two calls of user 2 for store 7, turn by turn. *)
Lemma concurrent_submitRating_one_row_witness :
  let sched := [(First, 1); (Second, 2); (First, 3); (Second, 4); (First, 5); (Second, 6)] in
  let f := run_sched sched
             (mkFlight (submitRating (Token (mkPayload 2 Normal)) (PInt 7) (Js.Num (4 # 1)))
                       (submitRating (Token (mkPayload 2 Normal)) (PInt 7) (Js.Num (5 # 1)))
                       initDb) in
  in_range (4 # 1) /\ in_range (5 # 1) /\ ratings_unique initDb /\
  rating_count 2 (PInt 7) (store f) = 1%nat.
Proof.
  intros sched f.
  split; [exact in_range_4|]. split; [exact in_range_5|]. split; [exact initDb_unique|].
  destruct (concurrent_submitRating_one_row (mkPayload 2 Normal) (PInt 7) (4 # 1) (5 # 1)
              sched initDb in_range_4 in_range_5 initDb_unique) as (_ & _ & H).
  destruct (H (mkResponse 201 (RatingJson (Some (mkRatingView 1 2 (PInt 7) (4 # 1)))))
              server_error eq_refl eq_refl) as [H1 _].
  exact H1.
Defined.

(** * Further properties of the server *)

(** ** Matching by derivatives is matching *)

Lemma nullable_lang r : Re.nullable r = true <-> Re.lang r [].
Proof.
  split.
  - induction r as [| |p|a IHa b IHb|a IHa b IHb|a IHa]; simpl; intros H;
      try discriminate.
    + constructor.
    + apply andb_true_iff in H as [Ha Hb].
      apply (Re.lang_seq a b [] []); auto.
    + apply orb_true_iff in H as [H|H]; [apply Re.lang_alt_l|apply Re.lang_alt_r]; auto.
    + constructor.
  - intros H. remember [] as w eqn:E.
    induction H as [|p c Hp|a b s t Ha IHa Hb IHb|a b s Ha IHa|a b s Hb IHb| |a s t Ha IHa Hs IHs];
      simpl; try reflexivity; try discriminate.
    + apply app_eq_nil in E as [-> ->]. rewrite IHa, IHb; reflexivity.
    + rewrite (IHa E). reflexivity.
    + rewrite (IHb E). apply orb_true_r.
Qed.

Lemma deriv_sound c r : forall s, Re.lang (Re.deriv c r) s -> Re.lang r (c :: s).
Proof.
  induction r as [| |p|a IHa b IHb|a IHa b IHb|a IHa]; simpl; intros s H.
  - inversion H.
  - inversion H.
  - destruct (p c) eqn:P; inversion H; subst. constructor. exact P.
  - destruct (Re.nullable a) eqn:Na.
    + inversion H as [| | |? ? ? H1|? ? ? H1| |]; subst.
      * inversion H1; subst. apply (Re.lang_seq a b (c :: _)); auto.
      * apply (Re.lang_seq a b [] (c :: s)); [apply nullable_lang, Na|auto].
    + inversion H; subst. apply (Re.lang_seq a b (c :: _)); auto.
  - inversion H; subst; [apply Re.lang_alt_l|apply Re.lang_alt_r]; auto.
  - inversion H; subst. apply (Re.lang_star_cons a (c :: _)); auto.
Qed.

Lemma deriv_complete c r s : Re.lang r (c :: s) -> Re.lang (Re.deriv c r) s.
Proof.
  intros H. remember (c :: s) as w eqn:E. revert c s E.
  induction H as [|p c0 Hp|a b s1 s2 Ha IHa Hb IHb|a b s1 Ha IHa|a b s1 Hb IHb|
                  |a s1 s2 Ha IHa Hs IHs]; intros c s E; simpl; try discriminate.
  - injection E as -> <-. rewrite Hp. constructor.
  - destruct s1 as [|c1 s1]; simpl in E.
    + subst s2. rewrite (proj2 (nullable_lang a) Ha).
      apply Re.lang_alt_r. apply IHb. reflexivity.
    + injection E as -> <-.
      pose proof (Re.lang_seq _ _ _ _ (IHa c s1 eq_refl) Hb) as S.
      destruct (Re.nullable a); [apply Re.lang_alt_l|]; exact S.
  - apply Re.lang_alt_l. apply IHa. exact E.
  - apply Re.lang_alt_r. apply IHb. exact E.
  - destruct s1 as [|c1 s1]; simpl in E.
    + apply IHs. exact E.
    + injection E as -> <-.
      apply Re.lang_seq; [apply IHa; reflexivity|exact Hs].
Qed.

Lemma test_lang r s : Re.test r s = true <-> Re.lang r s.
Proof.
  revert r. induction s as [|c s IH]; intros r; simpl.
  - apply nullable_lang.
  - rewrite IH. split; [apply deriv_sound|apply deriv_complete].
Qed.

Lemma lookahead_lang r s :
  Re.lookahead r s = true <-> exists u v, s = (u ++ v)%list /\ Re.lang r u.
Proof.
  revert r. induction s as [|c s IH]; intros r; simpl.
  - rewrite orb_false_r, nullable_lang. split.
    + intros H. exists [], []. split; [reflexivity|exact H].
    + intros (u & v & E & H). symmetry in E. apply app_eq_nil in E as [-> _]. exact H.
  - rewrite orb_true_iff, nullable_lang, IH. split.
    + intros [H|(u & v & -> & H)].
      * exists [], (c :: s). split; [reflexivity|exact H].
      * exists (c :: u), v. split; [reflexivity|apply deriv_sound, H].
    + intros (u & v & E & H). destruct u as [|c' u]; simpl in E.
      * left. exact H.
      * injection E as <- ->. right. exists u, v.
        split; [reflexivity|apply deriv_complete, H].
Qed.

Lemma lang_cls_inv p s : Re.lang (Re.Cls p) s -> exists c, s = [c] /\ p c = true.
Proof. intros H. inversion H; subst. eauto. Qed.

Lemma lang_seq_inv a b s :
  Re.lang (Re.Seq a b) s -> exists u v, s = (u ++ v)%list /\ Re.lang a u /\ Re.lang b v.
Proof. intros H. inversion H; subst. eauto. Qed.

Lemma lang_star_cls p s : Re.lang (Re.Star (Re.Cls p)) s <-> forallb p s = true.
Proof.
  split.
  - intros H. remember (Re.Star (Re.Cls p)) as r eqn:E.
    induction H as [| | | | | |a s t Ha _ Hs IHs]; try discriminate; [reflexivity|].
    injection E as ->. apply lang_cls_inv in Ha as (c & -> & Hc).
    simpl. rewrite Hc. apply IHs. reflexivity.
  - induction s as [|c s IH]; simpl; intros H; [constructor|].
    apply andb_true_iff in H as [Hc Hs].
    apply (Re.lang_star_cons _ [c] s); [constructor; exact Hc|apply IH, Hs].
Qed.

Lemma lang_plus_cls p s :
  Re.lang (Re.Plus (Re.Cls p)) s <-> s <> [] /\ forallb p s = true.
Proof.
  unfold Re.Plus. split.
  - intros H. apply lang_seq_inv in H as (u & v & -> & Hu & Hv).
    apply lang_cls_inv in Hu as (c & -> & Hc). apply lang_star_cls in Hv.
    simpl. rewrite Hc, Hv. split; [discriminate|reflexivity].
  - intros [N H]. destruct s as [|c s]; [congruence|]. simpl in H.
    apply andb_true_iff in H as [Hc Hs].
    apply (Re.lang_seq _ _ [c] s); [constructor; exact Hc|apply lang_star_cls, Hs].
Qed.

Lemma lang_rep_cls p n : forall s,
  Re.lang (Re.Rep n (Re.Cls p)) s <-> length s = n /\ forallb p s = true.
Proof.
  induction n as [|n IH]; intros s; simpl.
  - split.
    + intros H. inversion H; subst. split; reflexivity.
    + intros [L _]. destruct s; [constructor|discriminate].
  - split.
    + intros H. apply lang_seq_inv in H as (u & v & -> & Hu & Hv).
      apply lang_cls_inv in Hu as (c & -> & Hc). apply IH in Hv as [L F].
      simpl. rewrite Hc, F, L. split; reflexivity.
    + intros [L F]. destruct s as [|c s]; [discriminate|]. simpl in *.
      apply andb_true_iff in F as [Hc Hs].
      apply (Re.lang_seq _ _ [c] s); [constructor; exact Hc|].
      apply IH. split; [lia|exact Hs].
Qed.

Lemma lang_upto_cls p n : forall s,
  Re.lang (Re.UpTo n (Re.Cls p)) s <-> (length s <= n)%nat /\ forallb p s = true.
Proof.
  induction n as [|n IH]; intros s; simpl.
  - split.
    + intros H. inversion H; subst. split; [simpl; lia|reflexivity].
    + intros [L _]. destruct s; [constructor|simpl in L; lia].
  - split.
    + intros H. inversion H as [| | |? ? ? H1|? ? ? H1| |]; subst.
      * inversion H1; subst. split; [simpl; lia|reflexivity].
      * apply lang_seq_inv in H1 as (u & v & -> & Hu & Hv).
        apply lang_cls_inv in Hu as (c & -> & Hc). apply IH in Hv as [L F].
        simpl. rewrite Hc, F. split; [lia|reflexivity].
    + intros [L F]. destruct s as [|c s].
      * apply Re.lang_alt_l. constructor.
      * simpl in *. apply andb_true_iff in F as [Hc Hs].
        apply Re.lang_alt_r.
        apply (Re.lang_seq _ _ [c] s); [constructor; exact Hc|].
        apply IH. split; [lia|exact Hs].
Qed.

Lemma lang_range_cls p m n s :
  (m <= n)%nat ->
  Re.lang (Re.Range m n (Re.Cls p)) s <->
  (m <= length s <= n)%nat /\ forallb p s = true.
Proof.
  intros Hmn. unfold Re.Range. split.
  - intros H. apply lang_seq_inv in H as (u & v & -> & Hu & Hv).
    apply lang_rep_cls in Hu as [Lu Fu]. apply lang_upto_cls in Hv as [Lv Fv].
    rewrite length_app, forallb_app, Fu, Fv. split; [lia|reflexivity].
  - intros [L F]. rewrite <- (firstn_skipn m s) in F |- *.
    rewrite forallb_app in F. apply andb_true_iff in F as [F1 F2].
    apply Re.lang_seq.
    + apply lang_rep_cls. split; [rewrite length_firstn; lia|exact F1].
    + apply lang_upto_cls. split; [rewrite length_skipn; lia|exact F2].
Qed.

(** [(?=.*[class])] over units none of which is a line terminator: the class
    has a member among them. *)
Lemma lookahead_dots_then p s :
  forallb dot s = true ->
  Re.lookahead (Re.Seq (Re.Star (Re.Cls dot)) (Re.Cls p)) s = existsb p s.
Proof.
  intros D. apply eq_true_iff_eq. rewrite lookahead_lang, existsb_exists. split.
  - intros (u & v & -> & H). apply lang_seq_inv in H as (a & b & -> & _ & Hb).
    apply lang_cls_inv in Hb as (c & -> & Hc). exists c. split; [|exact Hc].
    apply in_or_app. left. apply in_or_app. right. left. reflexivity.
  - intros (c & Hin & Hc). apply in_split in Hin as (a & b & ->).
    exists (a ++ [c])%list, b. split; [rewrite <- app_assoc; reflexivity|].
    apply Re.lang_seq; [|constructor; exact Hc].
    apply lang_star_cls. rewrite forallb_app in D.
    apply andb_true_iff in D as [Da _]. exact Da.
Qed.

Lemma codes_length s : length (codes s) = String.length s.
Proof.
  unfold codes. rewrite length_map.
  induction s as [|a s IH]; simpl; [reflexivity|]. rewrite IH. reflexivity.
Qed.

(** ** The validators *)

(** X1: a password is accepted exactly when it has 8 to 16 code units, none
    of them a line terminator, one of them an upper-case letter A-Z and one
    of them a character of the special class. *)
Theorem validatePassword_accepts (password : string) :
  validatePassword password = true <->
  (8 <= String.length password <= 16)%nat /\
  forallb dot (codes password) = true /\
  existsb upper (codes password) = true /\
  existsb special (codes password) = true.
Proof.
  unfold validatePassword, passwordRegex_upper, passwordRegex_special,
    passwordRegex_body.
  rewrite !andb_true_iff, test_lang, (lang_range_cls dot 8 16) by lia.
  rewrite codes_length. split.
  - intros [[U S] [L D]].
    rewrite (lookahead_dots_then upper _ D) in U.
    rewrite (lookahead_dots_then special _ D) in S. tauto.
  - intros (L & D & U & S).
    rewrite (lookahead_dots_then upper _ D), (lookahead_dots_then special _ D). tauto.
Qed.

Lemma validatePassword_accepts_witness :
  validatePassword "Admin@123" = true.
Proof.
  apply (proj2 (validatePassword_accepts "Admin@123")).
  repeat split; simpl; lia.
Defined.

(** X2: an email is accepted exactly when it reads [local@domain.tail],
    where each of the three parts is non-empty and holds neither white space
    nor [@] (the dot that is singled out is any dot of the part after [@]
    that has a unit on both sides); so an accepted email has exactly one [@]
    and no white space. *)
Theorem validateEmail_accepts (email : string) :
  (validateEmail email = true <->
   exists l m n : list N,
     codes email = (l ++ [64%N] ++ m ++ [46%N] ++ n)%list /\
     l <> [] /\ m <> [] /\ n <> [] /\
     forallb email_atom l = true /\
     forallb email_atom m = true /\
     forallb email_atom n = true) /\
  (validateEmail email = true ->
   length (List.filter (N.eqb 64) (codes email)) = 1%nat /\
   existsb is_space (codes email) = false).
Proof.
  assert (S : validateEmail email = true <->
              exists l m n : list N,
                codes email = (l ++ [64%N] ++ m ++ [46%N] ++ n)%list /\
                l <> [] /\ m <> [] /\ n <> [] /\
                forallb email_atom l = true /\
                forallb email_atom m = true /\
                forallb email_atom n = true).
  { unfold validateEmail, emailRegex. rewrite test_lang. split.
    - intros H.
      apply lang_seq_inv in H as (l & r1 & E1 & Hl & H).
      apply lang_seq_inv in H as (a & r2 & E2 & Ha & H).
      apply lang_seq_inv in H as (m & r3 & E3 & Hm & H).
      apply lang_seq_inv in H as (b & n & E4 & Hb & Hn).
      apply lang_cls_inv in Ha as (ca & -> & Hca).
      apply lang_cls_inv in Hb as (cb & -> & Hcb).
      apply N.eqb_eq in Hca, Hcb. subst ca cb.
      apply lang_plus_cls in Hl as [Nl Fl], Hm as [Nm Fm], Hn as [Nn Fn].
      exists l, m, n. subst r3 r2 r1. rewrite E1. tauto.
    - intros (l & m & n & E & Nl & Nm & Nn & Fl & Fm & Fn). rewrite E.
      apply Re.lang_seq; [apply lang_plus_cls; tauto|].
      apply Re.lang_seq; [constructor; reflexivity|].
      apply Re.lang_seq; [apply lang_plus_cls; tauto|].
      apply Re.lang_seq; [constructor; reflexivity|].
      apply lang_plus_cls; tauto. }
  split; [exact S|].
  intros H. apply S in H as (l & m & n & E & _ & _ & _ & Fl & Fm & Fn).
  assert (A : forall s, forallb email_atom s = true ->
                        List.filter (N.eqb 64) s = [] /\ existsb is_space s = false).
  { induction s as [|c s IH]; cbn [forallb List.filter existsb]; intros F;
      [split; reflexivity|].
    apply andb_true_iff in F as [Fc Fs]. destruct (IH Fs) as [I1 I2].
    unfold email_atom in Fc. apply andb_true_iff in Fc as [Sp At].
    apply negb_true_iff in Sp, At. rewrite (N.eqb_sym 64 c), At, Sp, I1, I2.
    split; reflexivity. }
  destruct (A l Fl) as [L1 L2], (A m Fm) as [M1 M2], (A n Fn) as [N1 N2].
  rewrite E. rewrite !List.filter_app, !existsb_app, L1, L2, M1, M2, N1, N2.
  split; reflexivity.
Qed.

Lemma validateEmail_accepts_witness :
  validateEmail "admin@example.com" = true.
Proof.
  apply (proj2 (proj1 (validateEmail_accepts "admin@example.com"))).
  exists (codes "admin"), (codes "example"), (codes "com").
  repeat split; try discriminate; reflexivity.
Defined.

(** ** Requests that fail, and requests that read *)

Ltac split_route :=
  repeat first
    [ progress simpl
    | match goal with
      | |- context [match ?x with _ => _ end] =>
          lazymatch x with
          | context [match _ with _ => _ end] => fail
          | _ => destruct x eqn:?
          end
      end ].

(** X3: a request that is not answered 200 or 201 leaves the database as it
    was, whatever the route, the credential and the input; and a GET route
    leaves it as it was whatever it answers. *)
Theorem failed_request_changes_nothing (r : request) (now : Z) (d : db) :
  let out := exec now (route r) d in
  (code (fst out) <> 200 -> code (fst out) <> 201 -> snd out = d) /\
  (reads_only r = true -> snd out = d).
Proof.
  destruct r as [c sid v|c rid|c rid reason|c|c|c sid|c|c|c];
    unfold route, submitRating, approveOwnerRequest, rejectOwnerRequest,
      requestOwnerUpgrade, ownerRequestStatus, storeRaters, adminStores,
      ownerSummary, adminUsers, authenticate, requireRole, rating_handler,
      approve_handler, reject_handler, request_owner_handler, store_raters_handler;
    destruct c as [| |user]; simpl; try (split; intros; reflexivity);
    split_route; split; intros; try reflexivity; try congruence.
Qed.

Lemma failed_request_changes_nothing_witness :
  snd (exec 10 (route (PostRating (Token (mkPayload 2 Normal)) (PInt 7)
                         (Js.Num (6 # 1)))) initDb) = initDb.
Proof.
  apply (proj1 (failed_request_changes_nothing
                  (PostRating (Token (mkPayload 2 Normal)) (PInt 7) (Js.Num (6 # 1)))
                  10 initDb)); simpl; discriminate.
Defined.

(** ** Rejecting a request *)

(** X4: rejecting a pending request as an administrator stores the status
    rejected and the reason given, or the text 'Request rejected by admin'
    when the reason is absent or empty; the users table is untouched, and
    after whatever further requests an approve of the same request is
    answered 'Request is not pending' and changes nothing. *)
Theorem reject_pending_stores_reason
    (admin : payload) (rid : param) (q : request_row) (reason : option string)
    (now : Z) (d : db) :
  p_role admin = Admin ->
  lookup_request rid d = Some q ->
  q_status q = Pending ->
  let out := exec now (rejectOwnerRequest (Token admin) rid reason) d in
  let q' := mkRequest (q_id q) (q_user q) Rejected (Some (reason_or_default reason))
              (q_created q) now in
  fst out = mkResponse 200 (RequestJson "Owner request rejected" (Some q')) /\
  lookup_request rid (snd out) = Some q' /\
  users (snd out) = users d /\
  reason_or_default reason <> EmptyString /\
  (forall r, reason = Some r -> r <> EmptyString -> reason_or_default reason = r) /\
  (forall calls admin' now',
     p_role admin' = Admin ->
     let d2 := serve calls (snd out) in
     exec now' (approveOwnerRequest (Token admin') rid) d2 = (NotPendingError, d2)).
Proof.
  intros Hrole F P out q'.
  assert (Hout : out =
            (mkResponse 200 (RequestJson "Owner request rejected" (Some q')),
             set_requests d
               (map (fun x => if has_id rid x
                              then mkRequest (q_id x) (q_user x) Rejected
                                     (Some (reason_or_default reason)) (q_created x) now
                              else x) (owner_requests d))
               (requests_seq d))).
  { subst out. unfold lookup_request in F.
    unfold rejectOwnerRequest, authenticate, requireRole, reject_handler.
    rewrite Hrole. simpl. rewrite F, P. simpl.
    rewrite (find_set_status rid rid Rejected (fun _ => Some (reason_or_default reason))), F.
    simpl. apply List.find_some in F as [_ F]. rewrite F. reflexivity. }
  assert (L : lookup_request rid (snd out) = Some q').
  { rewrite Hout. unfold lookup_request in *. simpl.
    rewrite (find_set_status rid rid Rejected (fun _ => Some (reason_or_default reason))), F.
    simpl. apply List.find_some in F as [_ F]. rewrite F. reflexivity. }
  split; [rewrite Hout; reflexivity|]. split; [exact L|].
  split; [rewrite Hout; reflexivity|]. split; [|split].
  - unfold reason_or_default. destruct reason as [r|]; [|discriminate].
    destruct (bool_decide (r = EmptyString)) eqn:E; [discriminate|].
    apply bool_decide_eq_false in E. exact E.
  - intros r -> N. unfold reason_or_default.
    rewrite bool_decide_eq_false_2 by exact N. reflexivity.
  - intros calls admin' now' Hrole' d2.
    assert (D : decided rid d2).
    { apply serve_decided. exists q'. split; [exact L|]. discriminate. }
    apply (decide_on_decided admin' rid now' d2 Hrole' D).
Qed.

Lemma reject_pending_stores_reason_witness :
  let d := set_requests initDb [mkRequest 1 2 Pending None 12 12] 1 in
  lookup_request (PInt 1)
    (snd (exec 13 (rejectOwnerRequest (Token (mkPayload 1 Admin)) (PInt 1) None) d))
  = Some (mkRequest 1 2 Rejected (Some "Request rejected by admin") 12 13).
Proof.
  intros d.
  apply (reject_pending_stores_reason (mkPayload 1 Admin) (PInt 1)
           (mkRequest 1 2 Pending None 12 12) None 13 d eq_refl eq_refl eq_refl).
Defined.

(** ** Who can change a role *)

Lemma users_kept_without_admin_approve r now d :
  admin_approve r = false -> users (snd (exec now (route r) d)) = users d.
Proof.
  destruct r as [c sid v|c rid|c rid reason|c|c|c sid|c|c|c];
    unfold route, submitRating, approveOwnerRequest, rejectOwnerRequest,
      requestOwnerUpgrade, ownerRequestStatus, storeRaters, adminStores,
      ownerSummary, adminUsers, authenticate, requireRole, rating_handler,
      approve_handler, reject_handler, request_owner_handler, store_raters_handler;
    destruct c as [| |user]; simpl; intros A; try reflexivity;
    try (apply bool_decide_eq_false in A);
    split_route; try reflexivity.
  exfalso. apply A.
  match goal with H : negb (bool_decide (_ ∈ _)) = false |- _ =>
    apply negb_false_iff, bool_decide_eq_true in H;
    apply list_elem_of_In in H; destruct H as [H|[]]; symmetry; exact H end.
Qed.

(** ** Invariants of the tables *)

(** What every statement keeps, every handler and every sequence of
    requests keeps. *)
Lemma exec_invariant (P : db -> Prop) :
  (forall B now (s : stmt B) d b d', run_stmt now s d = inr (b, d') -> P d -> P d') ->
  forall p now d, P d -> P (snd (exec now p d)).
Proof.
  intros Hs p now. induction p as [r|B s k IH]; intros d Hd; simpl; [exact Hd|].
  destruct (run_stmt now s d) as [e|[b d']] eqn:E; simpl; [exact Hd|].
  apply IH. eapply Hs; eassumption.
Qed.

Lemma serve_invariant (P : db -> Prop) :
  (forall B now (s : stmt B) d b d', run_stmt now s d = inr (b, d') -> P d -> P d') ->
  forall calls d, P d -> P (serve calls d).
Proof.
  intros Hs calls. induction calls as [|[r now] calls IH]; intros d Hd; simpl;
    [exact Hd|].
  apply IH, exec_invariant; assumption.
Qed.

Lemma same_user_refl u : same_user_or_owner u u.
Proof. unfold same_user_or_owner. tauto. Qed.

Lemma Forall2_same_users_refl l : List.Forall2 same_user_or_owner l l.
Proof. induction l; constructor; [apply same_user_refl|assumption]. Qed.

Lemma Forall2_same_users_trans l1 l2 l3 :
  List.Forall2 same_user_or_owner l1 l2 ->
  List.Forall2 same_user_or_owner l2 l3 ->
  List.Forall2 same_user_or_owner l1 l3.
Proof.
  intros H. revert l3. induction H as [|a b l1 l2 Hab _ IH]; intros l3 H3.
  - inversion H3. constructor.
  - inversion H3 as [|b' c l2' l3' Hbc H3' E1 E2]; subst.
    constructor; [|apply IH, H3'].
    destruct Hab as (A1 & A2 & A3 & A4 & A5), Hbc as (B1 & B2 & B3 & B4 & B5).
    unfold same_user_or_owner.
    repeat split; try congruence.
    destruct A5 as [A5|A5], B5 as [B5|B5]; [left|right|right|right]; congruence.
Qed.

Lemma run_stmt_same_users {B} now (s : stmt B) d b d' :
  run_stmt now s d = inr (b, d') ->
  List.Forall2 same_user_or_owner (users d) (users d').
Proof.
  intros H.
  destruct s; simpl in H;
    try (injection H as _ <-; apply Forall2_same_users_refl).
  - destruct (existsb _ (ratings d)); [|injection H as _ <-; apply Forall2_same_users_refl].
    destruct (rating_value v); [discriminate|].
    injection H as _ <-. apply Forall2_same_users_refl.
  - destruct (rating_value v); [discriminate|].
    destruct (existsb _ (ratings d)); [discriminate|].
    injection H as _ <-. apply Forall2_same_users_refl.
  - injection H as _ <-. simpl.
    induction (users d) as [|u l IH]; simpl; constructor; [|exact IH].
    destruct (bool_decide (u_id u = uid)); unfold same_user_or_owner; simpl; tauto.
  - destruct (existsb _ (owner_requests d)); [discriminate|].
    injection H as _ <-. apply Forall2_same_users_refl.
Qed.

Lemma users_keep_identity_rows (calls : list (request * Z)) (d : db) :
  List.Forall2 same_user_or_owner (users d) (users (serve calls d)).
Proof.
  apply (serve_invariant (fun d' => List.Forall2 same_user_or_owner (users d) (users d'))).
  - intros B now s d1 b d2 H H1.
    eapply Forall2_same_users_trans; [exact H1|].
    eapply run_stmt_same_users, H.
  - apply Forall2_same_users_refl.
Qed.

Lemma NoDup_snoc {A} (l : list A) x :
  List.NoDup l -> ~ In x l -> List.NoDup (l ++ [x]).
Proof.
  intros N H. induction l as [|a l IH]; simpl.
  - constructor; [tauto|constructor].
  - apply List.NoDup_cons_iff in N as [Na N]. constructor.
    + intros I. apply in_app_or in I as [I|[I|[]]]; [tauto|].
      subst. apply H. left. reflexivity.
    + apply IH; [exact N|]. intros I. apply H. right. exact I.
Qed.

Lemma map_update_key {A K} (key : A -> K) (f : A -> A) l :
  (forall a, key (f a) = key a) -> map key (map f l) = map key l.
Proof.
  intros H. rewrite map_map. apply map_ext. exact H.
Qed.

Lemma run_stmt_keys {B} now (s : stmt B) d b d' :
  run_stmt now s d = inr (b, d') -> keys_ok d -> keys_ok d'.
Proof.
  intros H (K1 & K2 & K3). unfold keys_ok.
  destruct s; simpl in H; try (injection H as _ <-; simpl; tauto).
  - destruct (existsb _ (ratings d)); [|injection H as _ <-; tauto].
    destruct (rating_value v); [discriminate|].
    injection H as _ <-. simpl.
    rewrite (map_update_key r_id);
      [tauto|intros a; destruct (bool_decide (r_id a = id)); reflexivity].
  - destruct (rating_value v); [discriminate|].
    destruct (existsb _ (ratings d)); [discriminate|].
    injection H as _ <-. simpl. rewrite map_app. simpl.
    repeat split; try assumption.
    apply NoDup_snoc; [exact K1|]. intros I.
    pose proof (next_rowid_fresh (ratings_seq d) _ _ I). lia.
  - injection H as _ <-. simpl.
    rewrite (map_update_key q_id), (map_update_key q_user);
      [tauto|intros a; destruct (has_id rid a); reflexivity..].
  - injection H as _ <-. simpl.
    rewrite (map_update_key q_id), (map_update_key q_user);
      [tauto|intros a; destruct (has_id rid a); reflexivity..].
  - destruct (existsb _ (owner_requests d)) eqn:E; [discriminate|].
    injection H as _ <-. simpl. rewrite !map_app. simpl.
    repeat split; try assumption.
    + apply NoDup_snoc; [exact K2|]. intros I.
      pose proof (next_rowid_fresh (requests_seq d) _ _ I). lia.
    + apply NoDup_snoc; [exact K3|]. intros I.
      apply in_map_iff in I as [x [Ex Hx]].
      assert (T : existsb (fun q => bool_decide (q_user q = uid)) (owner_requests d) = true).
      { apply existsb_exists. exists x. split; [exact Hx|].
        apply bool_decide_eq_true. exact Ex. }
      congruence.
Qed.

(** X7: any sequence of requests keeps the rowids of ratings and of
    owner_requests pairwise distinct and keeps at most one owner request per
    user, whatever its status; and it leaves the stores table as it was. *)
Theorem keys_are_kept (calls : list (request * Z)) (d : db) :
  keys_ok d ->
  keys_ok (serve calls d) /\ stores (serve calls d) = stores d.
Proof.
  intros K. split.
  - apply (serve_invariant keys_ok); [|exact K].
    intros B now s d1 b d2 H. eapply run_stmt_keys, H.
  - apply (serve_invariant (fun d' => stores d' = stores d)); [|reflexivity].
    intros B now s d1 b d2 H <-.
    destruct s; simpl in H; try (injection H as _ <-; reflexivity).
    + destruct (existsb _ (ratings d1)); [|injection H as _ <-; reflexivity].
      destruct (rating_value v); [discriminate|]. injection H as _ <-. reflexivity.
    + destruct (rating_value v); [discriminate|].
      destruct (existsb _ (ratings d1)); [discriminate|].
      injection H as _ <-. reflexivity.
    + destruct (existsb _ (owner_requests d1)); [discriminate|].
      injection H as _ <-. reflexivity.
Qed.

Lemma keys_are_kept_witness :
  keys_ok initDb /\
  keys_ok (serve [(PostRequestOwner (Token (mkPayload 2 Normal)), 12);
                  (PostRating (Token (mkPayload 2 Normal)) (PInt 7) (Js.Num (4 # 1)), 14)]
             initDb).
Proof.
  assert (K : keys_ok initDb) by (repeat split; constructor).
  split; [exact K|]. apply (keys_are_kept _ initDb K).
Defined.

(** ** What a rating call leaves, for the reads that follow *)

(** X8: a rating call with a value in range adds one to the rating count of
    the administrator's summary when the pair had no Rating, and leaves the
    three counts as they were when it had one. *)
Theorem summary_counts_after_rating
    (admin user : payload) (sid : param) (q : Q) (now : Z) (d : db) :
  p_role admin = Admin ->
  in_range q ->
  let d' := snd (exec now (submitRating (Token user) sid (Js.Num q)) d) in
  adminSummary (Token admin) d
  = (mkReply 200 (CountsJson (Z.of_nat (length (users d)))
                    (Z.of_nat (length (stores d)))
                    (Z.of_nat (length (ratings d)))), d) /\
  adminSummary (Token admin) d'
  = (mkReply 200 (CountsJson (Z.of_nat (length (users d)))
                    (Z.of_nat (length (stores d)))
                    (Z.of_nat (length (ratings d))
                     + match lookup_rating (p_id user) sid d with
                       | Some _ => 0
                       | None => 1
                       end)), d').
Proof.
  intros Hrole R d'. unfold adminSummary, gated, authenticated.
  rewrite Hrole. simpl. split; [reflexivity|].
  unfold catching, sql_bind, count_rows, sql_ret. f_equal. f_equal.
  subst d'. rewrite (rating_route_state user sid q now d R).
  destruct (lookup_rating (p_id user) sid d); simpl.
  - rewrite length_map, Z.add_0_r. reflexivity.
  - rewrite length_app. simpl. f_equal. lia.
Qed.

Lemma summary_counts_after_rating_witness :
  fst (adminSummary (Token (mkPayload 1 Admin))
         (snd (exec 10 (submitRating (Token (mkPayload 2 Normal)) (PInt 7)
                          (Js.Num (4 # 1))) initDb)))
  = mkReply 200 (CountsJson 1 0 1).
Proof.
  destruct (summary_counts_after_rating (mkPayload 1 Admin) (mkPayload 2 Normal)
              (PInt 7) (4 # 1) 10 initDb eq_refl in_range_4) as [_ H].
  rewrite H. reflexivity.
Defined.

(** ** The raters of a store *)

Lemma In_insert_desc x y l : In y (insert_desc x l) <-> y = x \/ In y l.
Proof.
  induction l as [|a l IH]; simpl; [intuition congruence|].
  destruct (rt_updated a <=? rt_updated x); simpl; [intuition congruence|].
  rewrite IH. intuition congruence.
Qed.

Lemma In_order_by_updated_desc y l : In y (order_by_updated_desc l) <-> In y l.
Proof.
  induction l as [|a l IH]; simpl; [tauto|].
  rewrite In_insert_desc, IH. intuition congruence.
Qed.

Lemma insert_desc_sorted x l : newest_first l -> newest_first (insert_desc x l).
Proof.
  unfold newest_first. induction l as [|a l IH]; simpl; intros S.
  - constructor; constructor.
  - apply StronglySorted_inv in S as [S F].
    destruct (rt_updated a <=? rt_updated x) eqn:E.
    + apply Z.leb_le in E. constructor; [constructor; assumption|].
      constructor; [exact E|].
      eapply List.Forall_impl; [|exact F]. simpl. intros z Hz. lia.
    + apply Z.leb_gt in E. constructor; [apply IH, S|].
      apply List.Forall_forall. intros z Hz. apply In_insert_desc in Hz as [->|Hz].
      * lia.
      * apply (proj1 (List.Forall_forall _ _) F z Hz).
Qed.

Lemma order_by_updated_desc_sorted l : newest_first (order_by_updated_desc l).
Proof.
  induction l as [|a l IH]; simpl; [constructor|]. apply insert_desc_sorted, IH.
Qed.

(** The rows of the raters query: one per Rating of the store whose user is
    in the users table. *)
Lemma In_raters v sid d :
  In v (flat_map (fun r =>
                    map (fun u => mkRater (u_id u) (u_name u) (u_email u)
                                    (u_address u) (r_rating r)
                                    (r_created r) (r_updated r))
                      (List.filter (fun u => bool_decide (u_id u = r_user r))
                         (users d)))
          (List.filter (fun r => bool_decide (r_store r = sid)) (ratings d)))
  <-> exists r u,
        In r (ratings d) /\ r_store r = sid /\
        In u (users d) /\ u_id u = r_user r /\
        v = mkRater (u_id u) (u_name u) (u_email u) (u_address u)
              (r_rating r) (r_created r) (r_updated r).
Proof.
  rewrite in_flat_map. split.
  - intros (r & Hr & Hv). apply List.filter_In in Hr as [Hr Sr].
    apply bool_decide_eq_true in Sr.
    apply in_map_iff in Hv as (u & <- & Hu). apply List.filter_In in Hu as [Hu Eu].
    apply bool_decide_eq_true in Eu. exists r, u. tauto.
  - intros (r & u & Hr & Sr & Hu & Eu & ->). exists r. split.
    + apply List.filter_In. split; [exact Hr|]. apply bool_decide_eq_true. exact Sr.
    + apply in_map_iff. exists u. split; [reflexivity|].
      apply List.filter_In. split; [exact Hu|]. apply bool_decide_eq_true. exact Eu.
Qed.

Lemma storeRaters_owned (owner : payload) (s : store_row) (now : Z) (d : db) :
  p_role owner = Owner ->
  In s (stores d) ->
  s_owner s = Some (p_id owner) ->
  exec now (storeRaters (Token owner) (PInt (s_id s))) d
  = (mkResponse 200
       (RatersJson
          (order_by_updated_desc
             (flat_map (fun r =>
                          map (fun u => mkRater (u_id u) (u_name u) (u_email u)
                                          (u_address u) (r_rating r)
                                          (r_created r) (r_updated r))
                            (List.filter (fun u => bool_decide (u_id u = r_user r))
                               (users d)))
                (List.filter (fun r => bool_decide (r_store r = PInt (s_id s)))
                   (ratings d))))), d).
Proof.
  intros Hrole Hs Ho.
  unfold storeRaters, authenticate, requireRole, store_raters_handler.
  rewrite Hrole. simpl.
  destruct (List.find _ (stores d)) as [s'|] eqn:F; simpl; [reflexivity|].
  exfalso. pose proof (List.find_none _ _ F s Hs) as N. simpl in N.
  rewrite Ho, !bool_decide_eq_true_2 in N by reflexivity. discriminate.
Qed.

(** X9: the owner of a store gets, for that store, one row per Rating of
    the store whose user is in the users table, with the user's columns and
    the rating, most recently updated first; the database is untouched. *)
Theorem storeRaters_lists_raters_newest_first
    (owner : payload) (s : store_row) (now : Z) (d : db) :
  p_role owner = Owner ->
  In s (stores d) ->
  s_owner s = Some (p_id owner) ->
  exists raters,
    exec now (storeRaters (Token owner) (PInt (s_id s))) d
    = (mkResponse 200 (RatersJson raters), d) /\
    newest_first raters /\
    forall v,
      In v raters <->
      exists r u,
        In r (ratings d) /\ r_store r = PInt (s_id s) /\
        In u (users d) /\ u_id u = r_user r /\
        v = mkRater (u_id u) (u_name u) (u_email u) (u_address u)
              (r_rating r) (r_created r) (r_updated r).
Proof.
  intros Hrole Hs Ho. eexists. split; [apply storeRaters_owned; assumption|].
  split; [apply order_by_updated_desc_sorted|].
  intros v. rewrite In_order_by_updated_desc. apply In_raters.
Qed.

Lemma storeRaters_lists_raters_newest_first_witness :
  let d := mkDb [mkUser 2 "A user with a long enough name" "u@example.com"
                   "1 Main Street" Normal;
                 mkUser 4 "Another user with a long name" "v@example.com"
                   "3 Main Street" Normal]
                [mkStore 7 "Corner shop" (Some 3)]
                [mkRating 1 2 (PInt 7) (4 # 1) 10 10;
                 mkRating 2 4 (PInt 7) (5 # 1) 11 11] 2 [] 0 in
  exists raters,
    exec 20 (storeRaters (Token (mkPayload 3 Owner)) (PInt 7)) d
    = (mkResponse 200 (RatersJson raters), d) /\
    newest_first raters.
Proof.
  intros d.
  destruct (storeRaters_lists_raters_newest_first (mkPayload 3 Owner)
              (mkStore 7 "Corner shop" (Some 3)) 20 d eq_refl (or_introl eq_refl) eq_refl)
    as (raters & H & S & _).
  exists raters. split; [exact H|exact S].
Defined.

(** X10: once a user who is in the users table has rated a store with a
    value in range, the owner of the store finds that user among the raters
    of the store, with that value and the time of the call. *)
Theorem rating_reaches_store_owner
    (user owner : payload) (u : user_row) (s : store_row) (q : Q)
    (now now' : Z) (d : db) :
  in_range q ->
  In u (users d) -> u_id u = p_id user ->
  p_role owner = Owner ->
  In s (stores d) -> s_owner s = Some (p_id owner) ->
  let d' := snd (exec now (submitRating (Token user) (PInt (s_id s)) (Js.Num q)) d) in
  exists raters v,
    exec now' (storeRaters (Token owner) (PInt (s_id s))) d'
    = (mkResponse 200 (RatersJson raters), d') /\
    In v raters /\
    rt_id v = p_id user /\ rt_name v = u_name u /\
    rt_rating v = q /\ rt_updated v = now.
Proof.
  intros R Hu Eu Hrole Hs Ho d'.
  destruct (rating_route_lookup user (PInt (s_id s)) q now d R)
    as (row & L & Ru & Rs & Rq & Rt). fold d' in L.
  assert (Hd' : users d' = users d /\ stores d' = stores d).
  { subst d'. rewrite (rating_route_state user (PInt (s_id s)) q now d R).
    destruct (lookup_rating _ _ d); split; reflexivity. }
  destruct Hd' as [Ud Sd].
  eexists. exists (mkRater (u_id u) (u_name u) (u_email u) (u_address u)
                     (r_rating row) (r_created row) (r_updated row)).
  split; [apply storeRaters_owned; [exact Hrole|rewrite Sd; exact Hs|exact Ho]|].
  split.
  - apply In_order_by_updated_desc, In_raters. exists row, u.
    apply List.find_some in L as [Hrow _].
    rewrite Ud. repeat split; try assumption. congruence.
  - simpl. repeat split; congruence.
Qed.

Lemma rating_reaches_store_owner_witness :
  let d := mkDb [mkUser 2 "A user with a long enough name" "u@example.com"
                   "1 Main Street" Normal]
                [mkStore 7 "Corner shop" (Some 3)] [] 0 [] 0 in
  let d' := snd (exec 10 (submitRating (Token (mkPayload 2 Normal)) (PInt 7)
                            (Js.Num (4 # 1))) d) in
  exists raters v,
    exec 11 (storeRaters (Token (mkPayload 3 Owner)) (PInt 7)) d'
    = (mkResponse 200 (RatersJson raters), d') /\
    In v raters /\ rt_id v = 2 /\ rt_rating v = (4 # 1)%Q /\ rt_updated v = 10.
Proof.
  intros d d'.
  destruct (rating_reaches_store_owner (mkPayload 2 Normal) (mkPayload 3 Owner)
              (mkUser 2 "A user with a long enough name" "u@example.com"
                 "1 Main Street" Normal)
              (mkStore 7 "Corner shop" (Some 3)) (4 # 1) 10 11 d in_range_4
              (or_introl eq_refl) eq_refl eq_refl (or_introl eq_refl) eq_refl)
    as (raters & v & H & Hin & H1 & _ & H2 & H3).
  exists raters, v. repeat split; assumption.
Defined.

(** ** The request a user sees *)

Lemma request_route_state (user : payload) (now : Z) (d : db) :
  p_role user = Normal ->
  (forall q, In q (owner_requests d) -> q_user q <> p_id user) ->
  snd (exec now (requestOwnerUpgrade (Token user)) d)
  = set_requests d
      (owner_requests d ++
       [mkRequest (next_rowid (requests_seq d) (map q_id (owner_requests d)))
          (p_id user) Pending None now now])
      (next_rowid (requests_seq d) (map q_id (owner_requests d))).
Proof.
  intros Hrole Hnone.
  unfold requestOwnerUpgrade, authenticate, requireRole, request_owner_handler.
  rewrite Hrole. simpl.
  assert (E : existsb (fun q => bool_decide (q_user q = p_id user)) (owner_requests d)
              = false).
  { apply not_true_is_false. intros E. apply existsb_exists in E as [x [Hin E]].
    apply bool_decide_eq_true in E. exact (Hnone x Hin E). }
  assert (F : List.find
                (fun q => bool_decide (q_user q = p_id user)
                          && (bool_decide (q_status q = Pending)
                              || bool_decide (q_status q = Approved)))
                (owner_requests d) = None).
  { apply find_none_existsb, not_true_is_false. intros X.
    apply existsb_exists in X as [x [Hin X]]. apply andb_true_iff in X as [X _].
    apply bool_decide_eq_true in X. exact (Hnone x Hin X). }
  rewrite F. simpl. rewrite E. reflexivity.
Qed.

(** X11: a normal-role user without request is shown no request by the
    status route; right after the upgrade request, the status route shows
    the pending request just created, and changes nothing. *)
Theorem status_shows_new_request (user : payload) (now now' : Z) (d : db) :
  p_role user = Normal ->
  (forall q, In q (owner_requests d) -> q_user q <> p_id user) ->
  let d1 := snd (exec now (requestOwnerUpgrade (Token user)) d) in
  exec now' (ownerRequestStatus (Token user)) d
  = (mkResponse 200 (StatusJson None), d) /\
  exists id,
    exec now' (ownerRequestStatus (Token user)) d1
    = (mkResponse 200
         (StatusJson (Some (mkRequest id (p_id user) Pending None now now))), d1).
Proof.
  intros Hrole Hnone d1.
  assert (F : List.find (fun q => bool_decide (q_user q = p_id user)) (owner_requests d)
              = None).
  { apply find_none_existsb, not_true_is_false. intros X.
    apply existsb_exists in X as [x [Hin X]].
    apply bool_decide_eq_true in X. exact (Hnone x Hin X). }
  split.
  - unfold ownerRequestStatus, authenticate, requireRole. rewrite Hrole. simpl.
    rewrite F. reflexivity.
  - subst d1. rewrite (request_route_state user now d Hrole Hnone).
    eexists. unfold ownerRequestStatus, authenticate, requireRole.
    rewrite Hrole. simpl. rewrite (find_app_none _ _ _ F). simpl.
    rewrite bool_decide_eq_true_2 by reflexivity. reflexivity.
Qed.

Lemma status_shows_new_request_witness :
  let user := mkPayload 2 Normal in
  exists id,
    fst (exec 13 (ownerRequestStatus (Token user))
           (snd (exec 12 (requestOwnerUpgrade (Token user)) initDb)))
    = mkResponse 200 (StatusJson (Some (mkRequest id 2 Pending None 12 12))).
Proof.
  intros user.
  destruct (status_shows_new_request user 12 13 initDb eq_refl) as [_ (id & H)].
  - intros q [].
  - exists id. rewrite H. reflexivity.
Defined.

Lemma find_by_user_unique (l : list request_row) q :
  List.NoDup (map q_user l) -> In q l ->
  List.find (fun x => bool_decide (q_user x = q_user q)) l = Some q.
Proof.
  induction l as [|a l IH]; simpl; intros N Hin; [tauto|].
  apply List.NoDup_cons_iff in N as [Na N].
  destruct Hin as [->|Hin].
  - rewrite bool_decide_eq_true_2 by reflexivity. reflexivity.
  - rewrite bool_decide_eq_false_2; [apply IH; assumption|].
    intros E. apply Na. rewrite E. apply in_map. exact Hin.
Qed.

(** X12: with at most one request per user, the decision of the
    administrator is what the requesting user is shown next: after an
    approve the status route shows the request approved, after a reject it
    shows it rejected, with the reason stored. *)
Theorem status_shows_decision
    (admin user : payload) (rid : param) (q : request_row)
    (reason : option string) (now now' : Z) (d : db) :
  keys_ok d ->
  p_role admin = Admin ->
  p_role user = Normal -> p_id user = q_user q ->
  lookup_request rid d = Some q ->
  q_status q = Pending ->
  let da := snd (exec now (approveOwnerRequest (Token admin) rid) d) in
  let dr := snd (exec now (rejectOwnerRequest (Token admin) rid reason) d) in
  fst (exec now' (ownerRequestStatus (Token user)) da)
  = mkResponse 200
      (StatusJson (Some (mkRequest (q_id q) (q_user q) Approved (q_reason q)
                           (q_created q) now))) /\
  fst (exec now' (ownerRequestStatus (Token user)) dr)
  = mkResponse 200
      (StatusJson (Some (mkRequest (q_id q) (q_user q) Rejected
                           (Some (reason_or_default reason)) (q_created q) now))).
Proof.
  intros (_ & _ & K) Hadmin Hrole Hid F P da dr.
  unfold lookup_request in F.
  pose proof (List.find_some _ _ F) as [Hin Hq].
  pose proof (find_by_user_unique _ q K Hin) as U.
  assert (Da : owner_requests da =
               map (fun x => if has_id rid x
                             then mkRequest (q_id x) (q_user x) Approved (q_reason x)
                                    (q_created x) now
                             else x) (owner_requests d)).
  { subst da. unfold approveOwnerRequest, authenticate, requireRole, approve_handler.
    rewrite Hadmin. simpl. rewrite F, P. reflexivity. }
  assert (Dr : owner_requests dr =
               map (fun x => if has_id rid x
                             then mkRequest (q_id x) (q_user x) Rejected
                                    (Some (reason_or_default reason)) (q_created x) now
                             else x) (owner_requests d)).
  { subst dr. unfold rejectOwnerRequest, authenticate, requireRole, reject_handler.
    rewrite Hadmin. simpl. rewrite F, P. reflexivity. }
  unfold ownerRequestStatus, authenticate, requireRole. rewrite Hrole. simpl.
  rewrite Da, Dr, Hid.
  rewrite !(find_map_stable (fun x => bool_decide (q_user x = q_user q))), U.
  - simpl. rewrite Hq. split; reflexivity.
  - intros a. destruct (has_id rid a); reflexivity.
  - intros a. destruct (has_id rid a); reflexivity.
Qed.

Lemma status_shows_decision_witness :
  let d := set_requests initDb [mkRequest 1 2 Pending None 12 12] 1 in
  fst (exec 14 (ownerRequestStatus (Token (mkPayload 2 Normal)))
         (snd (exec 13 (rejectOwnerRequest (Token (mkPayload 1 Admin)) (PInt 1)
                          (Some "Does not meet criteria")) d)))
  = mkResponse 200
      (StatusJson (Some (mkRequest 1 2 Rejected (Some "Does not meet criteria") 12 13))).
Proof.
  intros d.
  assert (K : keys_ok d).
  { repeat split; simpl; repeat constructor; simpl; tauto. }
  apply (status_shows_decision (mkPayload 1 Admin) (mkPayload 2 Normal) (PInt 1)
           (mkRequest 1 2 Pending None 12 12) (Some "Does not meet criteria") 13 14 d
           K eq_refl eq_refl eq_refl eq_refl eq_refl).
Defined.

(** ** The store list of a user *)




(** ** Creating users *)

Lemma find_user_fresh (l : list user_row) :
  List.find (fun u => bool_decide (u_id u = next_rowid 0 (map u_id l))) l = None.
Proof.
  apply find_none_existsb, not_true_is_false. intros E.
  apply existsb_exists in E as [x [Hin E]]. apply bool_decide_eq_true in E.
  pose proof (next_rowid_fresh 0 (map u_id l) (u_id x) (in_map u_id _ _ Hin)). lia.
Qed.

(** The insert of a user followed by the select of the new row. *)
Lemma insert_then_select_user (name email address : string) (r : role) (d : db) :
  catching_unique
    (let* id := insert_user name email address r in
     let* created := select_user id in
     sql_ret (mkReply 201 (UserJson created))) d
  = if existsb (fun u => bool_decide (u_email u = email)) (users d)
    then (mkReply 400 (Info "Email already registered"), d)
    else
      let u := mkUser (next_rowid 0 (map u_id (users d))) name email address r in
      (mkReply 201 (UserJson (Some u)), set_users d (users d ++ [u])).
Proof.
  unfold catching_unique, sql_bind, insert_user, select_user, sql_ret.
  destruct (existsb _ (users d)); [reflexivity|]. simpl.
  rewrite (find_app_none _ _ _ (find_user_fresh (users d))). simpl.
  rewrite bool_decide_eq_true_2 by reflexivity. reflexivity.
Qed.

Lemma required_field_nil (x : option string) (check : string -> bool)
    (missing invalid : string) :
  check EmptyString = false ->
  (if negb (truthy x) then [missing]
   else if negb (check (text x)) then [invalid] else []) = []
  <-> check (text x) = true.
Proof.
  intros H0. destruct x as [s|]; simpl; [|rewrite H0; split; discriminate].
  destruct (bool_decide (s = EmptyString)) eqn:E; simpl.
  - apply bool_decide_eq_true in E. subst s. rewrite H0. split; discriminate.
  - destruct (check s); simpl; split; try discriminate; reflexivity.
Qed.

(** No error is reported exactly when the four validators accept. *)
Lemma validateFormData_nil (name email password address : option string) :
  validateFormData name email password address = [] <->
  validateName (text name) && validateEmail (text email)
  && validatePassword (text password) && validateAddress (text address) = true.
Proof.
  unfold validateFormData.
  rewrite !andb_true_iff.
  rewrite <- (required_field_nil name validateName "Name is required"
                "Name must be between 20 and 60 characters" eq_refl).
  rewrite <- (required_field_nil email validateEmail "Email is required"
                "Email must be valid" eq_refl).
  rewrite <- (required_field_nil password validatePassword "Password is required"
                "Password must be 8-16 characters, include at least one uppercase letter and one special character"
                eq_refl).
  assert (A : (if truthy address && negb (validateAddress (text address))
               then ["Address must not exceed 400 characters"] else []) = []
              <-> validateAddress (text address) = true).
  { destruct address as [a|]; simpl; [|split; reflexivity].
    unfold validateAddress.
    destruct (bool_decide (a = EmptyString)); simpl; [split; reflexivity|].
    destruct (String.length a <=? 400)%nat; simpl; split; try discriminate; reflexivity. }
  rewrite <- A. split.
  - intros H. apply app_eq_nil in H as [H1 H].
    apply app_eq_nil in H as [H2 H]. apply app_eq_nil in H as [H3 H4]. tauto.
  - intros [[[H1 H2] H3] H4]. rewrite H1, H2, H3, H4. reflexivity.
Qed.

(** X14: signup creates a user only for a form that passes the four
    validators and an email no user has; the new row gets a fresh id, the
    fields of the form and the role normal, whatever role the body asks
    for, and the other rows are untouched.  An email already there is
    answered 400 'Email already registered', an invalid form 400 'Validation
    failed', both without a change. *)
Theorem signup_creates_normal_user (body : user_form) (d : db) :
  let out := signup body d in
  let valid := validateName (text (f_name body))
               && validateEmail (text (f_email body))
               && validatePassword (text (f_password body))
               && validateAddress (text (f_address body)) in
  let taken := existsb (fun u => bool_decide (u_email u = text (f_email body)))
                 (users d) in
  (valid = false ->
   reply_code (fst out) = 400 /\ snd out = d /\
   exists errors, reply_json (fst out) = Failed "Validation failed" errors
                  /\ errors <> []) /\
  (valid = true -> taken = true ->
   out = (mkReply 400 (Info "Email already registered"), d)) /\
  (valid = true -> taken = false ->
   exists u,
     out = (mkReply 201 (UserJson (Some u)), set_users d (users d ++ [u])) /\
     u_role u = Normal /\
     u_name u = text (f_name body) /\ u_email u = text (f_email body) /\
     u_address u = text (f_address body) /\
     forall x, In x (users d) -> u_id x < u_id u).
Proof.
  intros out valid taken. subst out valid taken. unfold signup.
  destruct body as [name email address password role]; simpl.
  pose proof (validateFormData_nil name email password address) as V.
  destruct (validateFormData name email password address) as [|e errors] eqn:E.
  - assert (V' := proj1 V eq_refl). rewrite V'. simpl.
    rewrite insert_then_select_user.
    split; [discriminate|]. split.
    + intros _ T. simpl. rewrite T. reflexivity.
    + intros _ T. simpl. rewrite T. eexists. split; [reflexivity|]. simpl.
      repeat split. intros x Hx.
      apply next_rowid_fresh, in_map, Hx.
  - destruct (validateName (text name) && validateEmail (text email)
              && validatePassword (text password) && validateAddress (text address))
      eqn:B.
    + pose proof (proj2 V eq_refl) as X. discriminate X.
    + simpl. split; [|split; discriminate].
      intros _. repeat split. exists (e :: errors). split; [reflexivity|discriminate].
Qed.

Lemma signup_creates_normal_user_witness :
  let body := mkUserForm (Some "Rejection Test User Name Here") (Some "r@example.com")
                (Some "Test Address") (Some "TestPass@123") (Some "admin") in
  exists u,
    signup body initDb
    = (mkReply 201 (UserJson (Some u)), set_users initDb (users initDb ++ [u])) /\
    u_role u = Normal.
Proof.
  intros body.
  destruct (signup_creates_normal_user body initDb) as (_ & _ & H).
  destruct (H eq_refl eq_refl) as (u & Hu & Hr & _).
  exists u. split; [exact Hu|exact Hr].
Defined.

(** X15: the route that lets an administrator create users answers 401
    without a verified token and 403 to a token of another role, and changes
    nothing; for an administrator it refuses a role that is not one of
    admin, normal and owner with 400 'Invalid role', and otherwise creates,
    for a valid form and an unused email, a user with the role named. *)
Theorem createUser_needs_admin_and_role (c : credential) (body : user_form) (d : db) :
  let out := createUser c body d in
  (forall user, c = Token user -> p_role user <> Admin ->
     out = (mkReply 403 (Info "Forbidden"), d)) /\
  ((c = NoBearer \/ c = BadToken) -> reply_code (fst out) = 401 /\ snd out = d) /\
  (forall admin, c = Token admin -> p_role admin = Admin ->
     match role_of_text (f_role body) with
     | None => out = (mkReply 400 (Info "Invalid role"), d)
     | Some role =>
         validateFormData (f_name body) (f_email body) (f_password body)
           (f_address body) = [] ->
         existsb (fun u => bool_decide (u_email u = text (f_email body))) (users d)
         = false ->
         exists u,
           out = (mkReply 201 (UserJson (Some u)), set_users d (users d ++ [u])) /\
           u_role u = role /\ u_email u = text (f_email body) /\
           forall x, In x (users d) -> u_id x < u_id u
     end).
Proof.
  intros out. subst out. unfold createUser, gated, authenticated.
  split; [|split].
  - intros user -> N. destruct (p_role user) eqn:E; [congruence|reflexivity..].
  - intros [->| ->]; split; reflexivity.
  - intros admin -> A. rewrite A. simpl.
    destruct (role_of_text (f_role body)) as [role|]; [|reflexivity].
    intros V T. rewrite V. simpl. rewrite insert_then_select_user, T.
    eexists. split; [reflexivity|]. simpl. repeat split.
    intros x Hx. apply next_rowid_fresh, in_map, Hx.
Qed.

Lemma createUser_needs_admin_and_role_witness :
  let body := mkUserForm (Some "Rejection Test User Name Here") (Some "r@example.com")
                (Some "Test Address") (Some "TestPass@123") (Some "owner") in
  createUser (Token (mkPayload 2 Normal)) body initDb
  = (mkReply 403 (Info "Forbidden"), initDb) /\
  exists u,
    createUser (Token (mkPayload 1 Admin)) body initDb
    = (mkReply 201 (UserJson (Some u)), set_users initDb (users initDb ++ [u])) /\
    u_role u = Owner.
Proof.
  intros body. split.
  - apply (proj1 (createUser_needs_admin_and_role (Token (mkPayload 2 Normal)) body initDb)
             (mkPayload 2 Normal) eq_refl). discriminate.
  - destruct (createUser_needs_admin_and_role (Token (mkPayload 1 Admin)) body initDb)
      as (_ & _ & H).
    destruct (H (mkPayload 1 Admin) eq_refl eq_refl eq_refl eq_refl) as (u & Hu & Hr & _).
    exists u. split; [exact Hu|exact Hr].
Defined.

(** Either route that inserts a user leaves the users table as it was or
    appends one row, whose email no row had. *)
Lemma insert_user_outcome (name email address : string) (r : role) (d : db) :
  let d' := snd (catching_unique
                   (let* id := insert_user name email address r in
                    let* created := select_user id in
                    sql_ret (mkReply 201 (UserJson created))) d) in
  users d' = users d \/
  exists u, users d' = (users d ++ [u])%list /\ ~ In (u_email u) (map u_email (users d)).
Proof.
  intros d'. subst d'. rewrite insert_then_select_user.
  destruct (existsb _ (users d)) eqn:E; [left; reflexivity|].
  right. eexists. split; [reflexivity|]. simpl. intros I.
  apply in_map_iff in I as [x [Ex Hx]].
  assert (T : existsb (fun u => bool_decide (u_email u = email)) (users d) = true).
  { apply existsb_exists. exists x. split; [exact Hx|].
    apply bool_decide_eq_true. exact Ex. }
  congruence.
Qed.

Lemma emails_unique_outcome d d' :
  emails_unique d ->
  (users d' = users d \/
   exists u, users d' = (users d ++ [u])%list /\ ~ In (u_email u) (map u_email (users d))) ->
  emails_unique d'.
Proof.
  unfold emails_unique. intros U [->|(u & -> & N)]; [exact U|].
  rewrite map_app. apply NoDup_snoc; assumption.
Qed.

Lemma same_users_emails l l' :
  List.Forall2 same_user_or_owner l l' -> map u_email l' = map u_email l.
Proof.
  induction 1 as [|a b l l' (_ & _ & Hab & _) _ IH]; simpl; [reflexivity|].
  rewrite Hab, IH. reflexivity.
Qed.

(** X16: no two users share an email: signup, the administrator's user
    creation and any sequence of the other requests keep the emails of the
    users table pairwise distinct. *)
Theorem emails_stay_unique (d : db) :
  emails_unique d ->
  (forall body, emails_unique (snd (signup body d))) /\
  (forall c body, emails_unique (snd (createUser c body d))) /\
  (forall calls, emails_unique (serve calls d)).
Proof.
  intros U. split; [|split].
  - intros body. apply (emails_unique_outcome d); [exact U|]. unfold signup.
    destruct (0 <? length _)%nat; [left; reflexivity|].
    apply insert_user_outcome.
  - intros c body. apply (emails_unique_outcome d); [exact U|].
    unfold createUser, gated.
    destruct (authenticated c) as [r|user]; [left; reflexivity|].
    destruct (negb _); [left; reflexivity|].
    destruct (role_of_text _); [|left; reflexivity].
    destruct (0 <? length _)%nat; [left; reflexivity|].
    apply insert_user_outcome.
  - intros calls. unfold emails_unique in *.
    rewrite (same_users_emails _ _ (users_keep_identity_rows calls d)). exact U.
Qed.

Lemma emails_stay_unique_witness :
  emails_unique initDb /\
  emails_unique
    (snd (signup (mkUserForm (Some "Rejection Test User Name Here")
                    (Some "r@example.com") (Some "Test Address")
                    (Some "TestPass@123") None) initDb)).
Proof.
  assert (U : emails_unique initDb).
  { unfold emails_unique. simpl. constructor; [simpl; tauto|constructor]. }
  split; [exact U|]. apply (proj1 (emails_stay_unique initDb U)).
Defined.

(** ** The users table under every route *)

(** What one call does to the users table: the rows it finds stay in place
    with their identity, a role staying or becoming owner, and at most one
    row is appended. *)
Lemma after_call_users (x : call) (d : db) :
  exists kept new,
    users (after_call x d) = (kept ++ new)%list /\
    List.Forall2 same_user_or_owner (users d) kept /\
    (approves x = false -> kept = users d) /\
    (adds_user x = false -> new = []) /\
    (adds_admin x = false -> List.Forall (fun u => u_role u <> Admin) new).
Proof.
  assert (Same : forall d', users d' = users d ->
            exists kept new,
              users d' = (kept ++ new)%list /\
              List.Forall2 same_user_or_owner (users d) kept /\
              (approves x = false -> kept = users d) /\
              (adds_user x = false -> new = []) /\
              (adds_admin x = false -> List.Forall (fun u => u_role u <> Admin) new)).
  { intros d' E. exists (users d), []. rewrite E, app_nil_r.
    split; [reflexivity|]. split; [apply Forall2_same_users_refl|].
    split; [reflexivity|]. split; [reflexivity|]. constructor. }
  assert (Ins : forall name email address r,
            (adds_user x = false -> False) ->
            (adds_admin x = false -> r <> Admin) ->
            exists kept new,
              users (snd (catching_unique
                            (let* id := insert_user name email address r in
                             let* created := select_user id in
                             sql_ret (mkReply 201 (UserJson created))) d))
              = (kept ++ new)%list /\
              List.Forall2 same_user_or_owner (users d) kept /\
              (approves x = false -> kept = users d) /\
              (adds_user x = false -> new = []) /\
              (adds_admin x = false -> List.Forall (fun u => u_role u <> Admin) new)).
  { intros name email address r Hu Ha. rewrite insert_then_select_user.
    destruct (existsb _ (users d)); [apply Same; reflexivity|].
    eexists (users d), [_]. split; [reflexivity|].
    split; [apply Forall2_same_users_refl|]. split; [reflexivity|].
    split; [intros F; destruct (Hu F)|].
    intros F. constructor; [exact (Ha F)|constructor]. }
  destruct x as [r now|body|c body|c name owner_id|c|c|c status|c]; simpl after_call.
  - exists (users (snd (exec now (route r) d))), []. rewrite app_nil_r.
    split; [reflexivity|]. split.
    + apply (users_keep_identity_rows [(r, now)] d).
    + split; [apply users_kept_without_admin_approve|]. split; [reflexivity|]. constructor.
  - unfold signup. destruct (0 <? length _)%nat; [apply Same; reflexivity|].
    apply Ins; simpl; [discriminate|discriminate].
  - unfold createUser, gated.
    destruct c as [| |p]; simpl authenticated; cbv iota; try (apply Same; reflexivity).
    destruct (bool_decide (p_role p ∈ [Admin])) eqn:G; simpl negb; cbv iota;
      [|apply Same; reflexivity].
    apply bool_decide_eq_true, list_elem_of_In in G. destruct G as [G|[]].
    destruct (role_of_text (f_role body)) as [r|] eqn:T; [|apply Same; reflexivity].
    destruct (0 <? length _)%nat; [apply Same; reflexivity|].
    apply Ins; simpl.
    + rewrite bool_decide_eq_true_2 by (symmetry; exact G). discriminate.
    + rewrite T, bool_decide_eq_true_2 by (symmetry; exact G). simpl.
      intros F ->. rewrite bool_decide_eq_true_2 in F by reflexivity. discriminate F.
  - apply Same. unfold createStore, gated.
    destruct (authenticated c); [reflexivity|]. destruct (negb _); [reflexivity|].
    unfold catching, sql_bind, insert_store, select_store, sql_ret.
    destruct name; [|reflexivity].
    destruct (foreign_keys && _); reflexivity.
  - apply Same. unfold adminSummary, gated.
    destruct (authenticated c); [reflexivity|]. destruct (negb _); reflexivity.
  - apply Same. unfold pendingOwnerRequests, gated.
    destruct (authenticated c); [reflexivity|]. destruct (negb _); reflexivity.
  - apply Same. unfold allOwnerRequests, gated.
    destruct (authenticated c); [reflexivity|]. destruct (negb _); reflexivity.
  - apply Same. unfold listStores. destruct (authenticated c); reflexivity.
Qed.

Lemma Forall2_same_users_not_admin l l' :
  List.Forall2 same_user_or_owner l l' ->
  List.Forall (fun u => u_role u <> Admin) l ->
  List.Forall (fun u => u_role u <> Admin) l'.
Proof.
  induction 1 as [|a b l l' (_ & _ & _ & _ & R) _ IH]; intros F; [constructor|].
  apply List.Forall_cons_iff in F as [Fa F]. constructor; [|apply IH, F].
  destruct R as [R|R]; rewrite R; [exact Fa|discriminate].
Qed.

(** The same through a sequence of calls. *)
Lemma after_calls_users (calls : list call) : forall d,
  exists kept new,
    users (after_calls calls d) = (kept ++ new)%list /\
    List.Forall2 same_user_or_owner (users d) kept /\
    (forallb (fun x => negb (approves x)) calls = true -> kept = users d) /\
    (forallb (fun x => negb (adds_user x)) calls = true -> new = []) /\
    (forallb (fun x => negb (adds_admin x)) calls = true ->
     List.Forall (fun u => u_role u <> Admin) new).
Proof.
  induction calls as [|x calls IH]; intros d.
  - exists (users d), []. simpl. rewrite app_nil_r.
    split; [reflexivity|]. split; [apply Forall2_same_users_refl|].
    split; [reflexivity|]. split; [reflexivity|]. constructor.
  - destruct (after_call_users x d) as (k1 & n1 & E1 & F1 & A1 & U1 & M1).
    destruct (IH (after_call x d)) as (k2 & n2 & E2 & F2 & A2 & U2 & M2).
    rewrite E1 in F2. apply Forall2_app_inv_l in F2 as (ka & kb & Fa & Fb & ->).
    exists ka, (kb ++ n2)%list. change (after_calls (x :: calls) d)
      with (after_calls calls (after_call x d)).
    split; [rewrite E2, app_assoc; reflexivity|].
    split; [eapply Forall2_same_users_trans; eassumption|].
    simpl forallb. split; [|split].
    + intros H. apply andb_true_iff in H as [Hx H]. apply negb_true_iff in Hx.
      specialize (A1 Hx). specialize (A2 H). subst k1.
      rewrite E1 in A2. apply (f_equal (@length _)) in A2 as L.
      rewrite !length_app in L.
      pose proof (Forall2_length _ _ _ Fa) as La. pose proof (Forall2_length _ _ _ Fb) as Lb.
      apply app_inj_1 in A2 as [A2 _]; [exact A2|lia].
    + intros H. apply andb_true_iff in H as [Hx H]. apply negb_true_iff in Hx.
      rewrite (U2 H), app_nil_r. rewrite (U1 Hx) in Fb. inversion Fb. reflexivity.
    + intros H. apply andb_true_iff in H as [Hx H]. apply negb_true_iff in Hx.
      apply List.Forall_app. split; [|exact (M2 H)].
      apply (Forall2_same_users_not_admin _ _ Fb), M1, Hx.
Qed.

(** X5: only an approve that carries an administrator's token changes a row
    of the users table.  Through any sequence of calls without one, every
    row of the table stays as it was, role included, and rows are only
    appended after them; without a signup and a user creation by an
    administrator either, the table stays as it was. *)
Theorem roles_change_only_by_admin_approve (calls : list call) (d : db) :
  forallb (fun x => negb (approves x)) calls = true ->
  (exists new, users (after_calls calls d) = (users d ++ new)%list) /\
  (forallb (fun x => negb (adds_user x)) calls = true ->
   users (after_calls calls d) = users d).
Proof.
  intros H. destruct (after_calls_users calls d) as (kept & new & E & _ & A & U & _).
  rewrite E, (A H). split; [exists new; reflexivity|].
  intros H'. rewrite (U H'), app_nil_r. reflexivity.
Qed.

Lemma roles_change_only_by_admin_approve_witness :
  let calls :=
    [Routed (PostRequestOwner (Token (mkPayload 2 Normal))) 12;
     Routed (PostApprove (Token (mkPayload 2 Normal)) (PInt 1)) 13;
     PostSignup (mkUserForm (Some "Rejection Test User Name Here")
                   (Some "r@example.com") (Some "Test Address")
                   (Some "TestPass@123") None);
     Routed (PostRating (Token (mkPayload 2 Normal)) (PInt 7) (Js.Num (4 # 1))) 14] in
  forallb (fun x => negb (approves x)) calls = true /\
  exists new, users (after_calls calls initDb) = (users initDb ++ new)%list.
Proof.
  intros calls. split; [reflexivity|].
  apply (proj1 (roles_change_only_by_admin_approve calls initDb eq_refl)).
Defined.

(** X6: through any sequence of calls the users table keeps its rows in
    place, each with its id, name, email and address and with a role that
    stayed or has become owner; new rows come after them, and no row is
    removed.  An administrator is made only by a user creation that carries
    an administrator's token and names the role admin: without one, every
    administrator of the table was one before. *)
Theorem users_keep_identity (calls : list call) (d : db) :
  (exists kept new,
     users (after_calls calls d) = (kept ++ new)%list /\
     List.Forall2 same_user_or_owner (users d) kept) /\
  (length (users d) <= length (users (after_calls calls d)))%nat /\
  (forallb (fun x => negb (adds_admin x)) calls = true ->
   forall u, In u (users (after_calls calls d)) -> u_role u = Admin ->
             exists u0, In u0 (users d) /\ u_id u0 = u_id u /\ u_role u0 = Admin).
Proof.
  destruct (after_calls_users calls d) as (kept & new & E & F & _ & _ & M).
  split; [exists kept, new; split; assumption|]. split.
  - rewrite E, length_app, <- (Forall2_length _ _ _ F). lia.
  - intros H u Hu A. rewrite E in Hu. apply in_app_or in Hu as [Hu|Hu].
    + clear E M. revert Hu. induction F as [|a b l l' Hab _ IH]; simpl; [tauto|].
      intros [->|Hu].
      * exists a. destruct Hab as (I & _ & _ & _ & [R|R]).
        -- split; [left; reflexivity|]. split; congruence.
        -- congruence.
      * destruct (IH Hu) as (u0 & H0 & H1). exists u0. tauto.
    + exfalso. pose proof (M H) as N. rewrite List.Forall_forall in N.
      apply (N u Hu A).
Qed.

Lemma users_keep_identity_witness :
  let calls :=
    [Routed (PostRequestOwner (Token (mkPayload 2 Normal))) 12;
     PostAdminUser (Token (mkPayload 1 Admin))
       (mkUserForm (Some "A second user with a long name") (Some "s@example.com")
          (Some "Test Address") (Some "TestPass@123") (Some "owner"));
     Routed (PostApprove (Token (mkPayload 1 Admin)) (PInt 1)) 13] in
  forallb (fun x => negb (adds_admin x)) calls = true /\
  map u_role (users (after_calls calls initDb)) = [Admin; Owner] /\
  (length (users initDb) <= length (users (after_calls calls initDb)))%nat /\
  exists u0, In u0 (users initDb) /\ u_id u0 = 1 /\ u_role u0 = Admin.
Proof.
  intros calls. split; [reflexivity|]. split; [reflexivity|].
  destruct (users_keep_identity calls initDb) as (_ & L & A).
  split; [exact L|].
  apply (A eq_refl (mkUser 1 "Default System Admin" "admin@example.com"
                      "Admin Address" Admin)); [left; reflexivity|reflexivity].
Defined.

(** ** Creating a store *)

Lemma find_store_fresh (l : list store_row) (p : store_row -> bool) :
  List.find (fun s => bool_decide (PInt (s_id s) = PInt (next_rowid 0 (map s_id l)))
                      && p s) l = None.
Proof.
  apply find_none_existsb, not_true_is_false. intros E.
  apply existsb_exists in E as [x [Hin E]]. apply andb_true_iff in E as [E _].
  apply bool_decide_eq_true in E. injection E as E.
  pose proof (next_rowid_fresh 0 (map s_id l) (s_id x) (in_map s_id _ _ Hin)). lia.
Qed.

(** X17: an administrator creates a store for any owner id, which the route
    does not look up: the store gets a fresh id, and from then on a token of
    the owner role with that id is let through by the store-raters route for
    this store, and a token of the owner role with another id is answered
    403.  An owner id of 0 or none gives a store without owner, and a body
    without name is answered 500 with nothing changed. *)
Theorem created_store_belongs_to_owner_id
    (admin : payload) (name : string) (o : Z) (now : Z) (d : db) :
  p_role admin = Admin ->
  o <> 0 ->
  let out := createStore (Token admin) (Some name) (Some o) d in
  let id := next_rowid 0 (map s_id (stores d)) in
  out = (mkReply 201 (StoreJson (Some (mkStore id name (Some o)))),
         set_stores d (stores d ++ [mkStore id name (Some o)])) /\
  (forall s, In s (stores d) -> s_id s < id) /\
  (forall owner, p_role owner = Owner -> p_id owner = o ->
     code (fst (exec now (storeRaters (Token owner) (PInt id)) (snd out))) = 200) /\
  (forall other, p_role other = Owner -> p_id other <> o ->
     exec now (storeRaters (Token other) (PInt id)) (snd out)
     = (mkResponse 403 (Message "Not your store"), snd out)) /\
  stores (snd (createStore (Token admin) (Some name) (Some 0) d))
  = (stores d ++ [mkStore id name None])%list /\
  (forall owner_id, createStore (Token admin) None owner_id d
                    = (mkReply 500 (Info "Server error"), d)).
Proof.
  intros Hrole Ho out id.
  assert (Fid : List.find (fun s => bool_decide (s_id s = id)) (stores d) = None).
  { apply find_none_existsb, not_true_is_false. intros E.
    apply existsb_exists in E as [x [Hin E]]. apply bool_decide_eq_true in E.
    pose proof (next_rowid_fresh 0 (map s_id (stores d)) (s_id x)
                  (in_map s_id _ _ Hin)). fold id in H. lia. }
  assert (Hout : out = (mkReply 201 (StoreJson (Some (mkStore id name (Some o)))),
                        set_stores d (stores d ++ [mkStore id name (Some o)]))).
  { subst out. unfold createStore, gated, authenticated. rewrite Hrole. simpl.
    unfold catching, sql_bind, insert_store, select_store, sql_ret, owner_or_null.
    rewrite (proj2 (Z.eqb_neq o 0) Ho). simpl. fold id.
    rewrite (find_app_none _ _ _ Fid). simpl.
    rewrite bool_decide_eq_true_2 by reflexivity. reflexivity. }
  split; [exact Hout|]. split; [|split; [|split; [|split]]].
  - intros s Hs. apply next_rowid_fresh, in_map, Hs.
  - intros owner Hr Hp. rewrite Hout. simpl.
    unfold storeRaters, authenticate, requireRole, store_raters_handler.
    rewrite Hr. simpl. unfold id.
    rewrite (find_app_none _ _ _ (find_store_fresh (stores d) _)). simpl.
    rewrite Hp, !bool_decide_eq_true_2 by reflexivity. reflexivity.
  - intros other Hr Hp. rewrite Hout. simpl.
    unfold storeRaters, authenticate, requireRole, store_raters_handler.
    rewrite Hr. simpl. unfold id.
    rewrite (find_app_none _ _ _ (find_store_fresh (stores d) _)). simpl.
    rewrite (bool_decide_eq_false_2 (Some o = Some (p_id other))) by congruence.
    rewrite andb_false_r. reflexivity.
  - unfold createStore, gated, authenticated. rewrite Hrole. simpl.
    unfold catching, sql_bind, insert_store, select_store, sql_ret. simpl. reflexivity.
  - intros owner_id. unfold createStore, gated, authenticated. rewrite Hrole.
    reflexivity.
Qed.

Lemma created_store_belongs_to_owner_id_witness :
  let out := createStore (Token (mkPayload 1 Admin)) (Some "Corner shop") (Some 3)
               initDb in
  out = (mkReply 201 (StoreJson (Some (mkStore 1 "Corner shop" (Some 3)))),
         set_stores initDb [mkStore 1 "Corner shop" (Some 3)]) /\
  code (fst (exec 10 (storeRaters (Token (mkPayload 3 Owner)) (PInt 1)) (snd out)))
  = 200.
Proof.
  intros out.
  assert (N : 3 <> 0) by discriminate.
  destruct (created_store_belongs_to_owner_id (mkPayload 1 Admin) "Corner shop" 3 10 initDb
              eq_refl N) as (H1 & _ & H2 & _).
  split; [exact H1|]. apply (H2 (mkPayload 3 Owner) eq_refl eq_refl).
Defined.

(** ** Seeding the administrator *)

(** X18: the seeding step of initDb is idempotent.  On a database without
    user it gives the database the server starts from; on a database that
    has an administrator it changes nothing; and whenever it succeeds, the
    database has an administrator and a second run changes nothing. *)
Theorem seedAdmin_idempotent (d d' : db) :
  seedAdmin (mkDb [] [] [] 0 [] 0) = Some initDb /\
  ((exists u, In u (users d) /\ u_role u = Admin) -> seedAdmin d = Some d) /\
  (seedAdmin d = Some d' ->
   (exists u, In u (users d') /\ u_role u = Admin) /\ seedAdmin d' = Some d').
Proof.
  assert (A : forall x, (exists u, In u (users x) /\ u_role u = Admin) ->
                        seedAdmin x = Some x).
  { intros x (u & Hu & Ru). unfold seedAdmin.
    destruct (List.find _ (users x)) eqn:F; [reflexivity|].
    pose proof (List.find_none _ _ F u Hu) as N. simpl in N.
    rewrite bool_decide_eq_true_2 in N by exact Ru. discriminate. }
  split; [reflexivity|]. split; [apply A|].
  intros H.
  assert (E : exists u, In u (users d') /\ u_role u = Admin).
  { unfold seedAdmin in H.
    destruct (List.find _ (users d)) as [u|] eqn:F.
    - injection H as <-. apply List.find_some in F as [Hu Ru].
      apply bool_decide_eq_true in Ru. exists u. tauto.
    - unfold insert_user in H.
      destruct (existsb _ (users d)); [discriminate|]. injection H as <-.
      eexists. split; [apply in_or_app; right; left; reflexivity|reflexivity]. }
  split; [exact E|apply A, E].
Qed.

Lemma seedAdmin_idempotent_witness :
  seedAdmin initDb = Some initDb.
Proof.
  apply (proj1 (proj2 (seedAdmin_idempotent initDb initDb))).
  eexists. split; [left; reflexivity|reflexivity].
Defined.

(** ** The administrator's queue of requests *)

Lemma In_insert_created desc x y l :
  In y (insert_created desc x l) <-> y = x \/ In y l.
Proof.
  induction l as [|a l IH]; simpl; [intuition congruence|].
  destruct (if desc then qv_created a <=? qv_created x
            else qv_created x <=? qv_created a); simpl; [intuition congruence|].
  rewrite IH. intuition congruence.
Qed.

Lemma In_order_by_created desc y l : In y (order_by_created desc l) <-> In y l.
Proof.
  induction l as [|a l IH]; simpl; [tauto|].
  rewrite In_insert_created, IH. intuition congruence.
Qed.

Lemma insert_created_asc_sorted x l :
  oldest_first l -> oldest_first (insert_created false x l).
Proof.
  unfold oldest_first. induction l as [|a l IH]; simpl; intros S.
  - constructor; constructor.
  - apply StronglySorted_inv in S as [S F].
    destruct (qv_created x <=? qv_created a) eqn:E.
    + apply Z.leb_le in E. constructor; [constructor; assumption|].
      constructor; [exact E|].
      eapply List.Forall_impl; [|exact F]. simpl. intros z Hz. lia.
    + apply Z.leb_gt in E. constructor; [apply IH, S|].
      apply List.Forall_forall. intros z Hz.
      apply In_insert_created in Hz as [->|Hz].
      * lia.
      * apply (proj1 (List.Forall_forall _ _) F z Hz).
Qed.

Lemma insert_created_desc_sorted x l :
  latest_first l -> latest_first (insert_created true x l).
Proof.
  unfold latest_first. induction l as [|a l IH]; simpl; intros S.
  - constructor; constructor.
  - apply StronglySorted_inv in S as [S F].
    destruct (qv_created a <=? qv_created x) eqn:E.
    + apply Z.leb_le in E. constructor; [constructor; assumption|].
      constructor; [exact E|].
      eapply List.Forall_impl; [|exact F]. simpl. intros z Hz. lia.
    + apply Z.leb_gt in E. constructor; [apply IH, S|].
      apply List.Forall_forall. intros z Hz.
      apply In_insert_created in Hz as [->|Hz].
      * lia.
      * apply (proj1 (List.Forall_forall _ _) F z Hz).
Qed.

Lemma order_by_created_asc_sorted l : oldest_first (order_by_created false l).
Proof.
  induction l as [|a l IH]; simpl; [constructor|]. apply insert_created_asc_sorted, IH.
Qed.

Lemma order_by_created_desc_sorted l : latest_first (order_by_created true l).
Proof.
  induction l as [|a l IH]; simpl; [constructor|]. apply insert_created_desc_sorted, IH.
Qed.

(** The rows of the JOIN of requests and users. *)
Lemma In_requests_with_users v d :
  In v (requests_with_users d) <->
  exists q u,
    In q (owner_requests d) /\ In u (users d) /\ u_id u = q_user q /\
    v = mkRequestView (q_id q) (q_user q) (u_name u) (u_email u) (u_address u)
          (q_status q) (q_reason q) (q_created q) (q_updated q).
Proof.
  unfold requests_with_users. rewrite in_flat_map. split.
  - intros (q & Hq & Hv). apply in_map_iff in Hv as (u & <- & Hu).
    apply List.filter_In in Hu as [Hu Eu]. apply bool_decide_eq_true in Eu.
    exists q, u. tauto.
  - intros (q & u & Hq & Hu & Eu & ->). exists q. split; [exact Hq|].
    apply in_map_iff. exists u. split; [reflexivity|].
    apply List.filter_In. split; [exact Hu|]. apply bool_decide_eq_true. exact Eu.
Qed.

Lemma pendingOwnerRequests_rows (admin : payload) (d : db) :
  p_role admin = Admin ->
  pendingOwnerRequests (Token admin) d
  = (mkReply 200
       (RequestsJson
          (order_by_created false
             (List.filter (fun v => bool_decide (qv_status v = Pending))
                (requests_with_users d)))), d).
Proof.
  intros Hrole. unfold pendingOwnerRequests, gated, authenticated.
  rewrite Hrole. reflexivity.
Qed.

(** X19: the administrator's queue lists the pending requests whose user is
    in the users table, each with the user's name, email and address, the
    oldest first; requests that are approved or rejected are not in it. *)
Theorem pending_queue_oldest_first (admin : payload) (d : db) :
  p_role admin = Admin ->
  exists queue,
    pendingOwnerRequests (Token admin) d = (mkReply 200 (RequestsJson queue), d) /\
    oldest_first queue /\
    forall v,
      In v queue <->
      exists q u,
        In q (owner_requests d) /\ q_status q = Pending /\
        In u (users d) /\ u_id u = q_user q /\
        v = mkRequestView (q_id q) (q_user q) (u_name u) (u_email u) (u_address u)
              Pending (q_reason q) (q_created q) (q_updated q).
Proof.
  intros Hrole. eexists. split; [apply pendingOwnerRequests_rows, Hrole|].
  split; [apply order_by_created_asc_sorted|].
  intros v. rewrite In_order_by_created, List.filter_In, In_requests_with_users,
    bool_decide_eq_true. split.
  - intros [(q & u & Hq & Hu & Eu & ->) P]. simpl in P.
    exists q, u. rewrite P. tauto.
  - intros (q & u & Hq & P & Hu & Eu & ->). split; [|reflexivity].
    exists q, u. rewrite P. tauto.
Qed.

Lemma pending_queue_oldest_first_witness :
  let d := set_requests
             (set_users initDb
                (users initDb ++ [mkUser 2 "A user with a long enough name"
                                    "u@example.com" "1 Main Street" Normal]))
             [mkRequest 1 2 Pending None 12 12] 1 in
  exists queue,
    pendingOwnerRequests (Token (mkPayload 1 Admin)) d
    = (mkReply 200 (RequestsJson queue), d) /\
    oldest_first queue.
Proof.
  intros d.
  destruct (pending_queue_oldest_first (mkPayload 1 Admin) d eq_refl)
    as (queue & H & S & _).
  exists queue. split; [exact H|exact S].
Defined.

(** X20: a request that an administrator has approved or rejected has left
    the queue: no row of the queue carries its id. *)
Theorem decided_request_leaves_queue
    (admin : payload) (rid : param) (q : request_row) (reason : option string)
    (now : Z) (d : db) :
  p_role admin = Admin ->
  lookup_request rid d = Some q ->
  q_status q = Pending ->
  let da := snd (exec now (approveOwnerRequest (Token admin) rid) d) in
  let dr := snd (exec now (rejectOwnerRequest (Token admin) rid reason) d) in
  forall d' queue v,
    d' = da \/ d' = dr ->
    pendingOwnerRequests (Token admin) d' = (mkReply 200 (RequestsJson queue), d') ->
    In v queue -> qv_id v <> q_id q.
Proof.
  intros Hrole F P da dr d' queue v Hd' Hq Hv.
  unfold lookup_request in F. pose proof (List.find_some _ _ F) as [_ Hid].
  unfold has_id in Hid. apply bool_decide_eq_true in Hid.
  assert (D : forall x, In x (owner_requests d') -> q_id x = q_id q ->
                        q_status x <> Pending).
  { destruct Hd' as [->| ->].
    - subst da. unfold approveOwnerRequest, authenticate, requireRole, approve_handler.
      rewrite Hrole. simpl. rewrite F, P. simpl.
      intros x Hx Ex. apply in_map_iff in Hx as (y & <- & _).
      unfold has_id in *. destruct (bool_decide (PInt (q_id y) = rid)) eqn:B.
      + discriminate.
      + apply bool_decide_eq_false in B. simpl in Ex. congruence.
    - subst dr. unfold rejectOwnerRequest, authenticate, requireRole, reject_handler.
      rewrite Hrole. simpl. rewrite F, P. simpl.
      intros x Hx Ex. apply in_map_iff in Hx as (y & <- & _).
      unfold has_id in *. destruct (bool_decide (PInt (q_id y) = rid)) eqn:B.
      + discriminate.
      + apply bool_decide_eq_false in B. simpl in Ex. congruence. }
  rewrite (pendingOwnerRequests_rows admin d' Hrole) in Hq.
  injection Hq as <-.
  apply In_order_by_created, List.filter_In in Hv as [Hv Pv].
  apply bool_decide_eq_true in Pv.
  apply In_requests_with_users in Hv as (x & u & Hx & _ & _ & ->). simpl in *.
  intros E. exact (D x Hx E Pv).
Qed.

Lemma decided_request_leaves_queue_witness :
  let d := set_requests
             (set_users initDb
                (users initDb ++ [mkUser 2 "A user with a long enough name"
                                    "u@example.com" "1 Main Street" Normal;
                                  mkUser 3 "Another user with a long name"
                                    "v@example.com" "3 Main Street" Normal]))
             [mkRequest 1 2 Pending None 12 12; mkRequest 2 3 Pending None 13 13] 2 in
  let da := snd (exec 14 (approveOwnerRequest (Token (mkPayload 1 Admin)) (PInt 1)) d) in
  let v := mkRequestView 2 3 "Another user with a long name" "v@example.com"
             "3 Main Street" Pending None 13 13 in
  pendingOwnerRequests (Token (mkPayload 1 Admin)) da
  = (mkReply 200 (RequestsJson [v]), da) /\
  qv_id v <> 1.
Proof.
  intros d da v. split; [reflexivity|].
  apply (decided_request_leaves_queue (mkPayload 1 Admin) (PInt 1)
           (mkRequest 1 2 Pending None 12 12) None 14 d eq_refl eq_refl eq_refl
           da [v] v (or_introl eq_refl) eq_refl (or_introl eq_refl)).
Defined.

(** X21: the list of all requests is the JOIN of requests and users, the
    latest first; a status in the query keeps the rows of that status, and a
    text that names no status keeps none. *)
Theorem all_requests_latest_first (admin : payload) (filter : option string) (d : db) :
  p_role admin = Admin ->
  exists l,
    allOwnerRequests (Token admin) filter d = (mkReply 200 (RequestsJson l), d) /\
    latest_first l /\
    (forall v,
       In v l <->
       In v (requests_with_users d) /\
       (truthy filter = true -> status_text (qv_status v) = text filter)) /\
    (truthy filter = true -> (forall st, status_text st <> text filter) -> l = []).
Proof.
  intros Hrole. eexists. split.
  { unfold allOwnerRequests, gated, authenticated. rewrite Hrole. reflexivity. }
  split; [apply order_by_created_desc_sorted|].
  assert (M : forall v,
            In v (order_by_created true
                    (if truthy filter
                     then List.filter
                            (fun v => bool_decide (status_text (qv_status v) = text filter))
                            (requests_with_users d)
                     else requests_with_users d)) <->
            In v (requests_with_users d) /\
            (truthy filter = true -> status_text (qv_status v) = text filter)).
  { intros v. rewrite In_order_by_created. destruct (truthy filter).
    - rewrite List.filter_In, bool_decide_eq_true. tauto.
    - split; [intros H; split; [exact H|discriminate]|tauto]. }
  split; [exact M|].
  intros T N.
  destruct (order_by_created true _) as [|v l] eqn:E; [reflexivity|].
  exfalso. assert (Hv : In v (v :: l)) by (left; reflexivity).
  apply M in Hv as [_ Hv]. exact (N _ (Hv T)).
Qed.

Lemma all_requests_latest_first_witness :
  let d := set_requests
             (set_users initDb
                (users initDb ++ [mkUser 2 "A user with a long enough name"
                                    "u@example.com" "1 Main Street" Normal]))
             [mkRequest 1 2 Pending None 12 12] 1 in
  fst (allOwnerRequests (Token (mkPayload 1 Admin)) (Some "done") d)
  = mkReply 200 (RequestsJson []).
Proof.
  intros d.
  destruct (all_requests_latest_first (mkPayload 1 Admin) (Some "done") d eq_refl)
    as (l & H & _ & _ & E).
  rewrite H. simpl. rewrite E; [reflexivity|reflexivity|].
  intros st. destruct st; discriminate.
Defined.

(** ** The summary of an owner *)

Lemma filter_flat_map_fst {R : Type} (p : store_row -> bool)
    (rows : store_row -> list (store_row * R)) (S : list store_row) :
  (forall s row, In row (rows s) -> fst row = s) ->
  List.filter (fun row => p (fst row)) (flat_map rows S)
  = flat_map rows (List.filter p S).
Proof.
  intros Hfst. induction S as [|a S IH]; simpl; [reflexivity|].
  rewrite List.filter_app, IH. destruct (p a) eqn:E; simpl; f_equal.
  - apply filter_all. intros row Hrow. rewrite (Hfst a row Hrow). exact E.
  - rewrite filter_nothing; [reflexivity|].
    intros row Hrow. rewrite (Hfst a row Hrow). exact E.
Qed.

(** The group of one of the caller's stores, in the LEFT JOIN restricted to
    the caller's stores, carries the values of the store's Ratings. *)
Lemma column_group_of_owned {A} (c : rating_row -> A) uid s d :
  stores_pk d -> In s (stores d) -> s_owner s = Some uid ->
  column c (group_of (s_id s) (List.filter (owned_by uid) (left_join d)))
  = map c (List.filter (fun r => bool_decide (r_store r = PInt (s_id s))) (ratings d)).
Proof.
  intros PK Hs Ho. unfold left_join, owned_by.
  assert (Hfst : forall s' (row : store_row * option rating_row),
            In row (match List.filter (joins s') (ratings d) with
                    | [] => [(s', None)]
                    | rs => map (fun r => (s', Some r)) rs
                    end) -> fst row = s').
  { intros s' row. destruct (List.filter (joins s') (ratings d)) as [|r rs].
    - intros [<-|[]]. reflexivity.
    - intros Hrow. apply in_map_iff in Hrow as [x [<- _]]. reflexivity. }
  pose proof (filter_flat_map_fst (fun s => bool_decide (s_owner s = Some uid)) _
                (stores d) Hfst) as X.
  cbv beta in X. rewrite X.
  rewrite (group_of_flat_map _ _ _ Hfst).
  rewrite (filter_by_id s).
  - simpl. rewrite app_nil_r. unfold joins.
    destruct (List.filter _ (ratings d)) as [|r rs]; [reflexivity|].
    apply (column_some c s (r :: rs)).
  - apply NoDup_map_filter, PK.
  - apply List.filter_In. split; [exact Hs|]. apply bool_decide_eq_true. exact Ho.
Qed.

(** X22: with store ids a primary key, the summary of an owner lists the
    stores whose owner is the caller, in the order of the table and no other
    store, each with SQLite's AVG over the values of its Ratings, the number
    0 when it has none, and with the number of its Ratings.  Over values on
    a binary grid, whole ratings among them, that average is the mean
    rounded to the nearest double. *)
Theorem ownerSummary_lists_own_stores (owner : payload) (now : Z) (d : db) :
  p_role owner = Owner ->
  stores_pk d ->
  exec now (ownerSummary (Token owner)) d
  = (mkResponse 200
       (OwnerStoresJson
          (map (fun s => mkOwnerStore (s_id s) (s_name s)
                           (coalesce0 (sql_avg (store_values (s_id s) d)))
                           (Z.of_nat (length (store_values (s_id s) d))))
             (List.filter (fun s => bool_decide (s_owner s = Some (p_id owner)))
                (stores d)))), d) /\
  (forall s,
     (store_values (s_id s) d = [] ->
      coalesce0 (sql_avg (store_values (s_id s) d)) = (0 # 1)%Q) /\
     (forall k, on_grid k (store_values (s_id s) d) = true ->
        coalesce0 (sql_avg (store_values (s_id s) d))
        = rounded_mean (store_values (s_id s) d))).
Proof.
  intros Hrole PK. split.
  - unfold ownerSummary, authenticate, requireRole.
    rewrite Hrole. simpl. f_equal. f_equal. f_equal.
    apply map_ext_in. intros s Hs. apply List.filter_In in Hs as [Hs Ho].
    apply bool_decide_eq_true in Ho.
    unfold avg_rating, count_ids, store_values.
    rewrite (column_group_of_owned r_rating _ s d PK Hs Ho).
    rewrite (column_group_of_owned r_id _ s d PK Hs Ho).
    rewrite !length_map. reflexivity.
  - intros s. split.
    + intros ->. reflexivity.
    + intros k. apply coalesce_avg_on_grid.
Qed.

Lemma ownerSummary_lists_own_stores_witness :
  let d := mkDb [] [mkStore 7 "Corner shop" (Some 3); mkStore 8 "Bakery" (Some 5);
                    mkStore 9 "Florist" (Some 3)]
                [mkRating 1 2 (PInt 7) (4 # 1) 10 10;
                 mkRating 2 4 (PInt 7) (5 # 1) 11 11] 2 [] 0 in
  exec 20 (ownerSummary (Token (mkPayload 3 Owner))) d
  = (mkResponse 200
       (OwnerStoresJson
          [mkOwnerStore 7 "Corner shop" (9 # 2) 2; mkOwnerStore 9 "Florist" (0 # 1) 0]),
     d).
Proof.
  intros d.
  assert (PK : stores_pk d).
  { unfold stores_pk. simpl. repeat constructor; simpl; intuition discriminate. }
  rewrite (proj1 (ownerSummary_lists_own_stores (mkPayload 3 Owner) 20 d eq_refl PK)).
  vm_compute. reflexivity.
Defined.

(** ** The gate *)

(** X23: the gate decides on the token alone, whatever the database holds.
    Without a Bearer header a request is answered 401 'Missing token', with
    a token that does not verify 401 'Invalid token', with a token whose
    role the route does not name 403 'Forbidden'; a token whose role the
    route names is never answered 401, and 403 only by the store-raters
    route, for a store that is not the caller's. *)
Theorem gate_decides_by_token (r : request) (now : Z) (d : db) :
  let out := exec now (route r) d in
  match credential_of r with
  | NoBearer => out = (mkResponse 401 (Message "Missing token"), d)
  | BadToken => out = (mkResponse 401 (Message "Invalid token"), d)
  | Token p =>
      if bool_decide (p_role p ∈ allowed_roles r)
      then code (fst out) <> 401 /\
           (code (fst out) = 403 ->
            exists c sid, r = GetStoreRaters c sid /\
                          fst out = mkResponse 403 (Message "Not your store"))
      else out = (mkResponse 403 (Message "Forbidden"), d)
  end.
Proof.
  destruct r as [c sid v|c rid|c rid reason|c|c|c sid|c|c|c];
    unfold route, submitRating, approveOwnerRequest, rejectOwnerRequest,
      requestOwnerUpgrade, ownerRequestStatus, storeRaters, adminStores,
      ownerSummary, adminUsers, authenticate, requireRole, rating_handler,
      approve_handler, reject_handler, request_owner_handler, store_raters_handler;
    destruct c as [| |user]; simpl; try reflexivity;
    destruct (p_role user); simpl; try reflexivity;
    split_route; split; try discriminate; intros; try discriminate;
    eexists; eexists; split; reflexivity.
Qed.

Lemma gate_decides_by_token_witness :
  exec 10 (route (GetOwnerSummary (Token (mkPayload 2 Normal)))) initDb
  = (mkResponse 403 (Message "Forbidden"), initDb).
Proof.
  apply (gate_decides_by_token (GetOwnerSummary (Token (mkPayload 2 Normal))) 10 initDb).
Defined.
